(** * Planet propagator (cython_numba_planet.ipynb): the pure-Python cell

    A shallow embedding of the first code cell of the notebook: the class
    [Planet], [single_step] and [propagate], as Python 3 executes them.

    - Python numbers are [PyInt] (unbounded integers) or [PyFloat] (IEEE 754
      binary64, round to nearest even, taken from the standard library's
      [SpecFloat]).
    - Python exceptions are values of [exn]; an expression evaluates to a
      [result].
    - The planet is one mutable object; statements are functions from the
      object's state to its new state and an outcome, so that an exception
      raised in the middle of a function leaves the fields assigned so far.

    The cells that Cython compiles with static types follow the
    specification-side definitions: [propagate] with C parameters ([Typed],
    [CDivision]) and the [cdef class] with its steps on C doubles
    ([Cdef]).

    The fall of a body from rest is followed in the real numbers, where a
    finite double stands for the real [F2R]. *)

From Stdlib Require Import Reals Lra Psatz.
From Stdlib Require Import ZArith List Bool Lia.
From Stdlib Require Import SpecFloat.
Import ListNotations.

Local Open Scope Z_scope.

(** ** Exceptions and results *)

Inductive exn : Type :=
  | ZeroDivisionError
  | OverflowError
  | ValueError
  | TypeError.

Inductive result (A : Type) : Type :=
  | Ok (a : A)
  | Raise (e : exn).

Arguments Ok {A} a.
Arguments Raise {A} e.

Definition rbind {A B : Type} (r : result A) (k : A -> result B) : result B :=
  match r with
  | Ok a => k a
  | Raise e => Raise e
  end.

(** ** binary64 *)

Module F64.

Definition prec : Z := 53.
Definition emax : Z := 1024.

Definition float : Type := spec_float.

Definition add : float -> float -> float := SFadd prec emax.
Definition mul : float -> float -> float := SFmul prec emax.
Definition div : float -> float -> float := SFdiv prec emax.
Definition sqrt : float -> float := SFsqrt prec emax.
Definition opp : float -> float := SFopp.
Definition abs : float -> float := SFabs.
Definition eqb : float -> float -> bool := SFeqb.
Definition ltb : float -> float -> bool := SFltb.

(** The integer [z] rounded to the nearest double (ties to even); an
    infinity when [z] is beyond the range. *)
Definition of_Z (z : Z) : float := binary_normalize prec emax z 0 false.

Definition is_nan (f : float) : bool :=
  match f with S754_nan => true | _ => false end.

Definition is_inf (f : float) : bool :=
  match f with S754_infinity _ => true | _ => false end.

Definition is_zero (f : float) : bool :=
  match f with S754_zero _ => true | _ => false end.

Definition is_finite (f : float) : bool :=
  match f with
  | S754_zero _ | S754_finite _ _ _ => true
  | _ => false
  end.

Definition is_neg (f : float) : bool :=
  match f with
  | S754_finite true _ _ | S754_infinity true => true
  | _ => false
  end.

(** C's [fmod(fabs(x), 2.0) == 1.0]. *)
Definition is_odd_integer (f : float) : bool :=
  match f with
  | S754_finite _ m e =>
      match e with
      | Z0 => Z.odd (Zpos m)
      | Zpos _ => false
      | Zneg k =>
          let d := Z.pow_pos 2 k in
          (Zpos m mod d =? 0) && Z.odd (Zpos m / d)
      end
  | _ => false
  end.

Definition zero : float := S754_zero false.
Definition one : float := Eval vm_compute in of_Z 1.

(** The quotient [n / m] of two integers, [m <> 0], rounded once to the
    nearest double; the sign of a zero quotient is the exclusive or of the
    signs of [n] and [m].  [ratio 1 10] is the double that Python writes
    [0.1]. *)
Definition ratio (n m : Z) : float :=
  match n, m with
  | _, Z0 => S754_nan
  | Z0, _ => S754_zero (m <? 0)
  | _, _ =>
      let '(q, e, l) := SFdiv_core_binary prec emax (Z.abs n) 0 (Z.abs m) 0 in
      binary_round_aux prec emax (xorb (n <? 0) (m <? 0)) q e l
  end.

End F64.

Definition float : Type := F64.float.

(** ** Python numbers *)

Inductive pyval : Type :=
  | PyInt (i : Z)
  | PyFloat (f : float).

(** [PyFloat_AsDouble]: an [int] too large for a double raises
    [OverflowError]. *)
Definition as_double (v : pyval) : result float :=
  match v with
  | PyFloat f => Ok f
  | PyInt i =>
      let f := F64.of_Z i in
      if F64.is_inf f then Raise OverflowError else Ok f
  end.

(** [a + b] *)
Definition py_add (a b : pyval) : result pyval :=
  match a, b with
  | PyInt i, PyInt j => Ok (PyInt (i + j))
  | _, _ =>
      rbind (as_double a) (fun fa =>
      rbind (as_double b) (fun fb =>
      Ok (PyFloat (F64.add fa fb))))
  end.

(** [a * b] *)
Definition py_mul (a b : pyval) : result pyval :=
  match a, b with
  | PyInt i, PyInt j => Ok (PyInt (i * j))
  | _, _ =>
      rbind (as_double a) (fun fa =>
      rbind (as_double b) (fun fb =>
      Ok (PyFloat (F64.mul fa fb))))
  end.

(** [-a] *)
Definition py_neg (a : pyval) : result pyval :=
  match a with
  | PyInt i => Ok (PyInt (- i))
  | PyFloat f => Ok (PyFloat (F64.opp f))
  end.

(** [a / b], Python 3 true division: the division by zero is guarded, and
    the quotient of two [int]s is rounded once. *)
Definition py_truediv (a b : pyval) : result pyval :=
  match a, b with
  | PyInt i, PyInt j =>
      if j =? 0 then Raise ZeroDivisionError
      else
        let q := F64.ratio i j in
        if F64.is_inf q then Raise OverflowError else Ok (PyFloat q)
  | _, _ =>
      rbind (as_double a) (fun fa =>
      rbind (as_double b) (fun fb =>
      if F64.is_zero fb then Raise ZeroDivisionError
      else Ok (PyFloat (F64.div fa fb))))
  end.

(** *** The platform's C library

    [float ** int] ends in a call of C's [pow], whose last bits are the
    platform's; the embedding takes it as a parameter. *)

Inductive errno : Type := ENONE | ERANGE | EDOM.

Class Libm : Type := { c_pow : float -> float -> float * errno }.

(** CPython's [_Py_ADJUST_ERANGE1]. *)
Definition adjust_erange1 (ix : float) (e : errno) : errno :=
  match e with
  | ENONE => if F64.is_inf ix then ERANGE else ENONE
  | ERANGE => if F64.is_zero ix then ENONE else ERANGE
  | EDOM => EDOM
  end.

Section Pow.

Context `{Libm}.

(** CPython's [float_pow] at an exponent that is a positive [int]: of its
    special cases, those for a zero, NaN or infinite exponent cannot
    apply, and a negative base never gives a complex number. *)
Definition float_pow (iv : float) (n : positive) : result pyval :=
  rbind (as_double (PyInt (Zpos n))) (fun iw =>
  if F64.is_nan iv then Ok (PyFloat iv)
  else if F64.is_inf iv then
    Ok (PyFloat (if F64.is_odd_integer iw then iv else F64.abs iv))
  else if F64.is_zero iv then
    Ok (PyFloat (if F64.is_odd_integer iw then iv else F64.zero))
  else
    let negate_result := F64.is_neg iv && F64.is_odd_integer iw in
    let iv := F64.abs iv in
    if F64.eqb iv F64.one then
      Ok (PyFloat (if negate_result then F64.opp F64.one else F64.one))
    else
      let '(ix, e) := c_pow iv iw in
      let e := adjust_erange1 ix e in
      let ix := if negate_result then F64.opp ix else ix in
      match e with
      | ENONE => Ok (PyFloat ix)
      | ERANGE => Raise OverflowError
      | EDOM => Raise ValueError
      end).

(** [a ** n] for a positive [int] literal [n]. *)
Definition py_pow (a : pyval) (n : positive) : result pyval :=
  match a with
  | PyInt i => Ok (PyInt (Z.pow_pos i n))
  | PyFloat f => float_pow f n
  end.

End Pow.

(** [math.sqrt(a)] *)
Definition math_sqrt (a : pyval) : result pyval :=
  rbind (as_double a) (fun x =>
  let r := F64.sqrt x in
  if F64.is_nan r && negb (F64.is_nan x) then Raise ValueError
  else if F64.is_inf r && F64.is_finite x then Raise ValueError
  else Ok (PyFloat r)).

(** [a == b]; an [int] and a [float] are compared exactly. *)
Definition py_eq (a b : pyval) : bool :=
  let int_float (i : Z) (f : float) : bool :=
    match f with
    | S754_zero _ => i =? 0
    | S754_finite s m e =>
        let v := if s then Zneg m else Zpos m in
        match e with
        | Zneg k => i * Z.pow_pos 2 k =? v
        | _ => i =? v * 2 ^ e
        end
    | _ => false
    end in
  match a, b with
  | PyInt i, PyInt j => i =? j
  | PyFloat f, PyFloat g => F64.eqb f g
  | PyInt i, PyFloat f => int_float i f
  | PyFloat f, PyInt i => int_float i f
  end.

(** [range(n)] *)
Definition py_range (n : pyval) : result (list Z) :=
  match n with
  | PyInt i => Ok (map Z.of_nat (seq 0 (Z.to_nat i)))
  | PyFloat _ => Raise TypeError
  end.

(** *** Expressions

    An operand that raised is propagated, the left one first. *)

Definition rnum : Type := result pyval.

Definition num (v : pyval) : rnum := Ok v.
Coercion num : pyval >-> rnum.

Definition lift2 (op : pyval -> pyval -> result pyval) (a b : rnum) : rnum :=
  rbind a (fun va => rbind b (fun vb => op va vb)).

Declare Scope py_scope.
Delimit Scope py_scope with py.
Bind Scope py_scope with rnum.

Notation "a + b" := (lift2 py_add a b) : py_scope.
Notation "a * b" := (lift2 py_mul a b) : py_scope.
Notation "a / b" := (lift2 py_truediv a b) : py_scope.
Notation "- a" := (rbind (a : rnum) py_neg) : py_scope.
Notation "a ** n" := (rbind (a : rnum) (fun v => py_pow v n))
  (at level 30, right associativity) : py_scope.
Notation "'sqrt' a" := (rbind (a : rnum) math_sqrt)
  (at level 10, a at level 9) : py_scope.

(** ** The planet object *)

Record Planet : Type := mkPlanet {
  x : pyval;
  y : pyval;
  z : pyval;
  vx : pyval;
  vy : pyval;
  vz : pyval;
  m : pyval
}.

(** Attribute assignment, [planet.x = v] and the like. *)
Definition set_x (v : pyval) (p : Planet) : Planet :=
  mkPlanet v (y p) (z p) (vx p) (vy p) (vz p) (m p).
Definition set_y (v : pyval) (p : Planet) : Planet :=
  mkPlanet (x p) v (z p) (vx p) (vy p) (vz p) (m p).
Definition set_z (v : pyval) (p : Planet) : Planet :=
  mkPlanet (x p) (y p) v (vx p) (vy p) (vz p) (m p).
Definition set_vx (v : pyval) (p : Planet) : Planet :=
  mkPlanet (x p) (y p) (z p) v (vy p) (vz p) (m p).
Definition set_vy (v : pyval) (p : Planet) : Planet :=
  mkPlanet (x p) (y p) (z p) (vx p) v (vz p) (m p).
Definition set_vz (v : pyval) (p : Planet) : Planet :=
  mkPlanet (x p) (y p) (z p) (vx p) (vy p) v (m p).
Definition set_m (v : pyval) (p : Planet) : Planet :=
  mkPlanet (x p) (y p) (z p) (vx p) (vy p) (vz p) v.

(** ** Statements: state of the object and outcome *)

Definition M (A : Type) : Type := Planet -> Planet * result A.

Definition ret {A : Type} (a : A) : M A := fun p => (p, Ok a).

Definition bind {A B : Type} (c : M A) (k : A -> M B) : M B :=
  fun p =>
    match c p with
    | (p', Ok a) => k a p'
    | (p', Raise e) => (p', Raise e)
    end.

(** An outcome that does not depend on the object. *)
Definition lift {A : Type} (r : result A) : M A := fun p => (p, r).

(** The value of an expression, which may read the object. *)
Definition expr (e : Planet -> rnum) : M pyval := fun p => (p, e p).

(** [planet.attr = e]: nothing is assigned when [e] raises. *)
Definition store (set : pyval -> Planet -> Planet) (e : Planet -> rnum)
  : M unit :=
  fun p =>
    match e p with
    | Ok v => (set v p, Ok tt)
    | Raise ex => (p, Raise ex)
    end.

(** [for a in l: body] *)
Fixpoint for_ {A : Type} (l : list A) (body : A -> M unit) : M unit :=
  match l with
  | [] => ret tt
  | a :: l' => bind (body a) (fun _ => for_ l' body)
  end.

Declare Scope stmt_scope.
Delimit Scope stmt_scope with stmt.
Bind Scope stmt_scope with M.

Notation "v <- c ;; k" := (bind c (fun v => k))
  (at level 61, c at next level, right associativity) : stmt_scope.
Notation "c ;; k" := (bind c (fun _ => k))
  (at level 61, right associativity) : stmt_scope.

(** ** The program *)

(** [Planet(args...)]: [__init__(self)] has no parameter besides [self]. *)
Definition Planet_new (args : list pyval) : result Planet :=
  match args with
  | [] =>
      Ok {| x := PyFloat F64.one; y := PyInt 0; z := PyInt 0;
            vx := PyInt 0; vy := PyInt 0; vz := PyFloat F64.one;
            m := PyFloat F64.one |}
  | _ :: _ => Raise TypeError
  end.

Section Program.

Context `{Libm}.

Local Open Scope py_scope.
Local Open Scope stmt_scope.

(** [single_step(planet, dt)] *)
Definition single_step (dt : pyval) : M unit :=
  r <- expr (fun planet =>
         sqrt (x planet ** 2 + y planet ** 2 + z planet ** 2)) ;;
  r3 <- expr (fun _ => r ** 3) ;;

  Fx <- expr (fun planet => - x planet / r3) ;;
  Fy <- expr (fun planet => - y planet / r3) ;;
  Fz <- expr (fun planet => - z planet / r3) ;;

  store set_x (fun planet => x planet + vx planet * dt) ;;
  store set_y (fun planet => y planet + vy planet * dt) ;;
  store set_z (fun planet => z planet + vz planet * dt) ;;

  m <- expr (fun planet => m planet) ;;
  store set_vx (fun planet => vx planet + Fx * dt / m) ;;
  store set_vy (fun planet => vy planet + Fy * dt / m) ;;
  store set_vz (fun planet => vz planet + Fz * dt / m).

(** [propagate(planet, time_span, num_steps)] *)
Definition propagate (time_span num_steps : pyval) : M unit :=
  dt <- expr (fun _ => time_span / num_steps) ;;
  it <- lift (py_range num_steps) ;;
  for_ it (fun _ => single_step dt).

End Program.

(** ** A reference C library

    [pow] at a positive integral exponent, computed exactly and rounded
    once; [ERANGE] on overflow and on underflow to zero.  It serves to run
    the program on concrete inputs. *)

Definition integral (f : float) : option positive :=
  match f with
  | S754_finite false m e =>
      match e with
      | Z0 => Some m
      | Zpos k => Some (m * Pos.pow 2 k)%positive
      | Zneg k =>
          let d := Z.pow_pos 2 k in
          if Zpos m mod d =? 0 then Some (Z.to_pos (Zpos m / d)) else None
      end
  | _ => None
  end.

Definition exact_pow (a b : float) : float * errno :=
  match a, integral b with
  | S754_finite s ma ea, Some k =>
      let r :=
        binary_round F64.prec F64.emax (s && Z.odd (Zpos k))
          (Pos.pow ma k) (ea * Zpos k) in
      (r, if F64.is_inf r || F64.is_zero r then ERANGE else ENONE)
  | _, _ => (S754_nan, EDOM)
  end.

#[export] Instance exact_libm : Libm := {| c_pow := exact_pow |}.

(** ** Bodies and specification-side definitions *)

(** The state that [Planet()] creates. *)
Definition planet0 : Planet :=
  {| x := PyFloat F64.one; y := PyInt 0; z := PyInt 0;
     vx := PyInt 0; vy := PyInt 0; vz := PyFloat F64.one;
     m := PyFloat F64.one |}.

(** The same body with every field a [float]. *)
Definition planet0f : Planet :=
  {| x := PyFloat F64.one; y := PyFloat F64.zero; z := PyFloat F64.zero;
     vx := PyFloat F64.zero; vy := PyFloat F64.zero; vz := PyFloat F64.one;
     m := PyFloat F64.one |}.

(** A body of mass [mass] at rest at (1, 0, 0). *)
Definition at_rest (mass : pyval) : Planet :=
  {| x := PyFloat F64.one; y := PyFloat F64.zero; z := PyFloat F64.zero;
     vx := PyFloat F64.zero; vy := PyFloat F64.zero; vz := PyFloat F64.zero;
     m := mass |}.

(** [planet0f] moved to the origin. *)
Definition origin : Planet := set_x (PyFloat F64.zero) planet0f.

(** [Planet()] followed by the assignment of the seven attributes. *)
Definition Planet_with (q : Planet) : result Planet :=
  rbind (Planet_new []) (fun p =>
  Ok (set_m (m q) (set_vz (vz q) (set_vy (vy q) (set_vx (vx q)
       (set_z (z q) (set_y (y q) (set_x (x q) p)))))))).

Definition is_zero (v : pyval) : bool :=
  match v with
  | PyInt i => i =? 0
  | PyFloat f => F64.is_zero f
  end.

Definition is_float (v : pyval) : bool :=
  match v with
  | PyFloat _ => true
  | PyInt _ => false
  end.

Definition at_origin (p : Planet) : bool :=
  is_zero (x p) && is_zero (y p) && is_zero (z p).

Definition all_float (p : Planet) : bool :=
  is_float (x p) && is_float (y p) && is_float (z p) &&
  is_float (vx p) && is_float (vy p) && is_float (vz p) && is_float (m p).

(** Position and velocity of [p] and [q] are equal as Python compares
    numbers. *)
Definition same_motion (p q : Planet) : bool :=
  py_eq (x p) (x q) && py_eq (y p) (y q) && py_eq (z p) (z q) &&
  py_eq (vx p) (vx q) && py_eq (vy p) (vy q) && py_eq (vz p) (vz q).

Section Spec.

Context `{Libm}.

Local Open Scope py_scope.

(** The distance to the origin, [sqrt(x**2 + y**2 + z**2)]. *)
Definition radius (p : Planet) : rnum :=
  sqrt (x p ** 2 + y p ** 2 + z p ** 2).

(** The force at the position of [p], [F = -position / r**3]. *)
Definition gravity (p : Planet) : result (pyval * pyval * pyval) :=
  rbind (radius p) (fun r =>
  rbind (r ** 3) (fun r3 =>
  rbind (- x p / r3) (fun Fx =>
  rbind (- y p / r3) (fun Fy =>
  rbind (- z p / r3) (fun Fz =>
  Ok (Fx, Fy, Fz)))))).

(** One explicit Euler step, every right-hand side taken at the state [p]
    before the step; [dv F dt mass] is the increment of a velocity
    component. *)
Definition explicit_euler (dv : pyval -> pyval -> pyval -> rnum)
  (p : Planet) (dt : pyval) : result Planet :=
  rbind (gravity p) (fun '(Fx, Fy, Fz) =>
  rbind (x p + vx p * dt) (fun x' =>
  rbind (y p + vy p * dt) (fun y' =>
  rbind (z p + vz p * dt) (fun z' =>
  rbind (vx p + dv Fx dt (m p)) (fun vx' =>
  rbind (vy p + dv Fy dt (m p)) (fun vy' =>
  rbind (vz p + dv Fz dt (m p)) (fun vz' =>
  Ok (mkPlanet x' y' z' vx' vy' vz' (m p))))))))).

(** The increment as the specification writes it, [(F / mass) * dt]. *)
Definition dv_spec (F dt mass : pyval) : rnum := F / mass * dt.

(** The increment as [single_step] writes it, [F * dt / m]. *)
Definition dv_code (F dt mass : pyval) : rnum := F * dt / mass.

(** [single_step(planet, dt)] called [n] times in a row. *)
Fixpoint single_step_times (n : nat) (dt : pyval) : M unit :=
  match n with
  | O => ret tt
  | S k => bind (single_step dt) (fun _ => single_step_times k dt)
  end.

(** The radii after each of [n] steps, as long as nothing raises. *)
Fixpoint radii (n : nat) (dt : pyval) (p : Planet) : list rnum :=
  match n with
  | O => []
  | S k =>
      match single_step dt p with
      | (p', Ok _) => radius p' :: radii k dt p'
      | (_, Raise e) => [Raise e]
      end
  end.

End Spec.

(** [l] is a list of floats, each strictly below the one before it. *)
Fixpoint decreasing (l : list rnum) : bool :=
  match l with
  | Ok (PyFloat a) :: (Ok (PyFloat b) :: _) as l' =>
      F64.ltb b a && decreasing l'
  | [Ok (PyFloat _)] => true
  | [] => true
  | _ => false
  end.

(** The double [2 ** e], for [-1022 <= e <= 1023]. *)
Definition pow2 (e : Z) : float :=
  S754_finite false 4503599627370496 (e - 52).

(** A statement that leaves the attribute [m] as it found it, whatever its
    outcome. *)
Definition keeps_m {A : Type} (c : M A) : Prop :=
  forall p, m (fst (c p)) = m p.


(** ** The trace of a step that returns *)

(** Every intermediate value of a call [single_step(planet, dt)] that
    returns normally, in the order of evaluation; the last argument is the
    state the call leaves. *)
Inductive step_ok `{Libm} (p : Planet) (dt : pyval) : Planet -> Prop :=
  | StepOk (xx yy zz s1 s2 r r3 nx ny nz Fx Fy Fz : pyval)
      (dx dy dz x' y' z' gx gy gz hx hy hz vx' vy' vz' : pyval) :
      py_pow (x p) 2 = Ok xx ->
      py_pow (y p) 2 = Ok yy ->
      py_add xx yy = Ok s1 ->
      py_pow (z p) 2 = Ok zz ->
      py_add s1 zz = Ok s2 ->
      math_sqrt s2 = Ok r ->
      py_pow r 3 = Ok r3 ->
      py_neg (x p) = Ok nx -> py_truediv nx r3 = Ok Fx ->
      py_neg (y p) = Ok ny -> py_truediv ny r3 = Ok Fy ->
      py_neg (z p) = Ok nz -> py_truediv nz r3 = Ok Fz ->
      py_mul (vx p) dt = Ok dx -> py_add (x p) dx = Ok x' ->
      py_mul (vy p) dt = Ok dy -> py_add (y p) dy = Ok y' ->
      py_mul (vz p) dt = Ok dz -> py_add (z p) dz = Ok z' ->
      py_mul Fx dt = Ok gx -> py_truediv gx (m p) = Ok hx ->
      py_add (vx p) hx = Ok vx' ->
      py_mul Fy dt = Ok gy -> py_truediv gy (m p) = Ok hy ->
      py_add (vy p) hy = Ok vy' ->
      py_mul Fz dt = Ok gz -> py_truediv gz (m p) = Ok hz ->
      py_add (vz p) hz = Ok vz' ->
      step_ok p dt (mkPlanet x' y' z' vx' vy' vz' (m p)).

(** [v] is the float NaN. *)
Definition is_nan (v : pyval) : bool :=
  match v with
  | PyFloat f => F64.is_nan f
  | PyInt _ => false
  end.

(** [v] is a float that is neither NaN nor infinite. *)
Definition is_finite (v : pyval) : bool :=
  match v with
  | PyFloat f => F64.is_finite f
  | PyInt _ => false
  end.

(** The body is in the plane [y = 0] and moves within it. *)
Definition in_plane (p : Planet) : bool := is_zero (y p) && is_zero (vy p).

(** Position and velocity are finite floats. *)
Definition finite_motion (p : Planet) : bool :=
  is_finite (x p) && is_finite (y p) && is_finite (z p) &&
  is_finite (vx p) && is_finite (vy p) && is_finite (vz p).

(** The body that [Planet()] creates, one step of [dt = 0.001] later. *)
Definition planet1 : Planet :=
  {| x := PyFloat F64.one;
     y := PyFloat F64.zero;
     z := PyFloat (F64.ratio 1 1000);
     vx := PyFloat (F64.opp (F64.ratio 1 1000));
     vy := PyFloat F64.zero;
     vz := PyFloat F64.one;
     m := PyFloat F64.one |}.

(** [v] is a zero or NaN. *)
Definition zero_or_nan (v : pyval) : bool := is_zero v || is_nan v.

(** ** The cells compiled with static types

    From the cell "Throw in some static typing" on, Cython compiles
    [propagate] with the parameters [double time_span] and [int num_steps]:
    the arguments are converted at the call, the loop is a C loop and the
    division a division of doubles, guarded unless [cdivision(True)] asks
    for the C semantics.  [num_steps] is a Python [int] here, and C's [int]
    has 32 bits. *)

Definition INT_MIN : Z := - 2 ^ 31.
Definition INT_MAX : Z := 2 ^ 31 - 1.

(** A Python [int] passed for an [int] parameter. *)
Definition as_int (n : Z) : result Z :=
  if (INT_MIN <=? n) && (n <=? INT_MAX) then Ok n else Raise OverflowError.

(** The values of [j] in the C loop [for j in range(n)]. *)
Definition c_range (n : Z) : list Z := map Z.of_nat (seq 0 (Z.to_nat n)).

(** A [time_span] that the conversion to [double] does not round: a float,
    or an [int] below [2 ** 53] in absolute value. *)
Definition exact_double (v : pyval) : bool :=
  match v with
  | PyFloat _ => true
  | PyInt i => Z.abs i <? 2 ^ 53
  end.

(** [propagate] with typed parameters, the step still the Python
    [single_step] of the first cell. *)
Module Typed.
Section Program.

Context `{Libm}.

Local Open Scope stmt_scope.

Definition propagate (time_span : pyval) (num_steps : Z) : M unit :=
  time_span <- lift (as_double time_span) ;;
  num_steps <- lift (as_int num_steps) ;;
  dt <- lift (if num_steps =? 0 then Raise ZeroDivisionError
              else Ok (F64.div time_span (F64.of_Z num_steps))) ;;
  for_ (c_range num_steps) (fun _ => single_step (PyFloat dt)).

End Program.
End Typed.

(** The same under [@cython.cdivision(True)]. *)
Module CDivision.
Section Program.

Context `{Libm}.

Local Open Scope stmt_scope.

Definition propagate (time_span : pyval) (num_steps : Z) : M unit :=
  time_span <- lift (as_double time_span) ;;
  num_steps <- lift (as_int num_steps) ;;
  let dt := F64.div time_span (F64.of_Z num_steps) in
  for_ (c_range num_steps) (fun _ => single_step (PyFloat dt)).

End Program.
End CDivision.

(** *** The [cdef class]

    [Planet] with [cdef public double x, y, z, vx, vy, vz, m], and the
    steps that work on its fields in C: [**] is the C expression
    [pow(a, b)], [sqrt] is the one of [math.h], the untyped locals [Fx],
    [Fy], [Fz] and [m] hold doubles as the fields they are computed from,
    and no division is guarded. *)

(** What [pow(a, b)] evaluates to in the compiled module; [errno] is not
    read.  It is a parameter of its own: the C compiler may emit a call of
    the library's [pow] or, at a constant exponent such as [2.0], put a
    product in its place, so that nothing ties this value to the one
    CPython's [float_pow] gets from [c_pow] at run time. *)
Class Compiled : Type := { cc_pow : float -> float -> float }.

Declare Scope c_scope.
Delimit Scope c_scope with c.

Module Cdef.

Record Planet : Type := mkPlanet {
  x : float;
  y : float;
  z : float;
  vx : float;
  vy : float;
  vz : float;
  m : float
}.

Definition set_x (v : float) (p : Planet) : Planet :=
  mkPlanet v (y p) (z p) (vx p) (vy p) (vz p) (m p).
Definition set_y (v : float) (p : Planet) : Planet :=
  mkPlanet (x p) v (z p) (vx p) (vy p) (vz p) (m p).
Definition set_z (v : float) (p : Planet) : Planet :=
  mkPlanet (x p) (y p) v (vx p) (vy p) (vz p) (m p).
Definition set_vx (v : float) (p : Planet) : Planet :=
  mkPlanet (x p) (y p) (z p) v (vy p) (vz p) (m p).
Definition set_vy (v : float) (p : Planet) : Planet :=
  mkPlanet (x p) (y p) (z p) (vx p) v (vz p) (m p).
Definition set_vz (v : float) (p : Planet) : Planet :=
  mkPlanet (x p) (y p) (z p) (vx p) (vy p) v (m p).

(** [Planet(args...)]: the [int]s of [__init__] are stored as doubles. *)
Definition Planet_new (args : list pyval) : result Planet :=
  match args with
  | [] => Ok (mkPlanet F64.one F64.zero F64.zero F64.zero F64.zero F64.one
                F64.one)
  | _ :: _ => Raise TypeError
  end.

Section Program.

Context `{Compiled}.

Definition pow (a b : float) : float := cc_pow a b.

Notation "a + b" := (F64.add a b) : c_scope.
Notation "a * b" := (F64.mul a b) : c_scope.
Notation "a / b" := (F64.div a b) : c_scope.
Notation "- a" := (F64.opp a) : c_scope.
Notation "a ** n" := (pow a (F64.of_Z n))
  (at level 30, right associativity) : c_scope.
Notation "'sqrt' a" := (F64.sqrt a)
  (at level 10, a at level 9) : c_scope.

Local Open Scope c_scope.

(** The distance to the origin as the steps compute it. *)
Definition radius (planet : Planet) : float :=
  sqrt (x planet ** 2 + y planet ** 2 + z planet ** 2).

(** [def single_step(Planet planet not None, double dt)]: its [sqrt] is
    still [math.sqrt], called on a Python float, and can raise; nothing
    has been assigned by then. *)
Definition single_step_def (dt : float) (planet : Planet)
  : Planet * result unit :=
  match
    rbind (math_sqrt (PyFloat (x planet ** 2 + y planet ** 2 + z planet ** 2)))
      as_double
  with
  | Raise e => (planet, Raise e)
  | Ok r =>
      let r3 := r ** 3 in
      let Fx := - x planet / r3 in
      let Fy := - y planet / r3 in
      let Fz := - z planet / r3 in
      let planet := set_x (x planet + vx planet * dt) planet in
      let planet := set_y (y planet + vy planet * dt) planet in
      let planet := set_z (z planet + vz planet * dt) planet in
      let m := m planet in
      let planet := set_vx (vx planet + Fx * dt / m) planet in
      let planet := set_vy (vy planet + Fy * dt / m) planet in
      (set_vz (vz planet + Fz * dt / m) planet, Ok tt)
  end.

(** [cdef void single_step(Planet planet, double dt)] with [r3 = r**3] *)
Definition single_step (dt : float) (planet : Planet) : Planet :=
  let r := sqrt (x planet ** 2 + y planet ** 2 + z planet ** 2) in
  let r3 := r ** 3 in
  let Fx := - x planet / r3 in
  let Fy := - y planet / r3 in
  let Fz := - z planet / r3 in
  let planet := set_x (x planet + vx planet * dt) planet in
  let planet := set_y (y planet + vy planet * dt) planet in
  let planet := set_z (z planet + vz planet * dt) planet in
  let m := m planet in
  let planet := set_vx (vx planet + Fx * dt / m) planet in
  let planet := set_vy (vy planet + Fy * dt / m) planet in
  set_vz (vz planet + Fz * dt / m) planet.

(** [cdef void single_step(Planet planet, double dt) nogil] with
    [r3 = r*r*r] *)
Definition single_step_nogil (dt : float) (planet : Planet) : Planet :=
  let r := sqrt (x planet ** 2 + y planet ** 2 + z planet ** 2) in
  let r3 := r * r * r in
  let Fx := - x planet / r3 in
  let Fy := - y planet / r3 in
  let Fz := - z planet / r3 in
  let planet := set_x (x planet + vx planet * dt) planet in
  let planet := set_y (y planet + vy planet * dt) planet in
  let planet := set_z (z planet + vz planet * dt) planet in
  let m := m planet in
  let planet := set_vx (vx planet + Fx * dt / m) planet in
  let planet := set_vy (vy planet + Fy * dt / m) planet in
  set_vz (vz planet + Fz * dt / m) planet.

End Program.

(** [propagate] of these cells, [step] being the [single_step] of the
    cell: the outcome is the body and what the call raised, if it did. *)
Definition propagate (step : float -> Planet -> Planet)
  (time_span : pyval) (num_steps : Z) (planet : Planet)
  : Planet * result unit :=
  match as_double time_span with
  | Raise e => (planet, Raise e)
  | Ok time_span =>
      match as_int num_steps with
      | Raise e => (planet, Raise e)
      | Ok num_steps =>
          let dt := F64.div time_span (F64.of_Z num_steps) in
          (fold_left (fun planet _ => step dt planet) (c_range num_steps)
             planet, Ok tt)
      end
  end.

End Cdef.

(** The object that Python sees: reading a [public double] attribute gives
    a [float]. *)
Definition box (p : Cdef.Planet) : Planet :=
  {| x := PyFloat (Cdef.x p); y := PyFloat (Cdef.y p);
     z := PyFloat (Cdef.z p); vx := PyFloat (Cdef.vx p);
     vy := PyFloat (Cdef.vy p); vz := PyFloat (Cdef.vz p);
     m := PyFloat (Cdef.m p) |}.

(** What the C standard (Annex F) fixes of [pow(a, w)] for an exponent [w]
    that is a positive integer, and the symmetry in the sign of [a] that
    an implementation working on [fabs(a)] has. *)
Record pow_c99 `{Compiled} (w : float) : Prop := {
  pow_nan : Cdef.pow S754_nan w = S754_nan;
  pow_inf : forall s,
    Cdef.pow (S754_infinity s) w = S754_infinity (s && F64.is_odd_integer w);
  pow_zero : forall s,
    Cdef.pow (S754_zero s) w = S754_zero (s && F64.is_odd_integer w);
  pow_one : Cdef.pow F64.one w = F64.one;
  pow_neg : forall m e,
    Cdef.pow (S754_finite true m e) w =
    if F64.is_odd_integer w then F64.opp (Cdef.pow (S754_finite false m e) w)
    else Cdef.pow (S754_finite false m e) w
}.

(** A compiled [pow] that does so at the exponents of the program. *)
Definition libm_c99 `{Compiled} : Prop :=
  pow_c99 (F64.of_Z 2) /\ pow_c99 (F64.of_Z 3).

(** [exact_pow] completed by the values of Annex F at a zero, an infinite
    or a NaN base. *)
Definition c99_pow (a b : float) : float * errno :=
  match a with
  | S754_nan => (S754_nan, ENONE)
  | S754_infinity s => (S754_infinity (s && F64.is_odd_integer b), ENONE)
  | S754_zero s => (S754_zero (s && F64.is_odd_integer b), ENONE)
  | S754_finite _ _ _ => exact_pow a b
  end.

(** The compiled [pow] that rounds once. *)
Definition rounded_pow : Compiled := {| cc_pow a b := fst (c99_pow a b) |}.

(** Two doubles with the same bits. *)
Definition same_double (a b : float) : bool :=
  match a, b with
  | S754_zero s, S754_zero t => Bool.eqb s t
  | S754_infinity s, S754_infinity t => Bool.eqb s t
  | S754_nan, S754_nan => true
  | S754_finite s m e, S754_finite t n k =>
      Bool.eqb s t && Pos.eqb m n && Z.eqb e k
  | _, _ => false
  end.

(** The compiled [a ** n] is the double that Python's [a ** n] returns. *)
Definition same_pow `{Libm} `{Compiled} (a : float) (n : positive) : bool :=
  match py_pow (PyFloat a) n with
  | Ok (PyFloat f) => same_double f (Cdef.pow a (F64.of_Z (Zpos n)))
  | _ => false
  end.

(** So are the four powers of a step on [p]: the squares of the
    coordinates and the cube of the radius. *)
Definition same_pows `{Libm} `{Compiled} (p : Cdef.Planet) : bool :=
  same_pow (Cdef.x p) 2 && same_pow (Cdef.y p) 2 && same_pow (Cdef.z p) 2 &&
  same_pow (Cdef.radius p) 3.

(** So are the powers of each of [n] compiled steps in a row. *)
Fixpoint same_pows_along `{Libm} `{Compiled} (n : nat) (dt : float)
  (p : Cdef.Planet) : bool :=
  match n with
  | O => true
  | S k => same_pows p && same_pows_along k dt (Cdef.single_step dt p)
  end.

(** ** The real value of a double

    The fall from rest is followed in the real numbers: a finite double
    stands for the real [F2R], and its rounding is described there. *)

Definition bpow (e : Z) : R := powerRZ 2 e.

Definition F2R (f : float) : R :=
  match f with
  | S754_finite s m e =>
      if s then (- (IZR (Zpos m) * bpow e))%R else (IZR (Zpos m) * bpow e)%R
  | _ => 0%R
  end.

(** [f] is a double as the hardware holds it: of 53 bits, or of fewer at the
    least exponent. *)
Definition valid (f : float) : bool := valid_binary F64.prec F64.emax f.

(** What [binary_round_aux] makes of the rounded mantissa [mr] at the
    exponent [e1]. *)
Definition result_of (s : bool) (mr e1 : Z) (r : float) : Prop :=
  (mr = 0 /\ r = S754_zero s) \/
  (0 < mr /\
   ((r = S754_infinity s /\ (bpow 1024 <= IZR mr * bpow e1)%R) \/
    (exists m2 e2,
       r = S754_finite s m2 e2 /\ valid r = true /\
       (IZR (Zpos m2) * bpow e2 = IZR mr * bpow e1)%R))).

(** The second half of [binary_round_aux]. *)
Definition finish (s : bool) (mr e1 : Z) : float :=
  let '(mrs2, e2) := shr_fexp F64.prec F64.emax mr e1 loc_Exact in
  match shr_m mrs2 with
  | Z0 => S754_zero s
  | Zpos m => if e2 <=? F64.emax - F64.prec then S754_finite s m e2
              else S754_infinity s
  | Zneg _ => S754_nan
  end.

(** [r] is a zero, an infinity or a finite number of sign [s]. *)
Definition signed (s : bool) (r : float) : bool :=
  match r with
  | S754_nan => false
  | S754_zero s' | S754_infinity s' | S754_finite s' _ _ => Bool.eqb s s'
  end.

(** [f] is a positive finite number. *)
Definition is_pos (f : float) : bool :=
  match f with
  | S754_finite false _ _ => true
  | _ => false
  end.

(** ** The fall from rest *)

(** At a positive finite base and the exponents 2 and 3, [pow] returns
    neither a NaN nor a negative number. *)
Definition pow_keeps_sign `{Libm} : Prop :=
  forall (a : float) (n : Z),
    is_pos a = true -> n = 2 \/ n = 3 ->
    signed false (fst (c_pow a (F64.of_Z n))) = true.

(** The body has not reached the origin: [x > 0]. *)
Definition ahead (p : Planet) : bool :=
  match x p with
  | PyFloat f => F64.ltb F64.zero f
  | PyInt _ => false
  end.

(** The body is on the x axis, where its distance to the origin is [|x|]. *)
Definition on_axis (p : Planet) : bool := is_zero (y p) && is_zero (z p).

(** [q] is at a smaller [x] than [p]. *)
Definition nearer (q p : Planet) : bool :=
  match x q, x p with
  | PyFloat b, PyFloat a => F64.ltb b a
  | _, _ => false
  end.

(** From the second state of [l] on, each state is on the x axis, at a
    smaller [x] than the state before it. *)
Fixpoint falling (l : list Planet) : bool :=
  match l with
  | p :: (q :: _) as l' => nearer q p && on_axis q && falling l'
  | _ => true
  end.

(** The double [1 - 2 ** -52], the second below 1.0. *)
Definition below_one : float := S754_finite false 9007199254740990 (-53).

(** The body is at [x <= 1 - 2 ** -52]: it has moved from [x = 1.0] by
    [2 ** -52] or more. *)
Definition moved (p : Planet) : bool :=
  match x p with
  | PyFloat f => SFleb f below_one
  | PyInt _ => false
  end.

Section Run.

Context `{Libm}.

(** The states after each of up to [n] calls [single_step(planet, dt)]; a
    call that raises ends the run. *)
Fixpoint run (n : nat) (dt : pyval) (p : Planet) : list Planet :=
  match n with
  | O => []
  | S k =>
      match single_step dt p with
      | (p', Ok _) => p' :: run k dt p'
      | (_, Raise _) => []
      end
  end.

End Run.

(** The invariant of the fall. *)

(** The velocity [v] is directed towards the origin and moves the body by
    at least [2 ** -53] in a step of [dt]. *)
Definition fast (dt v : float) : Prop :=
  v = S754_infinity true \/
  exists m e,
    v = S754_finite true m e /\ valid v = true /\
    (bpow (-53) <= IZR (Zpos m) * bpow e * F2R dt)%R.

(** [v] is a float zero, of either sign. *)
Definition float_zero (v : pyval) : Prop :=
  exists s, v = PyFloat (S754_zero s).

(** The body is on the x axis at a distance of at most 1 from the origin
    and moves along the axis towards the origin, fast enough for the step
    [dt]. *)
Definition in_fall (dt mass : float) (p : Planet) : Prop :=
  (exists mx ex,
     x p = PyFloat (S754_finite false mx ex) /\
     valid (S754_finite false mx ex) = true /\
     (IZR (Zpos mx) * bpow ex <= 1)%R) /\
  float_zero (y p) /\ float_zero (z p) /\
  (exists v, vx p = PyFloat v /\ fast dt v) /\
  float_zero (vy p) /\ float_zero (vz p) /\
  m p = PyFloat mass.

(** * Proofs *)

Arguments py_add : simpl never.
Arguments py_mul : simpl never.
Arguments py_neg : simpl never.
Arguments py_truediv : simpl never.
Arguments py_pow : simpl never.
Arguments math_sqrt : simpl never.

(** ** Runs *)

(** [planet = Planet(); single_step(planet, 0.001)] *)
Example first_step_of_the_notebook :
  single_step (PyFloat (F64.ratio 1 1000)) planet0 =
  ({| x := PyFloat F64.one;
      y := PyFloat F64.zero;
      z := PyFloat (F64.ratio 1 1000);
      vx := PyFloat (F64.opp (F64.ratio 1 1000));
      vy := PyFloat F64.zero;
      vz := PyFloat F64.one;
      m := PyFloat F64.one |}, Ok tt).
Proof. vm_compute. reflexivity. Qed.

(** [propagate(planet, 1, 100)], a call that the notebook times, is a
    hundred steps of [dt = 0.01] and returns normally. *)
Example propagate_of_the_notebook :
  propagate (PyInt 1) (PyInt 100) planet0 =
  single_step_times 100 (PyFloat (F64.ratio 1 100)) planet0 /\
  snd (propagate (PyInt 1) (PyInt 100) planet0) = Ok tt.
Proof. split; vm_compute; reflexivity. Qed.

(** A step that raises after the position was assigned: with mass 0 the
    division by [m] fails, and the velocity is left as it was. *)
Example step_with_zero_mass :
  single_step (PyFloat (F64.ratio 1 1000)) (set_m (PyInt 0) planet0) =
  ({| x := PyFloat F64.one;
      y := PyFloat F64.zero;
      z := PyFloat (F64.ratio 1 1000);
      vx := PyInt 0;
      vy := PyInt 0;
      vz := PyFloat F64.one;
      m := PyInt 0 |}, Raise ZeroDivisionError).
Proof. vm_compute. reflexivity. Qed.

(** ** The mass is only read *)

Lemma keeps_m_ret {A : Type} (a : A) : keeps_m (ret a).
Proof. intros p. reflexivity. Qed.

Lemma keeps_m_lift {A : Type} (r : result A) : keeps_m (lift r).
Proof. intros p. reflexivity. Qed.

Lemma keeps_m_expr e : keeps_m (expr e).
Proof. intros p. reflexivity. Qed.

Lemma keeps_m_store set e :
  (forall v p, m (set v p) = m p) -> keeps_m (store set e).
Proof.
  intros Hset p. unfold store. destruct (e p); simpl; auto.
Qed.

Lemma keeps_m_bind {A B : Type} (c : M A) (k : A -> M B) :
  keeps_m c -> (forall a, keeps_m (k a)) -> keeps_m (bind c k).
Proof.
  intros Hc Hk p. unfold bind. specialize (Hc p).
  destruct (c p) as [p' [a | e]]; simpl in *.
  - rewrite Hk. exact Hc.
  - exact Hc.
Qed.

Lemma keeps_m_for {A : Type} (l : list A) (body : A -> M unit) :
  (forall a, keeps_m (body a)) -> keeps_m (for_ l body).
Proof.
  intros Hb. induction l as [| a l IH]; simpl.
  - apply keeps_m_ret.
  - apply keeps_m_bind; auto.
Qed.

Create HintDb frame.
#[export] Hint Resolve keeps_m_ret keeps_m_lift keeps_m_expr keeps_m_for : frame.

Ltac frame_m :=
  repeat first
    [ apply keeps_m_bind; [| intro]
    | apply keeps_m_store; reflexivity
    | solve [auto with frame] ].

Lemma single_step_keeps_m `{Libm} dt : keeps_m (single_step dt).
Proof. unfold single_step. frame_m. Qed.

Lemma propagate_keeps_m `{Libm} time_span num_steps :
  keeps_m (propagate time_span num_steps).
Proof.
  unfold propagate. frame_m.
  apply keeps_m_for. intros _. apply single_step_keeps_m.
Qed.

(** C10. Neither [single_step] nor [propagate] assigns the attribute [m]:
    for every body, [dt], [time_span] and [num_steps], and whether the call
    returns or raises, the mass after the call is the mass before it. *)
Theorem mass_is_never_modified `{Libm} (p : Planet) (dt time_span num_steps : pyval) :
  m (fst (single_step dt p)) = m p /\
  m (fst (propagate time_span num_steps p)) = m p.
Proof.
  split.
  - apply single_step_keeps_m.
  - apply propagate_keeps_m.
Qed.

(** ** Small integers are doubles *)

Lemma digits2_pos_size (q : positive) : digits2_pos q = Pos.size q.
Proof. induction q; simpl; congruence. Qed.

Lemma digits2_pos_shift (q k : positive) :
  digits2_pos (Pos.iter xO q k) = (digits2_pos q + k)%positive.
Proof.
  revert q. induction k using Pos.peano_ind; intros q.
  - simpl. lia.
  - rewrite Pos.iter_succ. simpl. rewrite IHk. lia.
Qed.

Lemma digits2_pos_bound (q : positive) :
  Zpos q < 2 ^ 53 -> Zpos (digits2_pos q) <= 53.
Proof.
  intros Hq. rewrite digits2_pos_size.
  pose proof (Pos.size_le q) as Hle.
  apply Pos2Z.pos_le_pos in Hle. rewrite Pos2Z.inj_pow in Hle.
  destruct (Z_le_gt_dec (Zpos (Pos.size q)) 53) as [Hs | Hs]; [exact Hs |].
  exfalso.
  assert (H54 : 2 ^ 54 <= 2 ^ Zpos (Pos.size q))
    by (apply Z.pow_le_mono_r; lia).
  change (Zpos q~0) with (2 * Zpos q) in Hle.
  change (2 ^ 54) with (2 * 2 ^ 53) in H54. lia.
Qed.

Lemma round_fixpoint (s : bool) (mz : positive) (ez : Z) :
  Zpos (digits2_pos mz) = 53 -> -1074 <= ez <= 971 ->
  binary_round_aux F64.prec F64.emax s (Zpos mz) ez loc_Exact =
  S754_finite s mz ez.
Proof.
  intros Hd He. unfold binary_round_aux.
  assert (Hs : shr_fexp F64.prec F64.emax (Zpos mz) ez loc_Exact =
               ({| shr_m := Zpos mz; shr_r := false; shr_s := false |}, ez)).
  { unfold shr_fexp, fexp, emin, F64.prec, F64.emax. cbn [Zdigits2].
    rewrite Hd.
    replace (Z.max (53 + ez - 53) (3 - 1024 - 53)) with ez by lia.
    rewrite Z.sub_diag. reflexivity. }
  rewrite Hs. cbn [shr_m loc_of_shr_record round_nearest_even].
  rewrite Hs. cbn [shr_m].
  replace (ez <=? F64.emax - F64.prec) with true; [reflexivity |].
  symmetry. apply Z.leb_le. unfold F64.emax, F64.prec. lia.
Qed.

Lemma binary_round_small (s : bool) (q : positive) :
  Zpos q < 2 ^ 53 ->
  exists mz ez, binary_round F64.prec F64.emax s q 0 = S754_finite s mz ez.
Proof.
  intros Hq. pose proof (digits2_pos_bound q Hq) as Hd.
  unfold binary_round, shl_align, fexp, emin, F64.prec, F64.emax.
  replace (Z.max (Zpos (digits2_pos q) + 0 - 53) (3 - 1024 - 53))
    with (Zpos (digits2_pos q) - 53) by lia.
  rewrite Z.sub_0_r.
  destruct (Zpos (digits2_pos q) - 53) as [| k | k] eqn:Ek.
  - exists q, 0. apply round_fixpoint; lia.
  - lia.
  - exists (Pos.iter xO q k), (Zneg k). apply round_fixpoint.
    + rewrite digits2_pos_shift. lia.
    + lia.
Qed.

Lemma of_Z_small (n : Z) :
  n <> 0 -> Z.abs n < 2 ^ 53 ->
  exists s mz ez, F64.of_Z n = S754_finite s mz ez.
Proof.
  intros Hn Hb. unfold F64.of_Z, binary_normalize.
  destruct n as [| q | q]; [contradiction Hn; reflexivity | |].
  - destruct (binary_round_small false q Hb) as (mz & ez & E).
    exists false, mz, ez. exact E.
  - destruct (binary_round_small true q Hb) as (mz & ez & E).
    exists true, mz, ez. exact E.
Qed.

Lemma as_double_small (n : Z) :
  n <> 0 -> Z.abs n < 2 ^ 53 ->
  exists f, as_double (PyInt n) = Ok f /\ F64.is_zero f = false.
Proof.
  intros Hn Hb. destruct (of_Z_small n Hn Hb) as (s & mz & ez & E).
  exists (S754_finite s mz ez). unfold as_double. rewrite E. split; reflexivity.
Qed.

(** ** The driver loop *)

Lemma for_single_step `{Libm} {A : Type} (l : list A) dt p :
  for_ l (fun _ => single_step dt) p = single_step_times (length l) dt p.
Proof.
  revert p. induction l as [| a l IH]; intros p; simpl.
  - reflexivity.
  - unfold bind. destruct (single_step dt p) as [p' [u | e]]; auto.
Qed.

Lemma py_range_int (n : Z) :
  exists l, py_range (PyInt n) = Ok l /\ length l = Z.to_nat n.
Proof.
  eexists. split; [reflexivity |].
  rewrite length_map, length_seq. reflexivity.
Qed.

Lemma propagate_unfold `{Libm} time_span (n : Z) p :
  propagate time_span (PyInt n) p =
  bind (expr (fun _ => (time_span / PyInt n)%py))
       (fun dt => single_step_times (Z.to_nat n) dt) p.
Proof.
  unfold propagate, bind, expr.
  destruct ((time_span / PyInt n)%py) as [dt | e]; [| reflexivity].
  destruct (py_range_int n) as (l & -> & <-).
  unfold lift. apply for_single_step.
Qed.

Lemma propagate_no_step `{Libm} time_span (n : Z) p :
  n <= 0 ->
  propagate time_span (PyInt n) p =
  (p, rbind (py_truediv time_span (PyInt n)) (fun _ => Ok tt)).
Proof.
  intros Hn. rewrite propagate_unfold.
  replace (Z.to_nat n) with O by lia.
  unfold bind, expr. cbn [lift2 rbind num].
  destruct (py_truediv time_span (PyInt n)); reflexivity.
Qed.

Lemma truediv_by_int_zero (a : pyval) :
  py_truediv a (PyInt 0) = Raise ZeroDivisionError.
Proof. destruct a; reflexivity. Qed.

Lemma propagate_float_negative `{Libm} (p : Planet) (f : float) (n : Z) :
  - 2 ^ 53 < n < 0 -> propagate (PyFloat f) (PyInt n) p = (p, Ok tt).
Proof.
  intros Hn. rewrite propagate_no_step by lia.
  destruct (as_double_small n) as (g & Eg & Hg); [lia | lia |].
  change (py_truediv (PyFloat f) (PyInt n)) with
    (rbind (as_double (PyInt n)) (fun fb =>
       if F64.is_zero fb then Raise ZeroDivisionError
       else Ok (PyFloat (F64.div f fb)))).
  rewrite Eg. cbn [rbind]. rewrite Hg. reflexivity.
Qed.

(** C2. For every body, every [time_span] and every positive [int]
    [num_steps], [propagate] evaluates [dt = time_span / num_steps] once and
    is then [single_step(planet, dt)] called [num_steps] times in a row:
    same final state of the body and same outcome, an exception included. *)
Theorem propagate_is_repeated_single_step `{Libm}
  (p : Planet) (time_span : pyval) (num_steps : Z) :
  0 < num_steps ->
  exists n : nat,
    Z.of_nat n = num_steps /\
    propagate time_span (PyInt num_steps) p =
    bind (expr (fun _ => (time_span / PyInt num_steps)%py))
         (fun dt => single_step_times n dt) p.
Proof.
  intros Hpos. exists (Z.to_nat num_steps). split.
  - lia.
  - apply propagate_unfold.
Qed.

Lemma propagate_is_repeated_single_step_witness :
  exists n : nat,
    Z.of_nat n = 3 /\
    propagate (PyInt 1) (PyInt 3) planet0 =
    bind (expr (fun _ => (PyInt 1 / PyInt 3)%py))
         (fun dt => single_step_times n dt) planet0.
Proof.
  apply (propagate_is_repeated_single_step planet0 (PyInt 1) 3).
  reflexivity.
Defined.

(** C3, as the code has it. [num_steps = 0] makes the division that
    computes [dt] raise [ZeroDivisionError], for every [time_span] and with
    the body untouched; a negative [num_steps] is not rejected: for every
    float [time_span] and every [num_steps] with [-2**53 < num_steps < 0],
    [-5] among them, [propagate] returns normally, no step taken. *)
Theorem zero_num_steps_raises_negative_is_accepted `{Libm}
  (p : Planet) (time_span : pyval) (f : float) (num_steps : Z) :
  - 2 ^ 53 < num_steps < 0 ->
  propagate time_span (PyInt 0) p = (p, Raise ZeroDivisionError) /\
  propagate (PyFloat f) (PyInt num_steps) p = (p, Ok tt).
Proof.
  intros Hn. split.
  - rewrite propagate_no_step by lia.
    rewrite truediv_by_int_zero. reflexivity.
  - apply propagate_float_negative. exact Hn.
Qed.

Lemma zero_num_steps_raises_negative_is_accepted_witness :
  propagate (PyInt 1) (PyInt 0) planet0 = (planet0, Raise ZeroDivisionError) /\
  propagate (PyFloat F64.one) (PyInt (-5)) planet0 = (planet0, Ok tt).
Proof.
  apply (zero_num_steps_raises_negative_is_accepted
           planet0 (PyInt 1) F64.one (-5)).
  lia.
Defined.

(** C3 fails on the code: [propagate(planet, 1, -5)] returns normally. *)
Lemma negative_num_steps_is_not_rejected :
  propagate (PyInt 1) (PyInt (-5)) planet0 = (planet0, Ok tt).
Proof. reflexivity. Qed.

(** C9, as the code has it. For every body, every [time_span] and every
    negative [num_steps], [propagate] takes no step and leaves the body as
    it was; its outcome is that of the division [time_span / num_steps]: it
    returns normally whenever [dt] can be computed, which is the case for
    every float [time_span] when [-2**53 < num_steps]. *)
Theorem negative_num_steps_takes_no_step `{Libm}
  (p : Planet) (time_span : pyval) (num_steps : Z) :
  num_steps < 0 ->
  propagate time_span (PyInt num_steps) p =
    (p, rbind (py_truediv time_span (PyInt num_steps)) (fun _ => Ok tt)) /\
  (forall dt, py_truediv time_span (PyInt num_steps) = Ok dt ->
     propagate time_span (PyInt num_steps) p = single_step_times 0 dt p) /\
  (forall f, time_span = PyFloat f -> - 2 ^ 53 < num_steps ->
     propagate time_span (PyInt num_steps) p = (p, Ok tt)).
Proof.
  intros Hneg. split; [| split].
  - apply propagate_no_step. lia.
  - intros dt Hdt. rewrite propagate_no_step by lia.
    rewrite Hdt. reflexivity.
  - intros f -> Hn. apply propagate_float_negative. lia.
Qed.

Lemma negative_num_steps_takes_no_step_witness :
  propagate (PyFloat F64.one) (PyInt (-1000)) planet0 = (planet0, Ok tt).
Proof.
  destruct (negative_num_steps_takes_no_step planet0 (PyFloat F64.one) (-1000))
    as (_ & _ & Hf).
  - lia.
  - apply (Hf F64.one); [reflexivity | lia].
Defined.

(** C9 fails on the code: with [num_steps = -2**1024] the conversion of
    [num_steps] to a float raises [OverflowError]. *)
Lemma huge_negative_num_steps_raises :
  propagate (PyFloat F64.one) (PyInt (- 2 ^ 1024)) planet0 =
  (planet0, Raise OverflowError).
Proof. vm_compute. reflexivity. Qed.

(** ** The identity step *)

(** C6. On the body at (1, 0, 0) with velocity (0, 0, 1) and mass 1.0,
    [single_step] with [dt = 0] returns normally and leaves position and
    velocity unchanged: the all-float body is left bit for bit as it was,
    both for [dt = 0.0] and for [dt = 0], and on the body that [Planet()]
    creates every component still compares equal to its old value (an [int]
    zero may have become the float 0.0). *)
Theorem single_step_dt_zero_is_identity `{Libm} :
  single_step (PyFloat F64.zero) planet0f = (planet0f, Ok tt) /\
  single_step (PyInt 0) planet0f = (planet0f, Ok tt) /\
  (exists p', single_step (PyFloat F64.zero) planet0 = (p', Ok tt) /\
              same_motion p' planet0 = true) /\
  (exists p', single_step (PyInt 0) planet0 = (p', Ok tt) /\
              same_motion p' planet0 = true).
Proof.
  split; [| split; [| split]].
  - vm_compute. reflexivity.
  - vm_compute. reflexivity.
  - eexists. split; [vm_compute; reflexivity | reflexivity].
  - eexists. split; [vm_compute; reflexivity | reflexivity].
Qed.

(** ** A step is an explicit Euler update *)

Ltac run_step :=
  unfold bind, expr, store, lift, ret;
  cbn [rbind lift2 num fst snd
       x y z vx vy vz m set_x set_y set_z set_vx set_vy set_vz set_m].

Ltac scrutinee t :=
  lazymatch t with
  | rbind ?r _ => scrutinee r
  | match ?r with Ok _ => _ | Raise _ => _ end => scrutinee r
  | match ?r with (_, _) => _ end => scrutinee r
  | _ => t
  end.

Ltac split_result :=
  lazymatch goal with
  | |- ?l = _ <-> _ =>
      let r := scrutinee l in
      lazymatch r with
      | (_, _) => fail
      | _ => destruct r eqn:?; run_step
      end
  end.

Lemma single_step_explicit_euler `{Libm} (p p' : Planet) (dt : pyval) :
  single_step dt p = (p', Ok tt) <-> explicit_euler dv_code p dt = Ok p'.
Proof.
  unfold single_step, explicit_euler, gravity, radius, dv_code.
  run_step.
  repeat (split_result; [| split; intro; discriminate]).
  destruct p; run_step.
  split; intros E; inversion E; reflexivity.
Qed.

Ltac split_outcome :=
  lazymatch goal with
  | |- snd ?l = _ =>
      let r := scrutinee l in
      lazymatch r with
      | (_, _) => fail
      | _ => destruct r eqn:?; run_step
      end
  end.

Lemma single_step_outcome `{Libm} (p : Planet) (dt : pyval) :
  snd (single_step dt p) =
  rbind (explicit_euler dv_code p dt) (fun _ => Ok tt).
Proof.
  unfold single_step, explicit_euler, gravity, radius, dv_code.
  run_step.
  repeat (split_outcome; [| reflexivity]).
  reflexivity.
Qed.

(** C1, as the code has it. For every body and every [dt], [single_step]
    returns normally exactly when the explicit Euler update can be
    evaluated, and it then leaves the body in the state of that update:
    [r = sqrt(x**2 + y**2 + z**2)] and [F = -position / r**3] are taken at
    the position held at entry, the position becomes
    [position + velocity * dt] with the velocity held at entry, and the
    velocity becomes [velocity + F * dt / m] with that same [F]; the
    increment is the product [F * dt] divided by the mass.  When the update
    cannot be evaluated, [single_step] raises what the update raises. *)
Theorem single_step_is_explicit_euler `{Libm} (p p' : Planet) (dt : pyval) :
  (single_step dt p = (p', Ok tt) <-> explicit_euler dv_code p dt = Ok p') /\
  snd (single_step dt p) =
    rbind (explicit_euler dv_code p dt) (fun _ => Ok tt).
Proof.
  split.
  - exact (single_step_explicit_euler p p' dt).
  - exact (single_step_outcome p dt).
Qed.

Lemma single_step_is_explicit_euler_witness :
  single_step (PyFloat (F64.ratio 1 1000)) planet0 =
  ({| x := PyFloat F64.one;
      y := PyFloat F64.zero;
      z := PyFloat (F64.ratio 1 1000);
      vx := PyFloat (F64.opp (F64.ratio 1 1000));
      vy := PyFloat F64.zero;
      vz := PyFloat F64.one;
      m := PyFloat F64.one |}, Ok tt).
Proof.
  refine (proj2 (proj1 (single_step_is_explicit_euler planet0 _ _)) _).
  vm_compute. reflexivity.
Defined.

(** C1 fails on the code as it is worded: with mass 10.0 and [dt = 0.1]
    the body created by [Planet()] gets [vx = -0.01], whereas
    [vx + (Fx / m) * dt] is [-0.010000000000000002]. *)
Lemma increment_is_not_force_over_mass_times_dt :
  exists p' q,
    single_step (PyFloat (F64.ratio 1 10)) (set_m (PyFloat (F64.of_Z 10)) planet0)
      = (p', Ok tt) /\
    explicit_euler dv_spec (set_m (PyFloat (F64.of_Z 10)) planet0)
      (PyFloat (F64.ratio 1 10)) = Ok q /\
    vx p' = PyFloat (F64.opp (F64.ratio 1 100)) /\
    vx q = PyFloat (S754_finite true 5764607523034236 (-59)) /\
    p' <> q.
Proof.
  eexists. eexists.
  split; [vm_compute; reflexivity |].
  split; [vm_compute; reflexivity |].
  split; [reflexivity |].
  split; [reflexivity |].
  discriminate.
Qed.

(** ** The constructor *)

Lemma Planet_new_inv (args : list pyval) (p : Planet) :
  Planet_new args = Ok p -> args = [] /\ p = planet0.
Proof.
  destruct args; simpl; intros E.
  - inversion E. split; reflexivity.
  - discriminate.
Qed.

(** C4, as the code has it. The constructor does not validate the mass: it
    has no parameter, so that a call with arguments raises [TypeError]
    whatever they are and a successful construction always has mass 1.0;
    any other mass comes from an assignment [planet.m = v], which succeeds
    for every [v], zero and negative ones included. *)
Theorem mass_is_not_validated (args : list pyval) (p : Planet) (v : pyval) :
  (forall q, Planet_new args = Ok q -> m q = PyFloat F64.one) /\
  (args <> [] -> Planet_new args = Raise TypeError) /\
  store set_m (fun _ => v) p = (set_m v p, Ok tt).
Proof.
  repeat split.
  - intros q E. apply Planet_new_inv in E. destruct E as [_ ->]. reflexivity.
  - destruct args; [intros N; contradiction N; reflexivity | reflexivity].
Qed.

Lemma mass_is_not_validated_witness :
  Planet_new [PyFloat F64.one; PyInt 0; PyInt 0; PyInt 0; PyInt 0; PyFloat F64.one;
              PyInt (-1)] = Raise TypeError.
Proof.
  apply (mass_is_not_validated
           [PyFloat F64.one; PyInt 0; PyInt 0; PyInt 0; PyInt 0; PyFloat F64.one;
            PyInt (-1)] planet0 (PyInt 0)).
  discriminate.
Defined.

(** C4 fails on the code: a body of mass 0 is made without any error, and
    the constructor call that fails with mass 0 as its seventh argument
    fails in the same way with mass 1.0. *)
Lemma zero_mass_is_accepted :
  Planet_with (set_m (PyInt 0) planet0) = Ok (set_m (PyInt 0) planet0) /\
  m (set_m (PyInt 0) planet0) = PyInt 0 /\
  Planet_new [PyFloat F64.one; PyInt 0; PyInt 0; PyInt 0; PyInt 0; PyFloat F64.one;
              PyInt 0] = Raise TypeError /\
  Planet_new [PyFloat F64.one; PyInt 0; PyInt 0; PyInt 0; PyInt 0; PyFloat F64.one;
              PyFloat F64.one] = Raise TypeError.
Proof. repeat split. Qed.

(** C5, as the code has it. The constructor takes no argument: [Planet()]
    always creates the body at (1.0, 0, 0) with velocity (0, 0, 1.0) and
    mass 1.0, and a call with arguments raises [TypeError]; every other
    initial state is reached by assigning the seven attributes after the
    construction. *)
Theorem constructor_takes_no_argument (args : list pyval) (q : Planet) :
  Planet_new [] = Ok planet0 /\
  (args <> [] -> Planet_new args = Raise TypeError) /\
  Planet_with q = Ok q.
Proof.
  repeat split.
  - destruct args; [intros N; contradiction N; reflexivity | reflexivity].
  - destruct q. reflexivity.
Qed.

Lemma constructor_takes_no_argument_witness :
  Planet_new [PyInt 2] = Raise TypeError.
Proof.
  apply (constructor_takes_no_argument [PyInt 2] planet0).
  discriminate.
Defined.

(** C5 fails on the code: the constructor called with seven values
    raises [TypeError]. *)
Lemma seven_arguments_are_refused :
  Planet_new [PyFloat (F64.of_Z 2); PyFloat F64.zero; PyFloat F64.zero;
              PyFloat F64.zero; PyFloat F64.one; PyFloat F64.zero;
              PyFloat (F64.of_Z 5)] = Raise TypeError.
Proof. reflexivity. Qed.

(** ** When a step raises *)

Lemma truediv_ok_nonzero (a b v : pyval) :
  py_truediv a b = Ok v -> is_zero b = false.
Proof.
  unfold py_truediv. destruct a as [i | fa], b as [j | fb]; simpl.
  - destruct (j =? 0); [discriminate | reflexivity].
  - destruct (F64.is_inf (F64.of_Z i)); simpl; [discriminate |].
    destruct (F64.is_zero fb); [discriminate | reflexivity].
  - destruct j as [| j | j]; [discriminate | reflexivity | reflexivity].
  - destruct (F64.is_zero fb); [discriminate | reflexivity].
Qed.

Lemma lift2_truediv_ok_nonzero (a : rnum) (b v : pyval) :
  lift2 py_truediv a b = Ok v -> is_zero b = false.
Proof.
  destruct a as [va | e]; cbn [lift2 rbind num]; [| discriminate].
  apply truediv_ok_nonzero.
Qed.

Lemma truediv_floats (a b : float) :
  F64.is_zero b = false ->
  py_truediv (PyFloat a) (PyFloat b) = Ok (PyFloat (F64.div a b)).
Proof. intros Hb. unfold py_truediv. simpl. rewrite Hb. reflexivity. Qed.

Lemma math_sqrt_float (a r : pyval) :
  math_sqrt a = Ok r -> exists f, r = PyFloat f.
Proof.
  unfold math_sqrt. destruct (as_double a) as [fa | e]; simpl; [| discriminate].
  destruct (F64.is_nan (F64.sqrt fa) && negb (F64.is_nan fa)); [discriminate |].
  destruct (F64.is_inf (F64.sqrt fa) && F64.is_finite fa); [discriminate |].
  intros E. inversion E. eexists. reflexivity.
Qed.

Lemma float_pow_float `{Libm} (f : float) (n : positive) (v : pyval) :
  float_pow f n = Ok v -> exists g, v = PyFloat g.
Proof.
  unfold float_pow.
  destruct (as_double (PyInt (Zpos n))) as [iw | e]; simpl; [| discriminate].
  destruct (F64.is_nan f); [intros E; inversion E; eexists; reflexivity |].
  destruct (F64.is_inf f); [intros E; inversion E; eexists; reflexivity |].
  destruct (F64.is_zero f); [intros E; inversion E; eexists; reflexivity |].
  destruct (F64.eqb (F64.abs f) F64.one);
    [intros E; inversion E; eexists; reflexivity |].
  destruct (c_pow (F64.abs f) iw) as [ix e].
  destruct (adjust_erange1 ix e); try discriminate.
  intros E; inversion E; eexists; reflexivity.
Qed.

Lemma zero_cases (v : pyval) :
  is_zero v = true -> v = PyInt 0 \/ exists s, v = PyFloat (S754_zero s).
Proof.
  destruct v as [i | f]; simpl.
  - intros E. apply Z.eqb_eq in E. subst. left. reflexivity.
  - destruct f; try discriminate. intros _. right. eexists. reflexivity.
Qed.

Lemma single_step_at_origin `{Libm} (p : Planet) (dt : pyval) :
  at_origin p = true -> single_step dt p = (p, Raise ZeroDivisionError).
Proof.
  unfold at_origin. intros E.
  apply andb_prop in E. destruct E as [E Ez].
  apply andb_prop in E. destruct E as [Ex Ey].
  destruct p as [x0 y0 z0 vx0 vy0 vz0 m0]. simpl in Ex, Ey, Ez.
  destruct (zero_cases _ Ex) as [-> | [sx ->]];
  destruct (zero_cases _ Ey) as [-> | [sy ->]];
  destruct (zero_cases _ Ez) as [-> | [sz ->]];
  try destruct sx; try destruct sy; try destruct sz; reflexivity.
Qed.

Ltac split_result_in E :=
  lazymatch type of E with
  | ?l = _ =>
      let r := scrutinee l in
      lazymatch r with
      | Ok _ => fail
      | Raise _ => fail
      | _ => destruct r eqn:?; cbn [rbind lift2 num] in E
      end
  end.

Lemma single_step_returns `{Libm} (p : Planet) (dt : pyval) :
  all_float p = true -> is_float dt = true ->
  ((exists p', single_step dt p = (p', Ok tt)) <->
   (exists r r3, radius p = Ok r /\ py_pow r 3 = Ok r3 /\
                 is_zero r3 = false /\ is_zero (m p) = false)).
Proof.
  intros Hp Hdt.
  destruct p as [[|x0] [|y0] [|z0] [|vx0] [|vy0] [|vz0] [|m0]]; try discriminate.
  destruct dt as [| d]; try discriminate. clear Hp Hdt.
  split.
  - intros [p' E]. apply single_step_explicit_euler in E.
    unfold explicit_euler, gravity, dv_code in E.
    destruct (radius _) as [r | e] eqn:Er; [| discriminate].
    cbn [rbind lift2 num x y z vx vy vz m] in E.
    repeat (split_result_in E; [| discriminate]).
    exists r. eexists. cbn [m].
    repeat split; [eassumption | |];
      eapply lift2_truediv_ok_nonzero; eassumption.
  - intros (r & r3 & Er & Er3 & Hr3 & Hm).
    cbn [m] in Hm. simpl in Hm.
    assert (Hr : exists f, r = PyFloat f).
    { unfold radius in Er.
      destruct ((x _ ** 2 + y _ ** 2 + z _ ** 2)%py); [| discriminate].
      eapply math_sqrt_float. exact Er. }
    destruct Hr as [rf ->].
    destruct (float_pow_float _ _ _ Er3) as [r3f ->]. simpl in Hr3.
    assert (E : exists p', explicit_euler dv_code
                  (mkPlanet (PyFloat x0) (PyFloat y0) (PyFloat z0)
                     (PyFloat vx0) (PyFloat vy0) (PyFloat vz0) (PyFloat m0))
                  (PyFloat d) = Ok p').
    { unfold explicit_euler, gravity, dv_code. rewrite Er.
      cbn [rbind num]. rewrite Er3. cbn [rbind x y z vx vy vz m].
      unfold lift2, py_neg, num. cbn [rbind].
      rewrite !truediv_floats by assumption.
      cbn [rbind]. unfold py_mul, py_add. cbn [rbind as_double].
      rewrite !truediv_floats by assumption.
      cbn [rbind as_double]. eexists. reflexivity. }
    destruct E as [p' E]. exists p'. apply single_step_explicit_euler. exact E.
Qed.

(** C7, as the code has it. [single_step] has no check of its own, none on
    the sign of [dt] either, and raises what its arithmetic raises: on a
    body at the origin, [r**3] is zero and the guarded division [-x / r3]
    raises [ZeroDivisionError] before any attribute is assigned; on a body
    and a [dt] that are floats it returns normally exactly when [r] and
    [r**3] can be evaluated, [r**3] is not zero and the mass is not zero. *)
Theorem single_step_raises_at_the_origin `{Libm} (p : Planet) (dt : pyval) :
  (at_origin p = true -> single_step dt p = (p, Raise ZeroDivisionError)) /\
  (all_float p = true -> is_float dt = true ->
   ((exists p', single_step dt p = (p', Ok tt)) <->
    (exists r r3, radius p = Ok r /\ py_pow r 3 = Ok r3 /\
                  is_zero r3 = false /\ is_zero (m p) = false))).
Proof.
  split.
  - apply single_step_at_origin.
  - apply single_step_returns.
Qed.

Lemma single_step_raises_at_the_origin_witness :
  single_step (PyFloat (F64.ratio (-1) 1000)) origin =
    (origin, Raise ZeroDivisionError) /\
  exists p', single_step (PyFloat (F64.ratio (-1) 1000)) planet0f = (p', Ok tt).
Proof.
  split.
  - apply (proj1 (single_step_raises_at_the_origin origin
                    (PyFloat (F64.ratio (-1) 1000)))).
    reflexivity.
  - apply (proj2 (single_step_raises_at_the_origin planet0f
                    (PyFloat (F64.ratio (-1) 1000))) eq_refl eq_refl).
    exists (PyFloat F64.one), (PyFloat F64.one).
    repeat split.
Defined.

(** C7 fails on the code: at the origin [single_step] raises
    [ZeroDivisionError]. *)
Lemma single_step_at_the_origin_raises :
  single_step (PyFloat (F64.ratio 1 1000)) origin =
  (origin, Raise ZeroDivisionError).
Proof. vm_compute. reflexivity. Qed.

(** ** The first step from rest *)

Lemma radius_position `{Libm} (p q : Planet) :
  x p = x q -> y p = y q -> z p = z q -> radius p = radius q.
Proof. intros Ex Ey Ez. unfold radius. rewrite Ex, Ey, Ez. reflexivity. Qed.

Lemma first_step_from_rest `{Libm} (dt mass : float) :
  F64.is_finite dt = true -> F64.is_zero mass = false ->
  exists p',
    single_step (PyFloat dt) (at_rest (PyFloat mass)) = (p', Ok tt) /\
    x p' = PyFloat F64.one /\ y p' = PyFloat F64.zero /\ z p' = PyFloat F64.zero.
Proof.
  intros Hdt Hm.
  destruct dt as [sd | sd | | sd md ed]; try discriminate;
    destruct mass as [sm | sm | | sm mm em]; try discriminate;
    destruct sd;
    (eexists; split; [reflexivity | repeat split; reflexivity]).
Qed.


(** * Further properties of the pure-Python cell *)

(** ** The trace of a step *)

Lemma single_step_trace `{Libm} (p p' : Planet) (dt : pyval) :
  single_step dt p = (p', Ok tt) -> step_ok p dt p'.
Proof.
  intros E.
  apply single_step_explicit_euler in E.
  unfold explicit_euler, gravity, radius, dv_code, lift2, num in E.
  cbn [rbind] in E.
  repeat (split_result_in E; [| discriminate]).
  inversion E; subst; clear E.
  econstructor; eassumption.
Qed.

Lemma gravity_of_trace `{Libm} (p : Planet) (xx yy zz s1 s2 r r3 nx ny nz Fx Fy Fz : pyval) :
  py_pow (x p) 2 = Ok xx -> py_pow (y p) 2 = Ok yy -> py_add xx yy = Ok s1 ->
  py_pow (z p) 2 = Ok zz -> py_add s1 zz = Ok s2 -> math_sqrt s2 = Ok r ->
  py_pow r 3 = Ok r3 ->
  py_neg (x p) = Ok nx -> py_truediv nx r3 = Ok Fx ->
  py_neg (y p) = Ok ny -> py_truediv ny r3 = Ok Fy ->
  py_neg (z p) = Ok nz -> py_truediv nz r3 = Ok Fz ->
  gravity p = Ok (Fx, Fy, Fz).
Proof.
  intros E1 E2 E3 E4 E5 E6 E7 E8 E9 E10 E11 E12 E13.
  unfold gravity, radius, lift2, num. cbn [rbind].
  rewrite E1. cbn [rbind]. rewrite E2. cbn [rbind]. rewrite E3. cbn [rbind].
  rewrite E4. cbn [rbind]. rewrite E5. cbn [rbind]. rewrite E6. cbn [rbind].
  rewrite E7. cbn [rbind]. rewrite E8. cbn [rbind]. rewrite E9. cbn [rbind].
  rewrite E10. cbn [rbind]. rewrite E11. cbn [rbind]. rewrite E12.
  cbn [rbind]. rewrite E13. reflexivity.
Qed.

(** ** Floats in, floats out *)

Lemma py_add_float_r (a : pyval) (g : float) (v : pyval) :
  py_add a (PyFloat g) = Ok v ->
  exists fa, as_double a = Ok fa /\ v = PyFloat (F64.add fa g).
Proof.
  unfold py_add. destruct a as [i | fa]; cbn [as_double rbind].
  - destruct (F64.is_inf (F64.of_Z i)); cbn [rbind]; [discriminate |].
    intros E. inversion E. eexists. split; reflexivity.
  - intros E. inversion E. eexists. split; reflexivity.
Qed.

Lemma py_mul_float_r (a : pyval) (g : float) (v : pyval) :
  py_mul a (PyFloat g) = Ok v ->
  exists fa, as_double a = Ok fa /\ v = PyFloat (F64.mul fa g).
Proof.
  unfold py_mul. destruct a as [i | fa]; cbn [as_double rbind].
  - destruct (F64.is_inf (F64.of_Z i)); cbn [rbind]; [discriminate |].
    intros E. inversion E. eexists. split; reflexivity.
  - intros E. inversion E. eexists. split; reflexivity.
Qed.

Lemma py_truediv_float_r (a : pyval) (g : float) (v : pyval) :
  py_truediv a (PyFloat g) = Ok v ->
  exists fa, as_double a = Ok fa /\ F64.is_zero g = false /\
             v = PyFloat (F64.div fa g).
Proof.
  unfold py_truediv. destruct a as [i | fa]; cbn [as_double rbind].
  - destruct (F64.is_inf (F64.of_Z i)); cbn [rbind]; [discriminate |].
    destruct (F64.is_zero g); [discriminate |].
    intros E. inversion E. eexists. repeat split.
  - destruct (F64.is_zero g); [discriminate |].
    intros E. inversion E. eexists. repeat split.
Qed.

Lemma py_truediv_float_l (f : float) (b v : pyval) :
  py_truediv (PyFloat f) b = Ok v ->
  exists fb, as_double b = Ok fb /\ F64.is_zero fb = false /\
             v = PyFloat (F64.div f fb).
Proof.
  unfold py_truediv. destruct b as [j | fb]; cbn [as_double rbind].
  - destruct (F64.is_inf (F64.of_Z j)); cbn [rbind]; [discriminate |].
    destruct (F64.is_zero (F64.of_Z j)) eqn:Ez; [discriminate |].
    intros E. inversion E. eexists. repeat split. exact Ez.
  - destruct (F64.is_zero fb) eqn:Ez; [discriminate |].
    intros E. inversion E. eexists. repeat split. exact Ez.
Qed.

Lemma py_truediv_is_float (a b v : pyval) :
  py_truediv a b = Ok v -> exists f, v = PyFloat f.
Proof.
  unfold py_truediv. destruct a as [i | fa], b as [j | fb]; cbn [as_double rbind].
  - destruct (j =? 0); [discriminate |].
    destruct (F64.is_inf (F64.ratio i j)); [discriminate |].
    intros E. inversion E. eexists. reflexivity.
  - destruct (F64.is_inf (F64.of_Z i)); cbn [rbind]; [discriminate |].
    destruct (F64.is_zero fb); [discriminate |].
    intros E. inversion E. eexists. reflexivity.
  - destruct (F64.is_inf (F64.of_Z j)); cbn [rbind]; [discriminate |].
    destruct (F64.is_zero (F64.of_Z j)); [discriminate |].
    intros E. inversion E. eexists. reflexivity.
  - destruct (F64.is_zero fb); [discriminate |].
    intros E. inversion E. eexists. reflexivity.
Qed.

Lemma py_pow_float `{Libm} (f : float) (n : positive) (v : pyval) :
  py_pow (PyFloat f) n = Ok v -> exists g, v = PyFloat g.
Proof. apply float_pow_float. Qed.

(** X1. A step with a float [dt] that returns normally leaves every
    component of the position and of the velocity a float, whatever they
    were before: the [int] zeros that [Planet()] assigns do not survive the
    first step. *)
Theorem step_makes_floats `{Libm} (p p' : Planet) (dt : pyval) :
  is_float dt = true ->
  single_step dt p = (p', Ok tt) ->
  is_float (x p') = true /\ is_float (y p') = true /\ is_float (z p') = true /\
  is_float (vx p') = true /\ is_float (vy p') = true /\
  is_float (vz p') = true.
Proof.
  intros Hdt E. destruct dt as [| d]; [discriminate |]. clear Hdt.
  apply single_step_trace in E. destruct E.
  repeat match goal with
  | E : py_mul _ (PyFloat d) = Ok ?v |- _ =>
      apply py_mul_float_r in E; destruct E as (? & _ & ->)
  end.
  repeat match goal with
  | E : py_truediv _ _ = Ok ?v |- _ =>
      apply py_truediv_is_float in E; destruct E as (? & ->)
  end.
  repeat match goal with
  | E : py_add _ (PyFloat _) = Ok ?v |- _ =>
      apply py_add_float_r in E; destruct E as (? & _ & ->)
  end.
  repeat split.
Qed.

Lemma step_makes_floats_witness :
  is_float (x planet1) = true /\ is_float (y planet1) = true /\
  is_float (z planet1) = true /\ is_float (vx planet1) = true /\
  is_float (vy planet1) = true /\ is_float (vz planet1) = true.
Proof.
  apply (step_makes_floats planet0 planet1 (PyFloat (F64.ratio 1 1000))).
  - reflexivity.
  - vm_compute. reflexivity.
Defined.

(** ** A step that raises *)

Ltac feed_step :=
  repeat match goal with
  | E : ?r = Ok _ |- context [?r] =>
      rewrite E; cbv beta iota delta [rbind]
  | E : ?r = Raise _ |- context [?r] =>
      rewrite E; cbv beta iota delta [rbind]
  end.

Lemma gravity_raises_untouched `{Libm} (p : Planet) (dt : pyval) (e : exn) :
  gravity p = Raise e -> single_step dt p = (p, Raise e).
Proof.
  intros E.
  unfold gravity, radius, lift2, num in E. cbn [rbind] in E.
  unfold single_step. run_step. unfold lift2, num. cbn [rbind].
  repeat (split_result_in E; cbv beta iota delta [rbind];
          [| inversion E; reflexivity]).
  discriminate.
Qed.

(** X2. When the force cannot be evaluated (the powers, the square root or
    the division by [r3] raise), [single_step] raises that exception and
    leaves the body exactly as it was: the force is computed before any
    attribute is assigned. *)
Theorem failed_force_leaves_body_untouched `{Libm}
  (p : Planet) (dt : pyval) (e : exn) :
  gravity p = Raise e -> single_step dt p = (p, Raise e).
Proof.
  intros E.
  unfold gravity, radius, lift2, num in E. cbn [rbind] in E.
  unfold single_step. run_step. unfold lift2, num. cbn [rbind].
  repeat (split_result_in E; cbv beta iota delta [rbind];
          [| inversion E; reflexivity]).
  discriminate.
Qed.

Lemma failed_force_leaves_body_untouched_witness :
  single_step (PyFloat (F64.ratio 1 1000))
    (set_x (PyFloat (pow2 600)) planet0f) =
  (set_x (PyFloat (pow2 600)) planet0f, Raise OverflowError).
Proof.
  apply (failed_force_leaves_body_untouched
           (set_x (PyFloat (pow2 600)) planet0f)
           (PyFloat (F64.ratio 1 1000)) OverflowError).
  vm_compute. reflexivity.
Defined.

(** X3. The update is not atomic: on a float body of mass zero whose force
    can be evaluated, [single_step] with a float [dt] assigns the new
    position, then raises [ZeroDivisionError] at the first division by [m]
    and leaves the velocity as it was. *)
Theorem zero_mass_moves_then_raises `{Libm}
  (p : Planet) (dt : pyval) (F : pyval * pyval * pyval) :
  all_float p = true -> is_float dt = true ->
  gravity p = Ok F -> is_zero (m p) = true ->
  exists x' y' z',
    (x p + vx p * dt)%py = Ok x' /\
    (y p + vy p * dt)%py = Ok y' /\
    (z p + vz p * dt)%py = Ok z' /\
    single_step dt p =
      (mkPlanet x' y' z' (vx p) (vy p) (vz p) (m p), Raise ZeroDivisionError).
Proof.
  intros Hp Hdt E Hm.
  destruct p as [[|x0] [|y0] [|z0] [|vx0] [|vy0] [|vz0] [|m0]]; try discriminate.
  destruct dt as [| d]; try discriminate. clear Hp Hdt.
  cbn [m is_zero] in Hm.
  exists (PyFloat (F64.add x0 (F64.mul vx0 d))),
         (PyFloat (F64.add y0 (F64.mul vy0 d))),
         (PyFloat (F64.add z0 (F64.mul vz0 d))).
  repeat split.
  destruct F as [[Fx Fy] Fz].
  unfold gravity, radius, lift2, num in E. cbn [rbind x y z] in E.
  repeat (split_result_in E; [| discriminate]).
  inversion E; subst; clear E.
  repeat match goal with
  | E : py_truediv _ _ = Ok ?v |- _ =>
      is_var v; destruct (py_truediv_is_float _ _ _ E) as (? & ->)
  end.
  unfold single_step. run_step. unfold lift2, num. cbn [rbind].
  feed_step.
  cbv beta iota delta [rbind as_double py_mul py_add py_truediv
                       set_x set_y set_z x y z vx vy vz m].
  rewrite Hm. reflexivity.
Qed.

Lemma zero_mass_moves_then_raises_witness :
  exists x' y' z',
    (x (set_m (PyFloat F64.zero) planet0f) +
     vx (set_m (PyFloat F64.zero) planet0f) * PyFloat (F64.ratio 1 1000))%py
      = Ok x' /\
    (y (set_m (PyFloat F64.zero) planet0f) +
     vy (set_m (PyFloat F64.zero) planet0f) * PyFloat (F64.ratio 1 1000))%py
      = Ok y' /\
    (z (set_m (PyFloat F64.zero) planet0f) +
     vz (set_m (PyFloat F64.zero) planet0f) * PyFloat (F64.ratio 1 1000))%py
      = Ok z' /\
    single_step (PyFloat (F64.ratio 1 1000))
      (set_m (PyFloat F64.zero) planet0f) =
      (mkPlanet x' y' z' (PyFloat F64.zero) (PyFloat F64.zero)
         (PyFloat F64.one) (PyFloat F64.zero), Raise ZeroDivisionError).
Proof.
  apply (zero_mass_moves_then_raises (set_m (PyFloat F64.zero) planet0f)
           (PyFloat (F64.ratio 1 1000))
           (PyFloat (F64.opp F64.one), PyFloat (S754_zero true),
            PyFloat (S754_zero true))).
  - reflexivity.
  - reflexivity.
  - vm_compute. reflexivity.
  - reflexivity.
Defined.

(** ** More on the driver loop *)

(** X4. A float [num_steps] is never accepted: [propagate] evaluates
    [dt = time_span / num_steps] first and then fails at [range(num_steps)],
    so that with a float [time_span] it raises [ZeroDivisionError] when
    [num_steps] is a zero and [TypeError] otherwise, no step taken and the
    body untouched. *)
Theorem float_num_steps_is_refused `{Libm}
  (p : Planet) (time_span num_steps : float) :
  propagate (PyFloat time_span) (PyFloat num_steps) p =
  (p, Raise (if F64.is_zero num_steps then ZeroDivisionError else TypeError)).
Proof.
  unfold propagate, bind, expr, lift, lift2, num, py_truediv, py_range.
  cbn [rbind as_double].
  destruct (F64.is_zero num_steps); reflexivity.
Qed.

Lemma single_step_times_add `{Libm} (a b : nat) (dt : pyval) (p : Planet) :
  single_step_times (a + b) dt p =
  bind (single_step_times a dt) (fun _ => single_step_times b dt) p.
Proof.
  revert p. induction a as [| a IH]; intros p.
  - reflexivity.
  - cbn [Nat.add single_step_times]. unfold bind.
    destruct (single_step dt p) as [p1 [u | e]].
    + rewrite IH. reflexivity.
    + reflexivity.
Qed.

Lemma propagate_with_dt `{Libm} (time_span : pyval) (n : Z) (dt : pyval) p :
  py_truediv time_span (PyInt n) = Ok dt ->
  propagate time_span (PyInt n) p = single_step_times (Z.to_nat n) dt p.
Proof.
  intros E. rewrite propagate_unfold. unfold bind, expr, lift2, num.
  cbn [rbind]. rewrite E. reflexivity.
Qed.

(** X5. Runs compose: when [time_span1 / n1], [time_span2 / n2] and
    [time_span / (n1 + n2)] are the same [dt], a run of [n1] steps followed
    (if it returns) by a run of [n2] steps leaves the body and the outcome
    of the single run [propagate(planet, time_span, n1 + n2)]. *)
Theorem propagate_in_two_runs `{Libm}
  (p : Planet) (time_span1 time_span2 time_span dt : pyval) (n1 n2 : Z) :
  0 <= n1 -> 0 <= n2 ->
  py_truediv time_span1 (PyInt n1) = Ok dt ->
  py_truediv time_span2 (PyInt n2) = Ok dt ->
  py_truediv time_span (PyInt (n1 + n2)) = Ok dt ->
  bind (propagate time_span1 (PyInt n1))
       (fun _ => propagate time_span2 (PyInt n2)) p =
  propagate time_span (PyInt (n1 + n2)) p.
Proof.
  intros H1 H2 E1 E2 E.
  rewrite (propagate_with_dt _ _ _ _ E).
  replace (Z.to_nat (n1 + n2)) with (Z.to_nat n1 + Z.to_nat n2)%nat by lia.
  rewrite single_step_times_add.
  unfold bind. rewrite (propagate_with_dt _ _ _ _ E1).
  destruct (single_step_times (Z.to_nat n1) dt p) as [p1 [u | e]].
  - apply propagate_with_dt. exact E2.
  - reflexivity.
Qed.

Lemma propagate_in_two_runs_witness :
  bind (propagate (PyInt 1) (PyInt 100))
       (fun _ => propagate (PyInt 2) (PyInt 200)) planet0 =
  propagate (PyInt 3) (PyInt 300) planet0.
Proof.
  apply (propagate_in_two_runs planet0 (PyInt 1) (PyInt 2) (PyInt 3)
           (PyFloat (F64.ratio 1 100)) 100 200).
  - lia.
  - lia.
  - vm_compute. reflexivity.
  - vm_compute. reflexivity.
  - vm_compute. reflexivity.
Defined.

(** X6. A body whose force cannot be evaluated stays as it is: for every
    positive [num_steps] whose [dt] can be computed, [propagate] raises at
    its first step the exception of the force and leaves the body
    untouched. *)
Theorem propagate_stops_at_a_failed_force `{Libm}
  (p : Planet) (time_span dt : pyval) (num_steps : Z) (e : exn) :
  0 < num_steps ->
  py_truediv time_span (PyInt num_steps) = Ok dt ->
  gravity p = Raise e ->
  propagate time_span (PyInt num_steps) p = (p, Raise e).
Proof.
  intros Hn Edt E. rewrite (propagate_with_dt _ _ _ _ Edt).
  destruct (Z.to_nat num_steps) as [| k] eqn:Ek; [lia |].
  cbn [single_step_times]. unfold bind.
  rewrite (gravity_raises_untouched p dt e E). reflexivity.
Qed.

Lemma propagate_stops_at_a_failed_force_witness :
  propagate (PyInt 1) (PyInt 1000) origin = (origin, Raise ZeroDivisionError).
Proof.
  apply (propagate_stops_at_a_failed_force origin (PyInt 1)
           (PyFloat (F64.ratio 1 1000)) 1000 ZeroDivisionError).
  - lia.
  - vm_compute. reflexivity.
  - vm_compute. reflexivity.
Defined.

(** ** NaN spreads *)

Lemma add_nan_r (a : float) : F64.add a S754_nan = S754_nan.
Proof. destruct a; reflexivity. Qed.

Lemma mul_nan_r (a : float) : F64.mul a S754_nan = S754_nan.
Proof. destruct a; reflexivity. Qed.

Lemma div_nan_r (a : float) : F64.div a S754_nan = S754_nan.
Proof. destruct a; reflexivity. Qed.

Lemma is_nan_inv (v : pyval) : is_nan v = true -> v = PyFloat S754_nan.
Proof.
  destruct v as [i | f]; [discriminate |].
  destruct f; try discriminate. reflexivity.
Qed.

Lemma py_pow_nan `{Libm} (a v : pyval) (n : positive) :
  is_nan a = true -> py_pow a n = Ok v -> is_nan v = true.
Proof.
  intros Ha. apply is_nan_inv in Ha. subst a.
  unfold py_pow, float_pow.
  destruct (as_double (PyInt (Zpos n))); cbn [rbind F64.is_nan];
    [| discriminate].
  intros E. inversion E. reflexivity.
Qed.

Lemma py_add_nan (a b v : pyval) :
  is_nan a = true \/ is_nan b = true -> py_add a b = Ok v -> is_nan v = true.
Proof.
  intros [Ha | Hb] E.
  - apply is_nan_inv in Ha. subst a. unfold py_add in E.
    cbn [as_double rbind] in E.
    destruct (as_double b); cbn [rbind] in E; [| discriminate].
    inversion E. reflexivity.
  - apply is_nan_inv in Hb. subst b.
    apply py_add_float_r in E. destruct E as (fa & _ & ->).
    cbn [is_nan]. rewrite add_nan_r. reflexivity.
Qed.

Lemma math_sqrt_nan (a v : pyval) :
  is_nan a = true -> math_sqrt a = Ok v -> is_nan v = true.
Proof.
  intros Ha. apply is_nan_inv in Ha. subst a.
  intros E. vm_compute in E. inversion E. reflexivity.
Qed.

Lemma py_truediv_nan (a b v : pyval) :
  is_nan a = true \/ is_nan b = true ->
  py_truediv a b = Ok v -> is_nan v = true.
Proof.
  intros [Ha | Hb] E.
  - apply is_nan_inv in Ha. subst a.
    apply py_truediv_float_l in E. destruct E as (fb & _ & _ & ->).
    reflexivity.
  - apply is_nan_inv in Hb. subst b.
    apply py_truediv_float_r in E. destruct E as (fa & _ & _ & ->).
    cbn [is_nan]. rewrite div_nan_r. reflexivity.
Qed.

Lemma py_mul_nan_l (a b v : pyval) :
  is_nan a = true -> py_mul a b = Ok v -> is_nan v = true.
Proof.
  intros Ha E. apply is_nan_inv in Ha. subst a. unfold py_mul in E.
  cbn [as_double rbind] in E.
  destruct (as_double b); cbn [rbind] in E; [| discriminate].
  inversion E. reflexivity.
Qed.

(** X7. NaN is not detected, it spreads: when a component of the position
    is NaN and the step returns normally, the three components of the
    velocity are NaN after the step. *)
Theorem nan_position_poisons_velocity `{Libm} (p p' : Planet) (dt : pyval) :
  is_nan (x p) || is_nan (y p) || is_nan (z p) = true ->
  single_step dt p = (p', Ok tt) ->
  is_nan (vx p') = true /\ is_nan (vy p') = true /\ is_nan (vz p') = true.
Proof.
  intros Hn E. apply single_step_trace in E.
  destruct E as [xx yy zz s1 s2 r r3 nx ny nz Fx Fy Fz
                 dx dy dz x' y' z' gx gy gz hx hy hz vx' vy' vz'
                 Exx Eyy Es1 Ezz Es2 Er Er3 Enx EFx Eny EFy Enz EFz
                 Edx Ex' Edy Ey' Edz Ez' Egx Ehx Evx Egy Ehy Evy Egz Ehz Evz].
  assert (Hs2 : is_nan s2 = true).
  { apply orb_prop in Hn. destruct Hn as [Hn | Hz].
    - apply (py_add_nan s1 zz s2); [left | exact Es2].
      apply orb_prop in Hn. destruct Hn as [Hx | Hy].
      + apply (py_add_nan xx yy s1); [left | exact Es1].
        exact (py_pow_nan _ _ _ Hx Exx).
      + apply (py_add_nan xx yy s1); [right | exact Es1].
        exact (py_pow_nan _ _ _ Hy Eyy).
    - apply (py_add_nan s1 zz s2); [right | exact Es2].
      exact (py_pow_nan _ _ _ Hz Ezz). }
  assert (Hr3 : is_nan r3 = true).
  { apply (py_pow_nan r r3 3); [| exact Er3].
    exact (math_sqrt_nan _ _ Hs2 Er). }
  assert (HF : forall n F g h v w,
             py_truediv n r3 = Ok F -> py_mul F dt = Ok g ->
             py_truediv g (m p) = Ok h -> py_add v h = Ok w ->
             is_nan w = true).
  { intros n F g h v w E1 E2 E3 E4.
    apply (py_add_nan v h w); [right | exact E4].
    apply (py_truediv_nan g (m p) h); [left | exact E3].
    apply (py_mul_nan_l F dt g); [| exact E2].
    apply (py_truediv_nan n r3 F); [right; exact Hr3 | exact E1]. }
  cbn [vx vy vz]. repeat split.
  - exact (HF _ _ _ _ _ _ EFx Egx Ehx Evx).
  - exact (HF _ _ _ _ _ _ EFy Egy Ehy Evy).
  - exact (HF _ _ _ _ _ _ EFz Egz Ehz Evz).
Qed.

Lemma nan_position_poisons_velocity_witness :
  exists p',
    single_step (PyFloat (F64.ratio 1 1000))
      (set_z (PyFloat S754_nan) planet0f) = (p', Ok tt) /\
    is_nan (vx p') = true /\ is_nan (vy p') = true /\ is_nan (vz p') = true.
Proof.
  exists (mkPlanet (PyFloat F64.one) (PyFloat F64.zero) (PyFloat S754_nan)
            (PyFloat S754_nan) (PyFloat S754_nan) (PyFloat S754_nan)
            (PyFloat F64.one)).
  split; [vm_compute; reflexivity |].
  apply (nan_position_poisons_velocity (set_z (PyFloat S754_nan) planet0f) _
           (PyFloat (F64.ratio 1 1000))).
  - reflexivity.
  - vm_compute. reflexivity.
Defined.

(** ** Motion in the plane [y = 0] *)

Lemma is_finite_inv (v : pyval) :
  is_finite v = true -> exists f, v = PyFloat f /\ F64.is_finite f = true.
Proof. destruct v as [i | f]; [discriminate | eauto]. Qed.

Lemma as_double_zero (v : pyval) :
  is_zero v = true -> exists s, as_double v = Ok (S754_zero s).
Proof.
  destruct v as [i | f]; cbn [is_zero].
  - intros E. apply Z.eqb_eq in E. subst i. exists false. reflexivity.
  - destruct f; try discriminate. intros _. exists s. reflexivity.
Qed.

Lemma py_neg_zero (a v : pyval) :
  is_zero a = true -> py_neg a = Ok v -> is_zero v = true.
Proof.
  destruct a as [i | f]; cbn [is_zero]; intros Hz E; inversion E; subst v.
  - apply Z.eqb_eq in Hz. subst i. reflexivity.
  - destruct f; try discriminate. reflexivity.
Qed.

Lemma py_add_zero (a b v : pyval) :
  is_zero a = true -> is_zero b = true -> py_add a b = Ok v ->
  is_zero v = true.
Proof.
  intros Ha Hb. destruct a as [i | f], b as [j | g];
    cbn [is_zero] in Ha, Hb;
    repeat match goal with
           | E : (_ =? 0) = true |- _ => apply Z.eqb_eq in E; subst
           end;
    try (destruct f; try discriminate);
    try (destruct g; try discriminate);
    intros E; vm_compute in E; inversion E; subst v;
    repeat match goal with s : bool |- _ => destruct s end;
    reflexivity.
Qed.

Lemma py_mul_zero_finite (a b v : pyval) :
  zero_or_nan a = true -> is_finite b = true -> py_mul a b = Ok v ->
  zero_or_nan v = true.
Proof.
  intros Ha Hb E. apply is_finite_inv in Hb. destruct Hb as (g & -> & Hg).
  apply py_mul_float_r in E. destruct E as (fa & Ea & ->).
  unfold zero_or_nan in Ha. apply orb_prop in Ha. destruct Ha as [Ha | Ha].
  - apply as_double_zero in Ha. destruct Ha as (s & Ha).
    rewrite Ha in Ea. inversion Ea. subst fa.
    destruct g; try discriminate; reflexivity.
  - apply is_nan_inv in Ha. subst a. inversion Ea. reflexivity.
Qed.

Lemma py_truediv_zero (a b v : pyval) :
  zero_or_nan a = true -> py_truediv a b = Ok v -> zero_or_nan v = true.
Proof.
  intros Ha E. unfold zero_or_nan in Ha. apply orb_prop in Ha.
  destruct Ha as [Ha | Ha].
  - destruct a as [i | f], b as [j | g]; cbn [is_zero] in Ha.
    + apply Z.eqb_eq in Ha. subst i. unfold py_truediv in E.
      destruct (j =? 0) eqn:Ej; [discriminate |].
      destruct j; try discriminate; cbn in E; inversion E; reflexivity.
    + apply Z.eqb_eq in Ha. subst i.
      apply py_truediv_float_r in E. destruct E as (fa & Ea & Hg & ->).
      inversion Ea. subst fa.
      destruct g; try discriminate; reflexivity.
    + destruct f; try discriminate.
      apply py_truediv_float_l in E. destruct E as (fb & _ & Hg & ->).
      destruct fb; try discriminate; reflexivity.
    + destruct f; try discriminate.
      apply py_truediv_float_l in E. destruct E as (fb & _ & Hg & ->).
      destruct fb; try discriminate; reflexivity.
  - unfold zero_or_nan. rewrite (py_truediv_nan a b v (or_introl Ha) E).
    apply orb_true_r.
Qed.

Lemma py_add_zero_or_nan (a b v : pyval) :
  is_zero a = true -> zero_or_nan b = true -> py_add a b = Ok v ->
  zero_or_nan v = true.
Proof.
  intros Ha Hb E. unfold zero_or_nan in *. apply orb_prop in Hb.
  destruct Hb as [Hb | Hb].
  - rewrite (py_add_zero a b v Ha Hb E). reflexivity.
  - rewrite (py_add_nan a b v (or_intror Hb) E). apply orb_true_r.
Qed.

Lemma zero_is_zero_or_nan (v : pyval) :
  is_zero v = true -> zero_or_nan v = true.
Proof. intros E. unfold zero_or_nan. rewrite E. reflexivity. Qed.

Lemma step_in_plane `{Libm} (p p' : Planet) (dt : pyval) :
  is_finite dt = true ->
  in_plane p = true \/ is_nan (vy p) = true ->
  single_step dt p = (p', Ok tt) ->
  in_plane p' = true \/ is_nan (vy p') = true.
Proof.
  intros Hdt Hp E. apply single_step_trace in E.
  destruct E as [xx yy zz s1 s2 r r3 nx ny nz Fx Fy Fz
                 dx dy dz x' y' z' gx gy gz hx hy hz vx' vy' vz'
                 Exx Eyy Es1 Ezz Es2 Er Er3 Enx EFx Eny EFy Enz EFz
                 Edx Ex' Edy Ey' Edz Ez' Egx Ehx Evx Egy Ehy Evy Egz Ehz Evz].
  unfold in_plane. cbn [y vy].
  destruct Hp as [Hp | Hp].
  - unfold in_plane in Hp. apply andb_prop in Hp. destruct Hp as [Hy Hvy].
    assert (Hy' : is_zero y' = true).
    { pose proof (py_mul_zero_finite _ _ _ (zero_is_zero_or_nan _ Hvy) Hdt Edy)
        as Hd.
      unfold zero_or_nan in Hd. apply orb_prop in Hd. destruct Hd as [Hd | Hd].
      - exact (py_add_zero _ _ _ Hy Hd Ey').
      - exfalso. apply is_finite_inv in Hdt. destruct Hdt as (g & -> & Hg).
        apply as_double_zero in Hvy. destruct Hvy as (s & Hvy).
        apply py_mul_float_r in Edy. destruct Edy as (fa & Ea & ->).
        rewrite Hvy in Ea. inversion Ea. subst fa.
        destruct g; discriminate. }
    assert (Hv : zero_or_nan vy' = true).
    { apply (py_add_zero_or_nan (vy p) hy vy' Hvy); [| exact Evy].
      apply (py_truediv_zero gy (m p) hy); [| exact Ehy].
      apply (py_mul_zero_finite Fy dt gy); [| exact Hdt | exact Egy].
      apply (py_truediv_zero ny r3 Fy); [| exact EFy].
      apply zero_is_zero_or_nan. exact (py_neg_zero _ _ Hy Eny). }
    unfold zero_or_nan in Hv. apply orb_prop in Hv. destruct Hv as [Hv | Hv].
    + left. rewrite Hy', Hv. reflexivity.
    + right. exact Hv.
  - right. exact (py_add_nan _ _ _ (or_introl Hp) Evy).
Qed.

Lemma steps_in_plane `{Libm} (n : nat) (p p' : Planet) (dt : pyval) :
  is_finite dt = true ->
  in_plane p = true \/ is_nan (vy p) = true ->
  single_step_times n dt p = (p', Ok tt) ->
  in_plane p' = true \/ is_nan (vy p') = true.
Proof.
  intros Hdt. revert p. induction n as [| n IH]; intros p Hp E.
  - inversion E. subst p'. exact Hp.
  - cbn [single_step_times] in E. unfold bind in E.
    destruct (single_step dt p) as [p1 [[] | e]] eqn:E1.
    + apply (IH p1); [| exact E].
      exact (step_in_plane p p1 dt Hdt Hp E1).
    + discriminate.
Qed.

(** X8. The plane [y = 0] is kept: when the body starts in it with no
    velocity across it ([y] and [vy] zeros) and [dt = time_span / num_steps]
    is finite, then after a run that returns normally [y] and [vy] are
    zeros again, unless [vy] has become NaN. *)
Theorem propagate_stays_in_the_plane `{Libm}
  (p p' : Planet) (time_span num_steps dt : pyval) :
  py_truediv time_span num_steps = Ok dt ->
  is_finite dt = true ->
  in_plane p = true ->
  propagate time_span num_steps p = (p', Ok tt) ->
  in_plane p' = true \/ is_nan (vy p') = true.
Proof.
  intros Edt Hdt Hp E. destruct num_steps as [n | f].
  - rewrite (propagate_with_dt _ _ _ _ Edt) in E.
    exact (steps_in_plane _ p p' dt Hdt (or_introl Hp) E).
  - unfold propagate, bind, expr, lift, lift2, num in E. cbn [rbind] in E.
    rewrite Edt in E. cbn [py_range] in E. discriminate.
Qed.

Lemma propagate_stays_in_the_plane_witness :
  exists p',
    propagate (PyInt 1) (PyInt 100) planet0 = (p', Ok tt) /\
    (in_plane p' = true \/ is_nan (vy p') = true).
Proof.
  destruct (propagate (PyInt 1) (PyInt 100) planet0) as [p' [[] | e]] eqn:E.
  - exists p'. split; [reflexivity |].
    apply (propagate_stays_in_the_plane planet0 p' (PyInt 1) (PyInt 100)
             (PyFloat (F64.ratio 1 100))).
    + vm_compute. reflexivity.
    + vm_compute. reflexivity.
    + vm_compute. reflexivity.
    + exact E.
  - exfalso. vm_compute in E. discriminate.
Defined.

(** ** The identity step, in general *)

Lemma eqb_refl_finite (f : float) :
  F64.is_finite f = true -> F64.eqb f f = true.
Proof.
  destruct f as [s | s | | s m e]; try discriminate; intros _.
  - reflexivity.
  - unfold F64.eqb, SFeqb, SFcompare.
    rewrite Z.compare_refl, Pos.compare_cont_refl.
    destruct s; reflexivity.
Qed.

Lemma add_zero_eqb (a b : float) :
  F64.is_finite a = true -> F64.is_zero b = true ->
  F64.eqb (F64.add a b) a = true.
Proof.
  destruct a as [s | s | | s m e]; try discriminate;
    destruct b as [t | t | | t n k]; try discriminate; intros _ _.
  - destruct s, t; reflexivity.
  - change (F64.add (S754_finite s m e) (S754_zero t))
      with (S754_finite s m e).
    apply eqb_refl_finite. reflexivity.
Qed.

Lemma mul_finite_zero (a b : float) :
  F64.is_finite a = true -> F64.is_zero b = true ->
  F64.is_zero (F64.mul a b) = true.
Proof.
  destruct a; try discriminate; destruct b; try discriminate; reflexivity.
Qed.

Lemma div_zero_number (a b : float) :
  F64.is_zero a = true -> F64.is_zero b = false -> F64.is_nan b = false ->
  F64.is_zero (F64.div a b) = true.
Proof.
  destruct a; try discriminate; destruct b; try discriminate; reflexivity.
Qed.

Lemma moved_by_zero (a b dt d w : pyval) :
  is_finite a = true -> is_finite b = true -> is_zero dt = true ->
  py_mul b dt = Ok d -> py_add a d = Ok w -> py_eq w a = true.
Proof.
  intros Ha Hb Hdt Ed Ew.
  apply is_finite_inv in Ha. destruct Ha as (fa & -> & Ha).
  apply is_finite_inv in Hb. destruct Hb as (fb & -> & Hb).
  apply as_double_zero in Hdt. destruct Hdt as (s & Hdt).
  unfold py_mul in Ed. cbn [as_double rbind] in Ed.
  destruct dt as [i | g]; rewrite Hdt in Ed; cbn [rbind] in Ed;
    inversion Ed; subst d; inversion Ew; subst w;
    apply add_zero_eqb; try exact Ha; apply mul_finite_zero;
    try exact Hb; reflexivity.
Qed.

Lemma pushed_by_zero (a F dt mass g h w : pyval) :
  is_finite a = true -> is_finite F = true -> is_zero dt = true ->
  is_float mass = true -> is_nan mass = false ->
  py_mul F dt = Ok g -> py_truediv g mass = Ok h -> py_add a h = Ok w ->
  py_eq w a = true.
Proof.
  intros Ha HF Hdt Hm Hn Eg Eh Ew.
  apply is_finite_inv in Ha. destruct Ha as (fa & -> & Ha).
  apply is_finite_inv in HF. destruct HF as (fF & -> & HF).
  destruct mass as [i | fm]; [discriminate |]. cbn [is_nan] in Hn.
  apply as_double_zero in Hdt. destruct Hdt as (s & Hdt).
  assert (Hg : exists fg, g = PyFloat fg /\ F64.is_zero fg = true).
  { unfold py_mul in Eg. cbn [as_double rbind] in Eg.
    destruct dt as [i | fd]; rewrite Hdt in Eg; cbn [rbind] in Eg;
      inversion Eg; eexists; (split; [reflexivity |]);
      apply mul_finite_zero; try exact HF; reflexivity. }
  destruct Hg as (fg & -> & Hg).
  apply py_truediv_float_r in Eh. destruct Eh as (fg' & Eg' & Hz & ->).
  inversion Eg'. subst fg'.
  inversion Ew. subst w.
  apply add_zero_eqb; [exact Ha |].
  apply div_zero_number; assumption.
Qed.

(** X9. A step of [dt = 0] changes nothing that Python's [==] can see, on
    every body, not only on the one of the notebook: when position and
    velocity are finite floats, the force at the position is finite, the
    mass is a float other than NaN and the step returns normally, the six
    components compare equal to their values before the step. *)
Theorem zero_dt_step_is_identity `{Libm}
  (p p' : Planet) (dt Fx Fy Fz : pyval) :
  finite_motion p = true ->
  is_float (m p) = true -> is_nan (m p) = false ->
  is_zero dt = true ->
  gravity p = Ok (Fx, Fy, Fz) ->
  is_finite Fx && is_finite Fy && is_finite Fz = true ->
  single_step dt p = (p', Ok tt) ->
  same_motion p' p = true.
Proof.
  intros Hp Hm Hn Hdt EF HF E. apply single_step_trace in E.
  destruct E as [xx yy zz s1 s2 r r3 nx ny nz Fx1 Fy1 Fz1
                 dx dy dz x' y' z' gx gy gz hx hy hz vx' vy' vz'
                 Exx Eyy Es1 Ezz Es2 Er Er3 Enx EFx Eny EFy Enz EFz
                 Edx Ex' Edy Ey' Edz Ez' Egx Ehx Evx Egy Ehy Evy Egz Ehz Evz].
  rewrite (gravity_of_trace p xx yy zz s1 s2 r r3 nx ny nz Fx1 Fy1 Fz1) in EF
    by assumption.
  inversion EF. subst Fx1 Fy1 Fz1. clear EF.
  unfold finite_motion in Hp.
  repeat (apply andb_prop in Hp; destruct Hp as [Hp ?]).
  repeat (apply andb_prop in HF; destruct HF as [HF ?]).
  unfold same_motion. cbn [x y z vx vy vz].
  rewrite (moved_by_zero (x p) (vx p) dt dx x') by assumption.
  rewrite (moved_by_zero (y p) (vy p) dt dy y') by assumption.
  rewrite (moved_by_zero (z p) (vz p) dt dz z') by assumption.
  rewrite (pushed_by_zero (vx p) Fx dt (m p) gx hx vx') by assumption.
  rewrite (pushed_by_zero (vy p) Fy dt (m p) gy hy vy') by assumption.
  rewrite (pushed_by_zero (vz p) Fz dt (m p) gz hz vz') by assumption.
  reflexivity.
Qed.

Lemma zero_dt_step_is_identity_witness :
  exists p',
    single_step (PyInt 0) planet1 = (p', Ok tt) /\ same_motion p' planet1 = true.
Proof.
  destruct (single_step (PyInt 0) planet1) as [p' [[] | e]] eqn:E.
  - exists p'. split; [reflexivity |].
    destruct (gravity planet1) as [[[Fx Fy] Fz] | e] eqn:EF.
    + apply (zero_dt_step_is_identity planet1 p' (PyInt 0) Fx Fy Fz).
      * reflexivity.
      * reflexivity.
      * reflexivity.
      * reflexivity.
      * exact EF.
      * vm_compute in EF. inversion EF. reflexivity.
      * exact E.
    + exfalso. vm_compute in EF. discriminate.
  - exfalso. vm_compute in E. discriminate.
Defined.

(** * The cells compiled with static types *)

(** ** The quotient of two small integers *)

Lemma iter_xO_pow2 (q k : positive) :
  Zpos (Pos.iter xO q k) = Zpos q * 2 ^ Zpos k.
Proof.
  induction k using Pos.peano_ind.
  - simpl. lia.
  - rewrite Pos.iter_succ, Pos2Z.inj_succ, Z.pow_succ_r by lia.
    rewrite Pos2Z.inj_xO, IHk. lia.
Qed.

Lemma binary_round_form (s : bool) (q : positive) :
  Zpos q < 2 ^ 53 ->
  exists (k : Z) (mz : positive),
    0 <= k /\
    binary_round F64.prec F64.emax s q 0 = S754_finite s mz (- k) /\
    Zpos mz = Zpos q * 2 ^ k /\
    Zpos (digits2_pos mz) = 53 /\
    Zpos (digits2_pos q) + k = 53.
Proof.
  intros Hq. pose proof (digits2_pos_bound q Hq) as Hd.
  unfold binary_round, shl_align, fexp, emin, F64.prec, F64.emax.
  replace (Z.max (Zpos (digits2_pos q) + 0 - 53) (3 - 1024 - 53))
    with (Zpos (digits2_pos q) - 53) by lia.
  rewrite Z.sub_0_r.
  destruct (Zpos (digits2_pos q) - 53) as [| k | k] eqn:Ek.
  - exists 0, q. repeat split; try lia.
    apply round_fixpoint; lia.
  - lia.
  - exists (Zpos k), (Pos.iter xO q k). repeat split; try lia.
    + apply (round_fixpoint s (Pos.iter xO q k) (Zneg k)).
      * rewrite digits2_pos_shift. lia.
      * lia.
    + apply iter_xO_pow2.
    + rewrite digits2_pos_shift. lia.
Qed.

Lemma of_Z_form (n : Z) :
  n <> 0 -> Z.abs n < 2 ^ 53 ->
  exists (k : Z) (mz : positive),
    0 <= k /\
    F64.of_Z n = S754_finite (n <? 0) mz (- k) /\
    Zpos mz = Z.abs n * 2 ^ k /\
    Zpos (digits2_pos mz) = 53 /\
    Zdigits2 n + k = 53.
Proof.
  intros Hn Hb. unfold F64.of_Z, binary_normalize.
  destruct n as [| q | q]; [contradiction Hn; reflexivity | |].
  - exact (binary_round_form false q Hb).
  - exact (binary_round_form true q Hb).
Qed.

Lemma div_eucl_div_mod (a b : Z) : Z.div_eucl a b = (a / b, a mod b).
Proof.
  unfold Z.div, Z.modulo. destruct (Z.div_eucl a b). reflexivity.
Qed.

Lemma new_location_scale (b r k : Z) :
  0 < b -> 0 <= r < b -> 0 <= k ->
  new_location (b * 2 ^ k) (r * 2 ^ k) = new_location b r.
Proof.
  intros Hb Hr Hk.
  destruct (Z.eq_dec k 0) as [-> | Hk0].
  - rewrite Z.pow_0_r, !Z.mul_1_r. reflexivity.
  - assert (Hc : 0 < 2 ^ k) by (apply Z.pow_pos_nonneg; lia).
    unfold new_location.
    replace (Z.even (b * 2 ^ k)) with true.
    2:{ symmetry. rewrite Z.even_mul.
        replace (Z.even (2 ^ k)) with true; [apply orb_true_r |].
        symmetry. rewrite Z.even_pow by lia. reflexivity. }
    unfold new_location_even, new_location_odd.
    replace (r * 2 ^ k =? 0) with (r =? 0).
    2:{ destruct (Z.eqb_spec r 0) as [-> | Hr0].
        - reflexivity.
        - symmetry. apply Z.eqb_neq. nia. }
    destruct (r =? 0) eqn:Er.
    + destruct (Z.even b); rewrite ?Er; reflexivity.
    + replace (2 * (r * 2 ^ k) ?= b * 2 ^ k) with (2 * r ?= b).
      2:{ destruct (Z.compare_spec (2 * r) b),
            (Z.compare_spec (2 * (r * 2 ^ k)) (b * 2 ^ k));
            try reflexivity; nia. }
      destruct (Z.even b) eqn:Eb; rewrite ?Er; [reflexivity |].
      f_equal.
      assert (Ho : Z.odd b = true) by (rewrite <- Z.negb_even, Eb; reflexivity).
      apply Z.odd_spec in Ho. destruct Ho as [t Ht].
      destruct (Z.compare_spec (2 * r) b), (Z.compare_spec (2 * r + 1) b);
        try reflexivity; lia.
Qed.

Lemma div_core_scale (a b ma mb : positive) (ka kb : Z) :
  0 <= ka -> 0 <= kb ->
  Zpos ma = Zpos a * 2 ^ ka -> Zpos mb = Zpos b * 2 ^ kb ->
  Zpos (digits2_pos ma) = 53 -> Zpos (digits2_pos mb) = 53 ->
  Zpos (digits2_pos a) + ka = 53 -> Zpos (digits2_pos b) + kb = 53 ->
  SFdiv_core_binary F64.prec F64.emax (Zpos ma) (- ka) (Zpos mb) (- kb) =
  SFdiv_core_binary F64.prec F64.emax (Zpos a) 0 (Zpos b) 0.
Proof.
  intros Hka Hkb Ea Eb Hma Hmb Hda Hdb.
  assert (Hka' : ka <= 52) by lia.
  assert (Hkb' : kb <= 52) by lia.
  unfold SFdiv_core_binary, Zdigits2, fexp, emin, F64.prec, F64.emax.
  rewrite Hma, Hmb.
  replace (Z.min (Z.max (53 + - ka - (53 + - kb) - 53) (3 - 1024 - 53))
             (- ka - - kb)) with (kb - ka - 53) by lia.
  replace (Z.min (Z.max (Zpos (digits2_pos a) + 0 - (Zpos (digits2_pos b) + 0)
                         - 53) (3 - 1024 - 53)) (0 - 0))
    with (kb - ka - 53) by lia.
  replace (- ka - - kb - (kb - ka - 53)) with 53 by lia.
  replace (0 - 0 - (kb - ka - 53)) with (53 + ka - kb) by lia.
  destruct (53 + ka - kb) as [| s | s] eqn:Es; try lia.
  rewrite <- Es. rewrite !Z.shiftl_mul_pow2 by lia.
  rewrite Ea, Eb.
  replace (Zpos a * 2 ^ ka * 2 ^ 53)
    with (Zpos a * 2 ^ (53 + ka - kb) * 2 ^ kb).
  2:{ rewrite <- !Z.mul_assoc, <- !Z.pow_add_r by lia.
      f_equal. f_equal. lia. }
  assert (Hc : 0 < 2 ^ kb) by (apply Z.pow_pos_nonneg; lia).
  rewrite !div_eucl_div_mod.
  rewrite Z.div_mul_cancel_r by lia.
  rewrite Z.mul_mod_distr_r by lia.
  rewrite new_location_scale; [reflexivity | lia | | lia].
  apply Z.mod_pos_bound. lia.
Qed.

Lemma ratio_is_div (t n : Z) :
  n <> 0 -> Z.abs t < 2 ^ 53 -> Z.abs n < 2 ^ 53 ->
  F64.ratio t n = F64.div (F64.of_Z t) (F64.of_Z n).
Proof.
  intros Hn Ht Hb.
  destruct (of_Z_form n Hn Hb) as (kb & mb & Hkb & En & Emb & Hmb & Hdb).
  destruct (Z.eq_dec t 0) as [-> | Ht0].
  - rewrite En. destruct n; [contradiction Hn |..]; reflexivity.
  - destruct (of_Z_form t Ht0 Ht) as (ka & ma & Hka & Et & Ema & Hma & Hda).
    rewrite Et, En. unfold F64.div, SFdiv.
    destruct t as [| a | a]; [contradiction Ht0; reflexivity | |];
      destruct n as [| b | b]; try (contradiction Hn; reflexivity);
      unfold F64.ratio; cbn [Z.abs Zdigits2] in *;
      rewrite (div_core_scale a b ma mb ka kb) by assumption;
      reflexivity.
Qed.

Lemma Zdigits2_bound (m K : Z) :
  0 <= K -> 0 <= m < 2 ^ K -> Zdigits2 m <= K.
Proof.
  intros HK [H0 Hm]. destruct m as [| q | q]; [exact HK | | lia].
  cbn [Zdigits2]. rewrite digits2_pos_size.
  pose proof (Pos.size_le q) as Hle.
  apply Pos2Z.pos_le_pos in Hle. rewrite Pos2Z.inj_pow in Hle.
  change (Zpos q~0) with (2 * Zpos q) in Hle.
  destruct (Z_le_gt_dec (Zpos (Pos.size q)) K) as [Hs | Hs]; [exact Hs |].
  exfalso.
  assert (H1 : 2 ^ (K + 1) <= 2 ^ Zpos (Pos.size q))
    by (apply Z.pow_le_mono_r; lia).
  rewrite Z.pow_add_r in H1 by lia. lia.
Qed.

Lemma shr_1_le (mrs : shr_record) :
  0 <= shr_m mrs -> 0 <= shr_m (shr_1 mrs) <= shr_m mrs.
Proof.
  destruct mrs as [m r s]. cbn [shr_m]. intros Hm.
  destruct m as [| q | q]; [| | lia].
  - cbn. lia.
  - destruct q; cbn; lia.
Qed.

Lemma iter_shr_1_le (p : positive) (mrs : shr_record) :
  0 <= shr_m mrs -> 0 <= shr_m (iter_pos shr_1 p mrs) <= shr_m mrs.
Proof.
  revert mrs. induction p as [p IH | p IH |]; intros mrs Hm; cbn [iter_pos].
  - pose proof (shr_1_le mrs Hm) as H1.
    pose proof (IH (shr_1 mrs) (proj1 H1)) as H2.
    pose proof (IH _ (proj1 H2)) as H3. lia.
  - pose proof (IH mrs Hm) as H2.
    pose proof (IH _ (proj1 H2)) as H3. lia.
  - apply shr_1_le. exact Hm.
Qed.

Lemma shr_fexp_bound (m e K : Z) (l : location) (mrs : shr_record) (e1 : Z) :
  0 <= K -> 0 <= m < 2 ^ K ->
  shr_fexp F64.prec F64.emax m e l = (mrs, e1) ->
  0 <= shr_m mrs <= m /\ e <= e1 <= Z.max e (Z.max (K + e - 53) (-1074)).
Proof.
  intros HK Hm. pose proof (Zdigits2_bound m K HK Hm) as Hd.
  unfold shr_fexp, shr, fexp, emin, F64.prec, F64.emax.
  assert (H0 : shr_m (shr_record_of_loc m l) = m)
    by (destruct l as [| []]; reflexivity).
  destruct (Z.max (Zdigits2 m + e - 53) (3 - 1024 - 53) - e) as [| p | p] eqn:En;
    intros E; inversion E; subst mrs e1.
  - rewrite H0. lia.
  - pose proof (iter_shr_1_le p (shr_record_of_loc m l)) as Hi.
    rewrite H0 in Hi. lia.
  - rewrite H0. lia.
Qed.

Lemma round_nearest_even_bound (m : Z) (l : location) :
  0 <= m -> 0 <= round_nearest_even m l <= m + 1.
Proof.
  intros Hm. destruct l as [| []]; cbn [round_nearest_even];
    try destruct (Z.even m); lia.
Qed.

Lemma round_aux_finite (s : bool) (m e : Z) (l : location) :
  0 <= m < 2 ^ 158 -> -1074 <= e <= 0 ->
  F64.is_inf (binary_round_aux F64.prec F64.emax s m e l) = false.
Proof.
  intros Hm He. unfold binary_round_aux.
  destruct (shr_fexp F64.prec F64.emax m e l) as [mrs1 e1] eqn:E1.
  apply (shr_fexp_bound m e 158) in E1; [| lia | exact Hm].
  destruct E1 as [Hm1 He1].
  pose proof (round_nearest_even_bound (shr_m mrs1) (loc_of_shr_record mrs1)
                (proj1 Hm1)) as Hr.
  destruct (shr_fexp F64.prec F64.emax _ e1 loc_Exact) as [mrs2 e2] eqn:E2.
  apply (shr_fexp_bound _ e1 159) in E2; [| lia |].
  2:{ change (2 ^ 159) with (2 * 2 ^ 158). lia. }
  destruct E2 as [Hm2 He2].
  destruct (shr_m mrs2); [reflexivity | | reflexivity].
  replace (e2 <=? F64.emax - F64.prec) with true; [reflexivity |].
  symmetry. apply Z.leb_le. unfold F64.emax, F64.prec. lia.
Qed.

Lemma ratio_finite (t n : Z) :
  n <> 0 -> Z.abs t < 2 ^ 53 -> Z.abs n < 2 ^ 53 ->
  F64.is_inf (F64.ratio t n) = false.
Proof.
  intros Hn Ht Hb. unfold F64.ratio.
  destruct n as [| b | b]; [contradiction Hn; reflexivity | |];
    (destruct t as [| a | a]; [reflexivity | |]);
    cbn [Z.abs] in *;
    unfold SFdiv_core_binary, Zdigits2, fexp, emin, F64.prec, F64.emax;
    pose proof (digits2_pos_bound a Ht) as Hda;
    pose proof (digits2_pos_bound b Hb) as Hdb;
    pose proof (Pos2Z.is_pos (digits2_pos a)) as Hpa;
    pose proof (Pos2Z.is_pos (digits2_pos b)) as Hpb;
    set (e' := Z.min _ (0 - 0));
    assert (He : -105 <= e' <= 0) by (subst e'; lia);
    set (m' := match 0 - 0 - e' with
               | 0 => Zpos a | Zpos _ => Z.shiftl (Zpos a) (0 - 0 - e')
               | Zneg _ => 0 end);
    assert (Hm' : 0 <= m' < 2 ^ 158)
      by (subst m'; destruct (0 - 0 - e') as [| k | k] eqn:Ek;
          [lia | | lia];
          rewrite Z.shiftl_mul_pow2 by lia; rewrite <- Ek;
          assert (2 ^ (0 - 0 - e') <= 2 ^ 105)
            by (apply Z.pow_le_mono_r; lia);
          assert (0 < 2 ^ (0 - 0 - e')) by (apply Z.pow_pos_nonneg; lia);
          change (2 ^ 158) with (2 ^ 53 * 2 ^ 105); nia);
    rewrite div_eucl_div_mod;
    apply round_aux_finite;
    try lia;
    (split; [apply Z.div_pos; lia |]);
    (apply Z.le_lt_trans with m'; [| lia]);
    apply Z.div_le_upper_bound; nia.
Qed.

(** ** [propagate] with typed parameters *)

Lemma as_int_range (n : Z) :
  INT_MIN <= n <= INT_MAX -> as_int n = Ok n.
Proof.
  intros [Hl Hu]. unfold as_int.
  apply Z.leb_le in Hl. apply Z.leb_le in Hu. rewrite Hl, Hu. reflexivity.
Qed.

Lemma int_is_small (n : Z) : INT_MIN <= n <= INT_MAX -> Z.abs n < 2 ^ 53.
Proof. unfold INT_MIN, INT_MAX. lia. Qed.

Lemma as_double_int (n : Z) :
  Z.abs n < 2 ^ 53 -> as_double (PyInt n) = Ok (F64.of_Z n).
Proof.
  intros Hb. destruct (Z.eq_dec n 0) as [-> | Hn]; [reflexivity |].
  destruct (of_Z_small n Hn Hb) as (s & mz & ez & E).
  unfold as_double. rewrite E. reflexivity.
Qed.

Lemma as_double_exact (v : pyval) :
  exact_double v = true -> exists f, as_double v = Ok f.
Proof.
  destruct v as [t | f]; cbn [exact_double]; intros Hv.
  - apply Z.ltb_lt in Hv. exists (F64.of_Z t). apply as_double_int. exact Hv.
  - exists f. reflexivity.
Qed.

Lemma of_Z_nonzero (n : Z) :
  n <> 0 -> Z.abs n < 2 ^ 53 -> F64.is_zero (F64.of_Z n) = false.
Proof.
  intros Hn Hb. destruct (of_Z_small n Hn Hb) as (s & mz & ez & E).
  rewrite E. reflexivity.
Qed.

(** The quotient that Python rounds once is the quotient of the two
    converted doubles, as long as the conversions are exact. *)
Lemma truediv_exact (time_span : pyval) (f : float) (n : Z) :
  exact_double time_span = true -> as_double time_span = Ok f ->
  n <> 0 -> Z.abs n < 2 ^ 53 ->
  py_truediv time_span (PyInt n) = Ok (PyFloat (F64.div f (F64.of_Z n))).
Proof.
  intros Hv Ef Hn Hb. destruct time_span as [t | ts]; cbn [exact_double] in Hv.
  - apply Z.ltb_lt in Hv. rewrite (as_double_int t Hv) in Ef.
    inversion Ef. subst f.
    unfold py_truediv.
    replace (n =? 0) with false by (symmetry; apply Z.eqb_neq; exact Hn).
    rewrite (ratio_finite t n Hn Hv Hb), (ratio_is_div t n Hn Hv Hb).
    reflexivity.
  - inversion Ef. subst f.
    change (py_truediv (PyFloat ts) (PyInt n)) with
      (rbind (as_double (PyInt n)) (fun fb =>
         if F64.is_zero fb then Raise ZeroDivisionError
         else Ok (PyFloat (F64.div ts fb)))).
    rewrite (as_double_int n Hb). cbn [rbind].
    rewrite (of_Z_nonzero n Hn Hb). reflexivity.
Qed.

Lemma propagate_exact `{Libm} (time_span : pyval) (f : float) (n : Z)
  (p : Planet) :
  exact_double time_span = true -> as_double time_span = Ok f ->
  n <> 0 -> Z.abs n < 2 ^ 53 ->
  propagate time_span (PyInt n) p =
  for_ (c_range n) (fun _ => single_step (PyFloat (F64.div f (F64.of_Z n)))) p.
Proof.
  intros Hv Ef Hn Hb. unfold propagate, bind, expr, lift, lift2, num.
  cbn [rbind]. rewrite (truediv_exact time_span f n Hv Ef Hn Hb). reflexivity.
Qed.

(** X10. The [propagate] with typed parameters is the [propagate] of the
    first cell: for a [time_span] that is a float or an [int] below
    [2 ** 53] in absolute value, it leaves the same body and the same
    outcome on every [num_steps] that fits a C [int], zero and negative
    ones included; on any other [num_steps] it raises [OverflowError] and
    takes no step. *)
Theorem typed_propagate_is_propagate `{Libm}
  (p : Planet) (time_span : pyval) (num_steps : Z) :
  exact_double time_span = true ->
  Typed.propagate time_span num_steps p =
  if (INT_MIN <=? num_steps) && (num_steps <=? INT_MAX)
  then propagate time_span (PyInt num_steps) p
  else (p, Raise OverflowError).
Proof.
  intros Hv. destruct (as_double_exact _ Hv) as [f Ef].
  unfold Typed.propagate, bind, lift. rewrite Ef.
  unfold as_int.
  destruct ((INT_MIN <=? num_steps) && (num_steps <=? INT_MAX)) eqn:Hr;
    [| reflexivity].
  apply andb_prop in Hr. destruct Hr as [Hl Hu].
  apply Z.leb_le in Hl. apply Z.leb_le in Hu.
  destruct (num_steps =? 0) eqn:Hz.
  - apply Z.eqb_eq in Hz. subst num_steps.
    unfold propagate, bind, expr, lift2, num. cbn [rbind].
    rewrite truediv_by_int_zero. reflexivity.
  - apply Z.eqb_neq in Hz.
    rewrite (propagate_exact time_span f);
      [reflexivity | exact Hv | exact Ef | exact Hz
      | apply int_is_small; split; assumption].
Qed.

Lemma typed_propagate_is_propagate_witness :
  Typed.propagate (PyInt 1) 100 planet0 =
  propagate (PyInt 1) (PyInt 100) planet0.
Proof.
  rewrite (typed_propagate_is_propagate planet0 (PyInt 1) 100 eq_refl).
  reflexivity.
Defined.

(** An [int] that the conversion rounds is divided after the rounding:
    the bound on [time_span] cannot be dropped. *)
Example typed_propagate_rounds_twice :
  Typed.propagate (PyInt (2 ^ 53 + 1)) 3 planet0 <>
  propagate (PyInt (2 ^ 53 + 1)) (PyInt 3) planet0.
Proof. vm_compute. discriminate. Qed.

(** X11. Under [cdivision(True)] the check of the divisor is gone: for a
    [time_span] as above, [propagate(planet, time_span, 0)] returns
    normally and leaves the body untouched, where the first cell raises
    [ZeroDivisionError]; on every other [num_steps] that fits a C [int]
    the cell does what the first cell does, and on one that does not it
    raises [OverflowError]. *)
Theorem cdivision_propagate_accepts_zero `{Libm}
  (p : Planet) (time_span : pyval) (num_steps : Z) :
  exact_double time_span = true ->
  CDivision.propagate time_span num_steps p =
  if num_steps =? 0 then (p, Ok tt)
  else if (INT_MIN <=? num_steps) && (num_steps <=? INT_MAX)
  then propagate time_span (PyInt num_steps) p
  else (p, Raise OverflowError).
Proof.
  intros Hv. destruct (as_double_exact _ Hv) as [f Ef].
  unfold CDivision.propagate, bind, lift. rewrite Ef.
  destruct (num_steps =? 0) eqn:Hz.
  - apply Z.eqb_eq in Hz. subst num_steps. reflexivity.
  - apply Z.eqb_neq in Hz. unfold as_int.
    destruct ((INT_MIN <=? num_steps) && (num_steps <=? INT_MAX)) eqn:Hr;
      [| reflexivity].
    apply andb_prop in Hr. destruct Hr as [Hl Hu].
    apply Z.leb_le in Hl. apply Z.leb_le in Hu.
    rewrite (propagate_exact time_span f);
      [reflexivity | exact Hv | exact Ef | exact Hz
      | apply int_is_small; split; assumption].
Qed.

Lemma cdivision_propagate_accepts_zero_witness :
  CDivision.propagate (PyInt 1) 0 planet0 = (planet0, Ok tt) /\
  propagate (PyInt 1) (PyInt 0) planet0 = (planet0, Raise ZeroDivisionError).
Proof.
  split.
  - apply (cdivision_propagate_accepts_zero planet0 (PyInt 1) 0). reflexivity.
  - reflexivity.
Defined.

(** ** The steps on C doubles *)

Example cdef_planet_new :
  rbind (Cdef.Planet_new []) (fun p => Ok (box p)) = Ok planet0f.
Proof. reflexivity. Qed.

Lemma same_double_eq (a b : float) : same_double a b = true -> a = b.
Proof.
  destruct a as [s | s | | s m e], b as [t | t | | t n k];
    cbn [same_double]; try discriminate; intros E.
  - apply eqb_prop in E. subst t. reflexivity.
  - apply eqb_prop in E. subst t. reflexivity.
  - reflexivity.
  - apply andb_prop in E. destruct E as [E Ek].
    apply andb_prop in E. destruct E as [Es Em].
    apply eqb_prop in Es. apply Pos.eqb_eq in Em. apply Z.eqb_eq in Ek.
    subst. reflexivity.
Qed.

Lemma same_pow_ok `{Libm} `{Compiled} (a : float) (n : positive) (v : pyval) :
  same_pow a n = true -> py_pow (PyFloat a) n = Ok v ->
  v = PyFloat (Cdef.pow a (F64.of_Z (Zpos n))).
Proof.
  unfold same_pow. intros E Ev. rewrite Ev in E.
  destruct v as [i | f]; [discriminate |].
  apply same_double_eq in E. subst f. reflexivity.
Qed.

Lemma py_add_floats (a b : float) (v : pyval) :
  py_add (PyFloat a) (PyFloat b) = Ok v -> v = PyFloat (F64.add a b).
Proof. intros E. inversion E. reflexivity. Qed.

Lemma py_mul_floats (a b : float) (v : pyval) :
  py_mul (PyFloat a) (PyFloat b) = Ok v -> v = PyFloat (F64.mul a b).
Proof. intros E. inversion E. reflexivity. Qed.

Lemma py_neg_float (a : float) (v : pyval) :
  py_neg (PyFloat a) = Ok v -> v = PyFloat (F64.opp a).
Proof. intros E. inversion E. reflexivity. Qed.

Lemma py_truediv_floats (a b : float) (v : pyval) :
  py_truediv (PyFloat a) (PyFloat b) = Ok v -> v = PyFloat (F64.div a b).
Proof.
  intros E. apply py_truediv_float_r in E. destruct E as (fa & Ea & _ & ->).
  inversion Ea. reflexivity.
Qed.

Lemma math_sqrt_floats (a : float) (v : pyval) :
  math_sqrt (PyFloat a) = Ok v -> v = PyFloat (F64.sqrt a).
Proof.
  unfold math_sqrt. cbn [as_double rbind].
  destruct (F64.is_nan (F64.sqrt a) && negb (F64.is_nan a)); [discriminate |].
  destruct (F64.is_inf (F64.sqrt a) && F64.is_finite a); [discriminate |].
  intros E. inversion E. reflexivity.
Qed.

Lemma c_step_refines `{Libm} `{Compiled}
  (p : Cdef.Planet) (dt : float) (q : Planet) :
  same_pows p = true ->
  single_step (PyFloat dt) (box p) = (q, Ok tt) ->
  q = box (Cdef.single_step dt p).
Proof.
  intros L E. apply single_step_trace in E.
  destruct E as [xx yy zz s1 s2 r r3 nx ny nz Fx Fy Fz
                 dx dy dz x' y' z' gx gy gz hx hy hz vx' vy' vz'
                 Exx Eyy Es1 Ezz Es2 Er Er3 Enx EFx Eny EFy Enz EFz
                 Edx Ex' Edy Ey' Edz Ez' Egx Ehx Evx Egy Ehy Evy Egz Ehz Evz].
  unfold same_pows, Cdef.radius in L.
  apply andb_prop in L. destruct L as [L L3].
  apply andb_prop in L. destruct L as [L Lz].
  apply andb_prop in L. destruct L as [Lx Ly].
  destruct p as [x0 y0 z0 vx0 vy0 vz0 m0].
  cbn [box x y z vx vy vz m Cdef.x Cdef.y Cdef.z Cdef.vx Cdef.vy Cdef.vz
       Cdef.m] in *.
  apply (same_pow_ok _ _ _ Lx) in Exx. subst xx.
  apply (same_pow_ok _ _ _ Ly) in Eyy. subst yy.
  apply (same_pow_ok _ _ _ Lz) in Ezz. subst zz.
  apply py_add_floats in Es1. subst s1.
  apply py_add_floats in Es2. subst s2.
  apply math_sqrt_floats in Er. subst r.
  apply (same_pow_ok _ _ _ L3) in Er3. subst r3.
  apply py_neg_float in Enx. subst nx.
  apply py_neg_float in Eny. subst ny.
  apply py_neg_float in Enz. subst nz.
  apply py_truediv_floats in EFx. subst Fx.
  apply py_truediv_floats in EFy. subst Fy.
  apply py_truediv_floats in EFz. subst Fz.
  apply py_mul_floats in Edx. subst dx.
  apply py_mul_floats in Edy. subst dy.
  apply py_mul_floats in Edz. subst dz.
  apply py_add_floats in Ex'. subst x'.
  apply py_add_floats in Ey'. subst y'.
  apply py_add_floats in Ez'. subst z'.
  apply py_mul_floats in Egx. subst gx.
  apply py_mul_floats in Egy. subst gy.
  apply py_mul_floats in Egz. subst gz.
  apply py_truediv_floats in Ehx. subst hx.
  apply py_truediv_floats in Ehy. subst hy.
  apply py_truediv_floats in Ehz. subst hz.
  apply py_add_floats in Evx. subst vx'.
  apply py_add_floats in Evy. subst vy'.
  apply py_add_floats in Evz. subst vz'.
  reflexivity.
Qed.

Lemma c_step_def_refines `{Libm} `{Compiled}
  (p : Cdef.Planet) (dt : float) (q : Planet) :
  same_pows p = true ->
  single_step (PyFloat dt) (box p) = (q, Ok tt) ->
  Cdef.single_step_def dt p = (Cdef.single_step dt p, Ok tt).
Proof.
  intros L E. apply single_step_trace in E.
  destruct E as [xx yy zz s1 s2 r r3 nx ny nz Fx Fy Fz
                 dx dy dz x' y' z' gx gy gz hx hy hz vx' vy' vz'
                 Exx Eyy Es1 Ezz Es2 Er _ _ _ _ _ _ _ _ _ _ _ _ _ _ _ _ _ _
                 _ _ _ _].
  unfold same_pows in L.
  apply andb_prop in L. destruct L as [L _].
  apply andb_prop in L. destruct L as [L Lz].
  apply andb_prop in L. destruct L as [Lx Ly].
  destruct p as [x0 y0 z0 vx0 vy0 vz0 m0].
  cbn [box x y z Cdef.x Cdef.y Cdef.z] in *.
  apply (same_pow_ok _ _ _ Lx) in Exx. subst xx.
  apply (same_pow_ok _ _ _ Ly) in Eyy. subst yy.
  apply (same_pow_ok _ _ _ Lz) in Ezz. subst zz.
  apply py_add_floats in Es1. subst s1.
  apply py_add_floats in Es2. subst s2.
  pose proof (math_sqrt_floats _ _ Er) as Hr. subst r.
  unfold Cdef.single_step_def. cbn [Cdef.x Cdef.y Cdef.z].
  rewrite Er. reflexivity.
Qed.



Lemma c_steps_refine `{Libm} `{Compiled}
  (l : list Z) (p : Cdef.Planet) (dt : float) (q : Planet) :
  same_pows_along (length l) dt p = true ->
  for_ l (fun _ => single_step (PyFloat dt)) (box p) = (q, Ok tt) ->
  box (fold_left (fun planet _ => Cdef.single_step dt planet) l p) = q.
Proof.
  revert p. induction l as [| j l IH]; intros p L E.
  - inversion E. reflexivity.
  - cbn [for_ fold_left length same_pows_along] in *. unfold bind in E.
    apply andb_prop in L. destruct L as [L1 L].
    destruct (single_step (PyFloat dt) (box p)) as [q1 [[] | e]] eqn:E1;
      [| discriminate].
    apply (c_step_refines p dt q1 L1) in E1. subst q1.
    apply IH; assumption.
Qed.

Lemma length_c_range (n : Z) : length (c_range n) = Z.to_nat n.
Proof. unfold c_range. rewrite length_map, length_seq. reflexivity. Qed.



Lemma binary_round_opp (s : bool) (m : positive) (e : Z) :
  binary_round F64.prec F64.emax (negb s) m e =
  F64.opp (binary_round F64.prec F64.emax s m e).
Proof.
  unfold binary_round.
  destruct (shl_align m e _) as [mz ez].
  unfold binary_round_aux.
  destruct (shr_fexp F64.prec F64.emax (Zpos mz) ez loc_Exact) as [mrs1 e1].
  destruct (shr_fexp F64.prec F64.emax _ e1 loc_Exact) as [mrs2 e2].
  destruct (shr_m mrs2); [reflexivity | | reflexivity].
  destruct (e2 <=? F64.emax - F64.prec); reflexivity.
Qed.

Lemma rounded_pow_laws : @libm_c99 rounded_pow.
Proof.
  split; constructor; try reflexivity; intros m e;
    unfold Cdef.pow, cc_pow, rounded_pow, c99_pow, exact_pow.
  change (integral (F64.of_Z 3)) with (Some 3%positive).
  change (F64.is_odd_integer (F64.of_Z 3)) with true.
  cbn [fst andb]. change (Z.odd 3) with true.
  apply (binary_round_opp false).
Qed.

(** ** At the origin *)

Lemma nan_increment (v F dt mass : float) :
  F64.is_nan F = true ->
  F64.is_nan (F64.add v (F64.div (F64.mul F dt) mass)) = true.
Proof.
  destruct F; try discriminate. intros _.
  change (F64.mul S754_nan dt) with S754_nan.
  change (F64.div S754_nan mass) with S754_nan.
  rewrite add_nan_r. reflexivity.
Qed.

(** X14. The compiled steps have no error at the origin: when the compiled
    [pow] has the special values of the C standard at the exponents 2 and 3
    and is symmetric in the sign of its base, and the three coordinates are
    zeros, the step with [r**3] and the step with [r*r*r] both return, and
    leave NaN in the three components of the velocity, where the first cell
    raises [ZeroDivisionError]. *)
Theorem c_single_step_at_the_origin `{Compiled} (p : Cdef.Planet) (dt : float) :
  libm_c99 ->
  F64.is_zero (Cdef.x p) && F64.is_zero (Cdef.y p) && F64.is_zero (Cdef.z p)
    = true ->
  (F64.is_nan (Cdef.vx (Cdef.single_step dt p)) = true /\
   F64.is_nan (Cdef.vy (Cdef.single_step dt p)) = true /\
   F64.is_nan (Cdef.vz (Cdef.single_step dt p)) = true) /\
  (F64.is_nan (Cdef.vx (Cdef.single_step_nogil dt p)) = true /\
   F64.is_nan (Cdef.vy (Cdef.single_step_nogil dt p)) = true /\
   F64.is_nan (Cdef.vz (Cdef.single_step_nogil dt p)) = true).
Proof.
  intros [[_ _ Hz2 _ _] [_ _ Hz3 _ _]] Hp.
  destruct p as [x0 y0 z0 vx0 vy0 vz0 m0].
  cbn [Cdef.x Cdef.y Cdef.z] in Hp.
  apply andb_prop in Hp. destruct Hp as [Hp Hz].
  apply andb_prop in Hp. destruct Hp as [Hx Hy].
  destruct x0 as [sx | | |]; try discriminate.
  destruct y0 as [sy | | |]; try discriminate.
  destruct z0 as [sz | | |]; try discriminate.
  unfold Cdef.single_step, Cdef.single_step_nogil.
  cbn [Cdef.x Cdef.y Cdef.z Cdef.vx Cdef.vy Cdef.vz Cdef.m
       Cdef.set_x Cdef.set_y Cdef.set_z Cdef.set_vx Cdef.set_vy Cdef.set_vz].
  rewrite !Hz2.
  change (F64.is_odd_integer (F64.of_Z 2)) with false.
  rewrite !andb_false_r.
  change (F64.sqrt (F64.add (F64.add (S754_zero false) (S754_zero false))
                      (S754_zero false))) with (S754_zero false).
  rewrite Hz3. cbn [andb].
  change (F64.mul (F64.mul (S754_zero false) (S754_zero false))
            (S754_zero false)) with (S754_zero false).
  repeat split; apply nan_increment; destruct sx, sy, sz; reflexivity.
Qed.

Lemma c_single_step_at_the_origin_witness :
  F64.is_nan
    (Cdef.vx (@Cdef.single_step rounded_pow (F64.ratio 1 100)
                (Cdef.mkPlanet F64.zero F64.zero F64.zero F64.zero F64.zero
                   F64.one F64.one))) = true.
Proof.
  apply (@c_single_step_at_the_origin rounded_pow
           (Cdef.mkPlanet F64.zero F64.zero F64.zero F64.zero F64.zero
              F64.one F64.one) (F64.ratio 1 100)).
  - exact rounded_pow_laws.
  - reflexivity.
Defined.

(** ** [r*r*r] is not [r**3] *)

(** X15. Replacing [r**3] by [r*r*r] changes results: with a correctly
    rounded [pow], there is a body (at rest at [x = 1.2]) on which the two
    compiled steps leave different velocities, [r*r*r] being rounded
    twice. *)
Theorem nogil_step_differs_from_pow_step :
  exists (p : Cdef.Planet) (dt : float),
    Cdef.vx (@Cdef.single_step_nogil rounded_pow dt p) <>
    Cdef.vx (@Cdef.single_step rounded_pow dt p).
Proof.
  exists (Cdef.mkPlanet (F64.ratio 12 10) F64.zero F64.zero F64.zero F64.zero
            F64.zero F64.one), (F64.ratio 1 100).
  vm_compute. discriminate.
Qed.

(** * The fall from rest *)

(** ** Powers of two *)

Lemma bpow_pos (e : Z) : (0 < bpow e)%R.
Proof. apply powerRZ_lt. lra. Qed.

Lemma bpow_add (a b : Z) : bpow (a + b) = (bpow a * bpow b)%R.
Proof. apply powerRZ_add. lra. Qed.

Lemma bpow_IZR (k : Z) : 0 <= k -> bpow k = IZR (2 ^ k).
Proof.
  intros Hk. unfold bpow.
  rewrite <- (Z2Nat.id k Hk) at 1.
  rewrite <- pow_powerRZ, pow_IZR, Z2Nat.id by exact Hk. reflexivity.
Qed.

Lemma bpow_ge_1 (k : Z) : 0 <= k -> (1 <= bpow k)%R.
Proof.
  intros Hk. rewrite bpow_IZR by exact Hk. apply IZR_le.
  assert (0 < 2 ^ k) by (apply Z.pow_pos_nonneg; lia). lia.
Qed.

Lemma bpow_le (a b : Z) : a <= b -> (bpow a <= bpow b)%R.
Proof.
  intros H. replace b with (a + (b - a)) by lia. rewrite bpow_add.
  pose proof (bpow_pos a). pose proof (bpow_ge_1 (b - a) ltac:(lia)). nra.
Qed.

Lemma bpow_1 : bpow 1 = 2%R.
Proof. unfold bpow. simpl. lra. Qed.

Lemma bpow_0 : bpow 0 = 1%R.
Proof. reflexivity. Qed.

Lemma bpow_lt (a b : Z) : a < b -> (bpow a < bpow b)%R.
Proof.
  intros H. replace b with (a + 1 + (b - a - 1)) by lia.
  rewrite !bpow_add.
  pose proof (bpow_pos a). pose proof (bpow_ge_1 (b - a - 1) ltac:(lia)).
  rewrite bpow_1. nra.
Qed.

Lemma bpow_lt_inv (a b : Z) : (bpow a < bpow b)%R -> a < b.
Proof.
  intros H. destruct (Z_lt_le_dec a b) as [Hl | Hl]; [exact Hl |].
  pose proof (bpow_le b a Hl). lra.
Qed.

Lemma bpow_le_inv (a b : Z) : (bpow a <= bpow b)%R -> a <= b.
Proof.
  intros H. destruct (Z_le_gt_dec a b) as [Hl | Hl]; [exact Hl |].
  assert (Hb : b < a) by lia. pose proof (bpow_lt b a Hb). lra.
Qed.

(** ** Digits *)

Lemma digits_bounds (p : positive) :
  2 ^ (Zpos (digits2_pos p) - 1) <= Zpos p < 2 ^ Zpos (digits2_pos p).
Proof.
  rewrite digits2_pos_size.
  pose proof (Pos.size_le p) as Hle. pose proof (Pos.size_gt p) as Hgt.
  apply Pos2Z.pos_le_pos in Hle. apply Pos2Z.pos_lt_pos in Hgt.
  rewrite Pos2Z.inj_pow in Hle, Hgt.
  change (Zpos p~0) with (2 * Zpos p) in Hle.
  split; [| exact Hgt].
  replace (2 ^ Zpos (Pos.size p)) with (2 * 2 ^ (Zpos (Pos.size p) - 1)) in Hle.
  - lia.
  - rewrite <- Z.pow_succ_r by lia. f_equal. lia.
Qed.

Lemma digits_ge (p : positive) (k : Z) :
  0 <= k -> 2 ^ k <= Zpos p -> k + 1 <= Zpos (digits2_pos p).
Proof.
  intros Hk H. pose proof (digits_bounds p) as [_ Hu].
  destruct (Z_lt_le_dec (Zpos (digits2_pos p)) (k + 1)) as [Hl | Hl];
    [| exact Hl].
  exfalso.
  assert (2 ^ Zpos (digits2_pos p) <= 2 ^ k) by (apply Z.pow_le_mono_r; lia).
  lia.
Qed.

Lemma digits_le (p : positive) (k : Z) :
  0 <= k -> Zpos p < 2 ^ k -> Zpos (digits2_pos p) <= k.
Proof.
  intros Hk H. pose proof (digits_bounds p) as [Hl _].
  destruct (Z_le_gt_dec (Zpos (digits2_pos p)) k) as [Hd | Hd]; [exact Hd |].
  exfalso.
  assert (2 ^ k <= 2 ^ (Zpos (digits2_pos p) - 1))
    by (apply Z.pow_le_mono_r; lia).
  lia.
Qed.

Lemma Zdigits2_bounds (m : Z) :
  0 <= m -> m < 2 ^ Zdigits2 m /\ (0 < m -> 2 ^ (Zdigits2 m - 1) <= m).
Proof.
  intros Hm. destruct m as [| p | p]; [| | lia].
  - split; [reflexivity | lia].
  - cbn [Zdigits2]. pose proof (digits_bounds p). split; [lia | intros _; lia].
Qed.

Lemma Zdigits2_nonneg (m : Z) : 0 <= Zdigits2 m.
Proof. destruct m; cbn [Zdigits2]; lia. Qed.

Lemma Zdigits2_le (m k : Z) : 0 <= k -> 0 <= m < 2 ^ k -> Zdigits2 m <= k.
Proof.
  intros Hk [H0 Hm]. destruct m as [| p | p]; [exact Hk | | lia].
  apply digits_le; assumption.
Qed.

Lemma Zdigits2_ge (m k : Z) : 0 <= k -> 2 ^ k <= m -> k + 1 <= Zdigits2 m.
Proof.
  intros Hk Hm. assert (0 < 2 ^ k) by (apply Z.pow_pos_nonneg; lia).
  destruct m as [| p | p]; [lia | | lia].
  apply digits_ge; assumption.
Qed.

(** ** Shifting a mantissa to the right *)

Lemma iter_pos_nat {A : Type} (f : A -> A) (p : positive) (a : A) :
  iter_pos f p a = Nat.iter (Pos.to_nat p) f a.
Proof.
  revert a. induction p as [p IH | p IH |]; intros a; cbn [iter_pos].
  - rewrite !IH, Pos2Nat.inj_xI.
    change (S (2 * Pos.to_nat p)) with (S (Pos.to_nat p + (Pos.to_nat p + 0)))%nat.
    rewrite Nat.add_0_r, <- Nat.add_succ_r, Nat.iter_add, Nat.iter_succ_r.
    reflexivity.
  - rewrite !IH, Pos2Nat.inj_xO.
    change (2 * Pos.to_nat p)%nat with (Pos.to_nat p + (Pos.to_nat p + 0))%nat.
    rewrite Nat.add_0_r, Nat.iter_add. reflexivity.
  - reflexivity.
Qed.

Lemma shr_1_div2 (mrs : shr_record) :
  0 <= shr_m mrs -> shr_m (shr_1 mrs) = shr_m mrs / 2.
Proof.
  destruct mrs as [m r s]. cbn [shr_m]. intros Hm.
  rewrite <- Z.div2_div.
  destruct m as [| q | q]; [reflexivity | | lia].
  destruct q; reflexivity.
Qed.

Lemma iter_shr_1_div (n : nat) (mrs : shr_record) :
  0 <= shr_m mrs ->
  shr_m (Nat.iter n shr_1 mrs) = shr_m mrs / 2 ^ Z.of_nat n.
Proof.
  revert mrs. induction n as [| n IH]; intros mrs Hm.
  - cbn [Nat.iter nat_rect]. rewrite Z.div_1_r. reflexivity.
  - rewrite Nat.iter_succ_r, IH by (apply shr_1_le; exact Hm).
    rewrite shr_1_div2 by exact Hm.
    rewrite Z.div_div by lia.
    rewrite Nat2Z.inj_succ, Z.pow_succ_r by lia. reflexivity.
Qed.

Lemma shr_1_exact (m : Z) :
  0 <= m -> m mod 2 = 0 ->
  shr_1 {| shr_m := m; shr_r := false; shr_s := false |} =
  {| shr_m := m / 2; shr_r := false; shr_s := false |}.
Proof.
  intros Hm He. rewrite <- Z.div2_div.
  destruct m as [| q | q]; [reflexivity | | lia].
  destruct q as [q | q |]; try reflexivity.
  - exfalso. change (Zpos q~1) with (2 * Zpos q + 1) in He.
    rewrite Z.add_comm, Z.mul_comm, Z.mod_add in He by lia. discriminate.
  - discriminate.
Qed.

Lemma iter_shr_1_exact (n : nat) (m : Z) :
  0 <= m -> m mod 2 ^ Z.of_nat n = 0 ->
  Nat.iter n shr_1 {| shr_m := m; shr_r := false; shr_s := false |} =
  {| shr_m := m / 2 ^ Z.of_nat n; shr_r := false; shr_s := false |}.
Proof.
  revert m. induction n as [| n IH]; intros m Hm He.
  - cbn [Nat.iter nat_rect]. rewrite Z.div_1_r. reflexivity.
  - rewrite Nat2Z.inj_succ, Z.pow_succ_r in He by lia.
    assert (Hp : 0 < 2 ^ Z.of_nat n) by (apply Z.pow_pos_nonneg; lia).
    apply Z.mod_divide in He; [| lia]. destruct He as [c Hc].
    rewrite Nat.iter_succ_r, shr_1_exact.
    + rewrite IH.
      * rewrite Z.div_div by lia.
        rewrite Nat2Z.inj_succ, Z.pow_succ_r by lia. reflexivity.
      * apply Z.div_pos; lia.
      * subst m. replace (c * (2 * 2 ^ Z.of_nat n)) with (c * 2 ^ Z.of_nat n * 2)
          by ring.
        rewrite Z.div_mul by lia. apply Z.mod_mul. lia.
    + exact Hm.
    + subst m. replace (c * (2 * 2 ^ Z.of_nat n)) with (c * 2 ^ Z.of_nat n * 2)
        by ring.
      apply Z.mod_mul. lia.
Qed.

Lemma shr_m_of_loc (m : Z) (l : location) : shr_m (shr_record_of_loc m l) = m.
Proof. destruct l as [| []]; reflexivity. Qed.

(** The first shift of [binary_round_aux]. *)
Lemma shr_fexp_spec (m e : Z) (l : location) :
  0 <= m ->
  let n := fexp F64.prec F64.emax (Zdigits2 m + e) - e in
  (n <= 0 ->
   shr_fexp F64.prec F64.emax m e l = (shr_record_of_loc m l, e)) /\
  (0 < n ->
   exists mrs,
     shr_fexp F64.prec F64.emax m e l = (mrs, e + n) /\
     shr_m mrs = m / 2 ^ n /\
     (l = loc_Exact -> m mod 2 ^ n = 0 ->
      loc_of_shr_record mrs = loc_Exact)).
Proof.
  intros Hm n. unfold shr_fexp, shr. fold n.
  split; intros Hn.
  - destruct n; [reflexivity | lia | reflexivity].
  - destruct n as [| k | k] eqn:En; try lia.
    eexists. split; [reflexivity |].
    rewrite iter_pos_nat.
    split.
    + rewrite iter_shr_1_div by (rewrite shr_m_of_loc; lia).
      rewrite shr_m_of_loc, positive_nat_Z. reflexivity.
    + intros -> He. cbn [shr_record_of_loc].
      rewrite iter_shr_1_exact; [reflexivity | lia |].
      rewrite positive_nat_Z. exact He.
Qed.

(** ** Rounding *)

Lemma round_aux_finish (s : bool) (m e : Z) (l : location) :
  binary_round_aux F64.prec F64.emax s m e l =
  let '(mrs1, e1) := shr_fexp F64.prec F64.emax m e l in
  finish s (round_nearest_even (shr_m mrs1) (loc_of_shr_record mrs1)) e1.
Proof. reflexivity. Qed.

Lemma fexp_eq (k : Z) : fexp F64.prec F64.emax k = Z.max (k - 53) (-1074).
Proof. reflexivity. Qed.

Lemma valid_intro (s : bool) (m : positive) (e : Z) :
  -1074 <= e <= 971 ->
  (Zpos (digits2_pos m) = 53 \/ (Zpos (digits2_pos m) <= 53 /\ e = -1074)) ->
  valid (S754_finite s m e) = true.
Proof.
  intros He Hd. unfold valid, valid_binary, bounded, canonical_mantissa.
  rewrite fexp_eq. apply andb_true_intro. split.
  - apply Z.eqb_eq. lia.
  - apply Z.leb_le. unfold F64.emax, F64.prec. lia.
Qed.

Lemma finish_spec (s : bool) (mr e1 : Z) :
  0 <= mr <= 2 ^ 53 -> -1074 <= e1 -> (2 ^ 52 <= mr \/ e1 = -1074) ->
  result_of s mr e1 (finish s mr e1).
Proof.
  intros Hm He Hr. unfold finish, result_of.
  destruct (shr_fexp_spec mr e1 loc_Exact (proj1 Hm)) as [H0 H1].
  rewrite fexp_eq in H0, H1.
  destruct (Z.eq_dec mr 0) as [E0 | N0].
  - left. split; [exact E0 |]. subst mr. cbn [Zdigits2] in H0.
    rewrite (H0 ltac:(lia)). reflexivity.
  - right. split; [lia |].
    pose proof (Zdigits2_bounds mr (proj1 Hm)) as [Hq1 Hq2].
    destruct (Z.eq_dec mr (2 ^ 53)) as [E53 | N53].
    + assert (Hd : Zdigits2 mr = 54).
      { pose proof (Zdigits2_ge mr 53 ltac:(lia) ltac:(lia)).
        pose proof (Zdigits2_le mr 54 ltac:(lia) ltac:(lia)). lia. }
      rewrite Hd in H1.
      replace (Z.max (54 + e1 - 53) (-1074) - e1) with 1 in H1 by lia.
      destruct (H1 ltac:(lia)) as (mrs & E & Em & _).
      rewrite E, Em, E53. change (2 ^ 53 / 2 ^ 1) with (Zpos 4503599627370496).
      destruct (e1 + 1 <=? F64.emax - F64.prec) eqn:Eo.
      * right. exists 4503599627370496%positive, (e1 + 1).
        apply Z.leb_le in Eo. unfold F64.emax, F64.prec in Eo.
        split; [reflexivity |]. split.
        -- apply valid_intro; [lia | left; reflexivity].
        -- rewrite bpow_add, bpow_1.
           change (IZR (Zpos 4503599627370496)) with (IZR (2 ^ 52)).
           change (IZR (2 ^ 53)) with (IZR (2 * 2 ^ 52)).
           rewrite mult_IZR. lra.
      * left. split; [reflexivity |].
        apply Z.leb_gt in Eo. unfold F64.emax, F64.prec in Eo.
        rewrite <- (bpow_IZR 53) by lia. rewrite <- bpow_add.
        apply bpow_le. lia.
    + assert (Hd : Zdigits2 mr <= 53)
        by (apply Zdigits2_le; lia).
      rewrite (H0 ltac:(lia)). cbn [shr_record_of_loc shr_m].
      destruct mr as [| q | q]; [lia | | lia].
      cbn [Zdigits2] in Hd.
      destruct (e1 <=? F64.emax - F64.prec) eqn:Eo.
      * right. exists q, e1.
        apply Z.leb_le in Eo. unfold F64.emax, F64.prec in Eo.
        split; [reflexivity |]. split; [| reflexivity].
        apply valid_intro; [lia |].
        destruct Hr as [Hr | Hr].
        -- left. pose proof (digits_ge q 52 ltac:(lia) Hr). lia.
        -- right. split; assumption.
      * left. split; [reflexivity |].
        apply Z.leb_gt in Eo. unfold F64.emax, F64.prec in Eo.
        destruct Hr as [Hr | Hr]; [| lia].
        apply Rle_trans with (IZR (2 ^ 52) * bpow e1)%R.
        -- rewrite <- (bpow_IZR 52) by lia. rewrite <- bpow_add.
           apply bpow_le. lia.
        -- apply Rmult_le_compat_r; [left; apply bpow_pos |].
           apply IZR_le. exact Hr.
Qed.

Lemma loc_of_record_of_loc (m : Z) (l : location) :
  loc_of_shr_record (shr_record_of_loc m l) = l.
Proof. destruct l as [| []]; reflexivity. Qed.

Lemma round_nearest_even_cases (m : Z) (l : location) :
  round_nearest_even m l = m \/ round_nearest_even m l = m + 1.
Proof.
  destruct l as [| []]; cbn [round_nearest_even]; auto.
  destruct (Z.even m); auto.
Qed.

Lemma round_aux_spec (s : bool) (m e : Z) (l : location) :
  0 <= m ->
  let n := fexp F64.prec F64.emax (Zdigits2 m + e) - e in
  0 <= n ->
  exists mr : Z,
    (mr = m / 2 ^ n \/ mr = m / 2 ^ n + 1) /\
    (l = loc_Exact -> m mod 2 ^ n = 0 -> mr = m / 2 ^ n) /\
    (2 ^ 52 <= m / 2 ^ n \/ e + n = -1074) /\
    result_of s mr (e + n) (binary_round_aux F64.prec F64.emax s m e l).
Proof.
  intros Hm n Hn. rewrite round_aux_finish.
  pose proof (Zdigits2_bounds m Hm) as [Hhi Hlo].
  pose proof (Zdigits2_nonneg m) as HD.
  set (D := Zdigits2 m) in *.
  assert (En : n = Z.max (D + e - 53) (-1074) - e)
    by (subst n; rewrite fexp_eq; reflexivity).
  assert (Hp : 0 < 2 ^ n) by (apply Z.pow_pos_nonneg; lia).
  assert (H1 : 0 <= m / 2 ^ n < 2 ^ 53).
  { split; [apply Z.div_pos; lia |].
    apply Z.div_lt_upper_bound; [exact Hp |].
    rewrite <- Z.pow_add_r by lia.
    apply Z.lt_le_trans with (2 ^ D); [exact Hhi |].
    apply Z.pow_le_mono_r; lia. }
  assert (H2 : 2 ^ 52 <= m / 2 ^ n \/ e + n = -1074).
  { destruct (Z_le_gt_dec (D + e - 53) (-1074)) as [Hs | Hs]; [right; lia |].
    left. apply Z.div_le_lower_bound; [exact Hp |].
    rewrite <- Z.pow_add_r by lia.
    replace (n + 52) with (D - 1) by lia. apply Hlo.
    destruct (Z.eq_dec m 0) as [-> | N]; [| lia].
    subst D. cbn [Zdigits2] in *. lia. }
  destruct (shr_fexp_spec m e l Hm) as [H0 Hs]. fold D in H0, Hs.
  fold n in H0, Hs.
  assert (Hfin : forall mr,
             (mr = m / 2 ^ n \/ mr = m / 2 ^ n + 1) ->
             result_of s mr (e + n) (finish s mr (e + n))).
  { intros mr Hmr. apply finish_spec; lia. }
  destruct (Z.eq_dec n 0) as [E0 | N0].
  - rewrite (H0 ltac:(lia)). rewrite shr_m_of_loc, loc_of_record_of_loc.
    rewrite E0 in *. rewrite Z.pow_0_r, Z.div_1_r in *.
    rewrite Z.add_0_r in *.
    exists (round_nearest_even m l).
    split; [apply round_nearest_even_cases |].
    split; [intros -> _; reflexivity |].
    split; [exact H2 |].
    apply Hfin. apply round_nearest_even_cases.
  - destruct (Hs ltac:(lia)) as (mrs & E & Em & Hex).
    rewrite E, Em.
    exists (round_nearest_even (m / 2 ^ n) (loc_of_shr_record mrs)).
    split; [apply round_nearest_even_cases |].
    split; [intros Hl Hmod; rewrite (Hex Hl Hmod); reflexivity |].
    split; [exact H2 |].
    apply Hfin. apply round_nearest_even_cases.
Qed.

(** ** Canonical doubles *)

Lemma valid_elim (s : bool) (m : positive) (e : Z) :
  valid (S754_finite s m e) = true ->
  -1074 <= e <= 971 /\ Zpos m < 2 ^ 53 /\ (2 ^ 52 <= Zpos m \/ e = -1074).
Proof.
  unfold valid, valid_binary, bounded, canonical_mantissa.
  rewrite fexp_eq. intros Hv. apply andb_prop in Hv. destruct Hv as [Hc He].
  apply Z.eqb_eq in Hc. apply Z.leb_le in He.
  unfold F64.emax, F64.prec in He.
  pose proof (digits_bounds m) as [Hlo Hhi].
  set (D := Zpos (digits2_pos m)) in *.
  assert (HD : 0 < D) by (subst D; lia).
  split; [lia |]. split.
  - apply Z.lt_le_trans with (2 ^ D); [exact Hhi |].
    apply Z.pow_le_mono_r; lia.
  - destruct (Z_le_gt_dec (D + e - 53) (-1074)) as [Hs | Hs]; [right; lia |].
    left. replace 52 with (D - 1) by lia. exact Hlo.
Qed.

Lemma valid_lt_max (s : bool) (m : positive) (e : Z) :
  valid (S754_finite s m e) = true ->
  (IZR (Zpos m) * bpow e < bpow 1024)%R.
Proof.
  intros Hv. destruct (valid_elim s m e Hv) as (He & Hm & _).
  apply Rlt_le_trans with (IZR (2 ^ 53) * bpow e)%R.
  - apply Rmult_lt_compat_r; [apply bpow_pos | apply IZR_lt; exact Hm].
  - rewrite <- (bpow_IZR 53) by lia. rewrite <- bpow_add. apply bpow_le. lia.
Qed.

(** [m * 2 ^ e] lies between two neighbours of the grid of step
    [2 ^ (e + n)]. *)
Lemma div_bracket (m e n : Z) :
  0 <= m -> 0 <= n ->
  (IZR (m / 2 ^ n) * bpow (e + n) <= IZR m * bpow e)%R /\
  (IZR m * bpow e < (IZR (m / 2 ^ n) + 1) * bpow (e + n))%R /\
  (m mod 2 ^ n <> 0 -> (IZR (m / 2 ^ n) * bpow (e + n) < IZR m * bpow e)%R).
Proof.
  intros Hm Hn.
  assert (Hp : 0 < 2 ^ n) by (apply Z.pow_pos_nonneg; lia).
  pose proof (Z.div_mod m (2 ^ n) ltac:(lia)) as Hdm.
  pose proof (Z.mod_pos_bound m (2 ^ n) Hp) as Hr.
  set (q := m / 2 ^ n) in *. set (r := m mod 2 ^ n) in *.
  rewrite Z.add_comm, bpow_add, (bpow_IZR n) by lia.
  pose proof (bpow_pos e) as He.
  assert (Em : IZR m = (IZR (2 ^ n) * IZR q + IZR r)%R)
    by (rewrite Hdm at 1; rewrite plus_IZR, mult_IZR; reflexivity).
  assert (Hr0 : (0 <= IZR r)%R) by (apply IZR_le; lia).
  assert (Hr1 : (IZR r < IZR (2 ^ n))%R) by (apply IZR_lt; lia).
  rewrite Em. repeat split.
  - nra.
  - nra.
  - intros Hne. assert (0 < IZR r)%R by (apply IZR_lt; lia). nra.
Qed.

(** A canonical double above a point of the grid of a rounded result is
    at least the next point of that grid; one below the next point is at
    most the point. *)
Lemma grid_cases (sc : bool) (mc : positive) (ec m1 e1 : Z) :
  valid (S754_finite sc mc ec) = true ->
  0 <= m1 -> -1074 <= e1 -> (2 ^ 52 <= m1 \/ e1 = -1074) ->
  (exists k : Z, (IZR (Zpos mc) * bpow ec = IZR k * bpow e1)%R) \/
  (IZR (Zpos mc) * bpow ec < IZR m1 * bpow e1)%R.
Proof.
  intros Hv Hm1 He1 Hn.
  destruct (valid_elim sc mc ec Hv) as (Hec & Hmc & _).
  destruct (Z_le_gt_dec e1 ec) as [Hle | Hgt].
  - left. exists (Zpos mc * 2 ^ (ec - e1)).
    rewrite mult_IZR, <- (bpow_IZR (ec - e1)) by lia.
    rewrite Rmult_assoc, <- bpow_add. f_equal. f_equal. lia.
  - right. destruct Hn as [Hn | Hn]; [| lia].
    apply Rlt_le_trans with (IZR (2 ^ 53) * bpow ec)%R.
    + apply Rmult_lt_compat_r; [apply bpow_pos | apply IZR_lt; exact Hmc].
    + apply Rle_trans with (IZR (2 ^ 52) * bpow e1)%R.
      * rewrite <- (bpow_IZR 53), <- (bpow_IZR 52) by lia.
        rewrite <- !bpow_add. apply bpow_le. lia.
      * apply Rmult_le_compat_r; [left; apply bpow_pos | apply IZR_le; exact Hn].
Qed.

Lemma grid_up (sc : bool) (mc : positive) (ec m1 e1 : Z) :
  valid (S754_finite sc mc ec) = true ->
  0 <= m1 -> -1074 <= e1 -> (2 ^ 52 <= m1 \/ e1 = -1074) ->
  (IZR m1 * bpow e1 < IZR (Zpos mc) * bpow ec)%R ->
  ((IZR m1 + 1) * bpow e1 <= IZR (Zpos mc) * bpow ec)%R.
Proof.
  intros Hv Hm1 He1 Hn Hlt.
  destruct (grid_cases sc mc ec m1 e1 Hv Hm1 He1 Hn) as [[k Ek] | Hc]; [| lra].
  rewrite Ek in *. pose proof (bpow_pos e1) as Hp.
  assert (Hk : (IZR m1 < IZR k)%R) by nra.
  apply lt_IZR in Hk. assert (Hk' : m1 + 1 <= k) by lia.
  apply IZR_le in Hk'. rewrite plus_IZR in Hk'. nra.
Qed.

Lemma grid_down (sc : bool) (mc : positive) (ec m1 e1 : Z) :
  valid (S754_finite sc mc ec) = true ->
  0 <= m1 -> -1074 <= e1 -> (2 ^ 52 <= m1 \/ e1 = -1074) ->
  (IZR (Zpos mc) * bpow ec < (IZR m1 + 1) * bpow e1)%R ->
  (IZR (Zpos mc) * bpow ec <= IZR m1 * bpow e1)%R.
Proof.
  intros Hv Hm1 He1 Hn Hlt.
  destruct (grid_cases sc mc ec m1 e1 Hv Hm1 He1 Hn) as [[k Ek] | Hc]; [| lra].
  rewrite Ek in *. pose proof (bpow_pos e1) as Hp.
  assert (Hk : (IZR k < IZR m1 + 1)%R) by nra.
  rewrite <- plus_IZR in Hk.
  apply lt_IZR in Hk. assert (Hk' : k <= m1) by lia.
  apply IZR_le in Hk'. nra.
Qed.

(** *** Rounding does not cross a canonical double *)

Lemma round_aux_le (s : bool) (m e : Z) (sc : bool) (mc : positive) (ec : Z) :
  0 <= m ->
  0 <= fexp F64.prec F64.emax (Zdigits2 m + e) - e ->
  valid (S754_finite sc mc ec) = true ->
  (IZR m * bpow e <= IZR (Zpos mc) * bpow ec)%R ->
  let r := binary_round_aux F64.prec F64.emax s m e loc_Exact in
  r = S754_zero s \/
  exists m2 e2,
    r = S754_finite s m2 e2 /\ valid r = true /\
    (IZR (Zpos m2) * bpow e2 <= IZR (Zpos mc) * bpow ec)%R.
Proof.
  intros Hm Hn Hv Hle r.
  destruct (round_aux_spec s m e loc_Exact Hm Hn) as (mr & Hmr & Hex & Hsh & Hres).
  fold r in Hres.
  set (n := fexp F64.prec F64.emax (Zdigits2 m + e) - e) in *.
  destruct (div_bracket m e n Hm Hn) as (Hb1 & Hb2 & Hb3).
  assert (Hq : 0 <= m / 2 ^ n)
    by (apply Z.div_pos; [lia | apply Z.pow_pos_nonneg; lia]).
  assert (He1 : -1074 <= e + n)
    by (subst n; rewrite fexp_eq; lia).
  assert (HV : (IZR mr * bpow (e + n) <= IZR (Zpos mc) * bpow ec)%R).
  { destruct (Z.eq_dec (m mod 2 ^ n) 0) as [E0 | N0].
    - rewrite (Hex eq_refl E0). lra.
    - destruct Hmr as [-> | ->]; [lra |].
      rewrite plus_IZR.
      apply (grid_up sc mc ec _ _ Hv Hq He1 Hsh).
      specialize (Hb3 N0). lra. }
  destruct Hres as [[_ ->] | [_ [[-> Hinf] | (m2 & e2 & -> & Hv2 & E2)]]].
  - left. reflexivity.
  - exfalso. pose proof (valid_lt_max sc mc ec Hv). lra.
  - right. exists m2, e2. split; [reflexivity |]. split; [exact Hv2 |].
    rewrite E2. exact HV.
Qed.

Lemma round_aux_ge (s : bool) (m e : Z) (sc : bool) (mc : positive) (ec : Z) :
  0 <= m ->
  0 <= fexp F64.prec F64.emax (Zdigits2 m + e) - e ->
  valid (S754_finite sc mc ec) = true ->
  (IZR (Zpos mc) * bpow ec <= IZR m * bpow e)%R ->
  let r := binary_round_aux F64.prec F64.emax s m e loc_Exact in
  r = S754_infinity s \/
  exists m2 e2,
    r = S754_finite s m2 e2 /\ valid r = true /\
    (IZR (Zpos mc) * bpow ec <= IZR (Zpos m2) * bpow e2)%R.
Proof.
  intros Hm Hn Hv Hle r.
  destruct (round_aux_spec s m e loc_Exact Hm Hn) as (mr & Hmr & Hex & Hsh & Hres).
  fold r in Hres.
  set (n := fexp F64.prec F64.emax (Zdigits2 m + e) - e) in *.
  destruct (div_bracket m e n Hm Hn) as (Hb1 & Hb2 & Hb3).
  assert (Hq : 0 <= m / 2 ^ n)
    by (apply Z.div_pos; [lia | apply Z.pow_pos_nonneg; lia]).
  assert (He1 : -1074 <= e + n)
    by (subst n; rewrite fexp_eq; lia).
  pose proof (bpow_pos (e + n)) as Hp.
  assert (HV : (IZR (Zpos mc) * bpow ec <= IZR mr * bpow (e + n))%R).
  { assert (H1 : (IZR (Zpos mc) * bpow ec <= IZR (m / 2 ^ n) * bpow (e + n))%R).
    { apply (grid_down sc mc ec _ _ Hv Hq He1 Hsh). lra. }
    destruct Hmr as [-> | ->]; [exact H1 |].
    rewrite plus_IZR. nra. }
  assert (Hc : (0 < IZR (Zpos mc) * bpow ec)%R).
  { apply Rmult_lt_0_compat; [apply IZR_lt; lia | apply bpow_pos]. }
  destruct Hres as [[E0 _] | [_ [[-> Hinf] | (m2 & e2 & -> & Hv2 & E2)]]].
  - exfalso. rewrite E0 in HV. lra.
  - left. reflexivity.
  - right. exists m2, e2. split; [reflexivity |]. split; [exact Hv2 |].
    rewrite E2. exact HV.
Qed.

(** ** Sign and class of a rounded result *)

Lemma shr_fexp_nonneg (m e : Z) (l : location) :
  0 <= m -> 0 <= shr_m (fst (shr_fexp F64.prec F64.emax m e l)).
Proof.
  intros Hm. destruct (shr_fexp_spec m e l Hm) as [H0 Hs].
  destruct (Z_le_gt_dec (fexp F64.prec F64.emax (Zdigits2 m + e) - e) 0)
    as [Hn | Hn].
  - rewrite (H0 Hn). cbn [fst]. rewrite shr_m_of_loc. exact Hm.
  - destruct (Hs ltac:(lia)) as (mrs & E & Em & _).
    rewrite E. cbn [fst]. rewrite Em.
    apply Z.div_pos; [exact Hm | apply Z.pow_pos_nonneg; lia].
Qed.

Lemma round_aux_class (s : bool) (m e : Z) (l : location) :
  0 <= m -> signed s (binary_round_aux F64.prec F64.emax s m e l) = true.
Proof.
  intros Hm. rewrite round_aux_finish.
  pose proof (shr_fexp_nonneg m e l Hm) as H1.
  destruct (shr_fexp F64.prec F64.emax m e l) as [mrs1 e1].
  cbn [fst] in H1.
  set (mr := round_nearest_even (shr_m mrs1) (loc_of_shr_record mrs1)).
  assert (Hr : 0 <= mr).
  { pose proof (round_nearest_even_cases (shr_m mrs1) (loc_of_shr_record mrs1)).
    fold mr in H. lia. }
  unfold finish.
  pose proof (shr_fexp_nonneg mr e1 loc_Exact Hr) as H2.
  destruct (shr_fexp F64.prec F64.emax mr e1 loc_Exact) as [mrs2 e2].
  cbn [fst] in H2.
  destruct (shr_m mrs2) as [| q | q]; [| | lia].
  - cbn. apply eqb_reflx.
  - destruct (e2 <=? F64.emax - F64.prec); cbn; apply eqb_reflx.
Qed.

Lemma round_aux_sign (s : bool) (m e : Z) (l : location) :
  let r := binary_round_aux F64.prec F64.emax s m e l in
  r = S754_nan \/ signed s r = true.
Proof.
  cbv zeta. rewrite round_aux_finish.
  destruct (shr_fexp F64.prec F64.emax m e l) as [mrs1 e1].
  unfold finish.
  destruct (shr_fexp F64.prec F64.emax _ e1 loc_Exact) as [mrs2 e2].
  destruct (shr_m mrs2) as [| q | q]; [| | left; reflexivity]; right.
  - cbn. apply eqb_reflx.
  - destruct (e2 <=? F64.emax - F64.prec); cbn; apply eqb_reflx.
Qed.

Lemma signed_cases (s : bool) (r : float) :
  signed s r = true ->
  r = S754_zero s \/ r = S754_infinity s \/
  exists m e, r = S754_finite s m e.
Proof.
  destruct r as [s' | s' | | s' m e]; cbn [signed]; intros H;
    try discriminate; apply eqb_prop in H; subst s'; eauto.
Qed.

(** A product that needs no shift is exact. *)
Lemma round_aux_noshift (s : bool) (p : positive) (e : Z) :
  fexp F64.prec F64.emax (Zdigits2 (Zpos p) + e) - e <= 0 ->
  binary_round_aux F64.prec F64.emax s (Zpos p) e loc_Exact =
  if e <=? 971 then S754_finite s p e else S754_infinity s.
Proof.
  intros Hn. rewrite round_aux_finish.
  destruct (shr_fexp_spec (Zpos p) e loc_Exact ltac:(lia)) as [H0 _].
  rewrite (H0 Hn). cbn [shr_record_of_loc shr_m loc_of_shr_record
                        round_nearest_even].
  unfold finish. rewrite (H0 Hn). reflexivity.
Qed.

(** ** [binary_round] *)

Lemma iter_xO_value (m d : positive) :
  Zpos (Pos.iter xO m d) = Zpos m * 2 ^ Zpos d.
Proof.
  induction d as [| d IH] using Pos.peano_ind.
  - cbn [Pos.iter]. lia.
  - rewrite Pos.iter_succ, Pos2Z.inj_xO, IH, Pos2Z.inj_succ, Z.pow_succ_r by lia.
    ring.
Qed.

Lemma iter_xO_digits (m d : positive) :
  Zpos (digits2_pos (Pos.iter xO m d)) = Zpos (digits2_pos m) + Zpos d.
Proof.
  induction d as [| d IH] using Pos.peano_ind.
  - cbn [Pos.iter digits2_pos]. lia.
  - rewrite Pos.iter_succ. cbn [digits2_pos].
    rewrite Pos2Z.inj_succ, IH, Pos2Z.inj_succ. lia.
Qed.

Lemma shl_align_value (m : positive) (e e' : Z) :
  e' <= e ->
  Zpos (fst (shl_align m e e')) = Zpos m * 2 ^ (e - e').
Proof.
  intros Hle. unfold shl_align.
  destruct (e' - e) as [| d | d] eqn:Ed; cbn [fst].
  - replace (e - e') with 0 by lia. lia.
  - lia.
  - rewrite iter_xO_value. f_equal. f_equal. lia.
Qed.

Lemma binary_round_aligned (s : bool) (p : positive) (e : Z) :
  exists (mz : positive) (ez : Z),
    binary_round F64.prec F64.emax s p e =
      binary_round_aux F64.prec F64.emax s (Zpos mz) ez loc_Exact /\
    (IZR (Zpos mz) * bpow ez = IZR (Zpos p) * bpow e)%R /\
    0 <= fexp F64.prec F64.emax (Zdigits2 (Zpos mz) + ez) - ez.
Proof.
  unfold binary_round, shl_align.
  set (e' := fexp F64.prec F64.emax (Zpos (digits2_pos p) + e)).
  destruct (e' - e) as [| d | d] eqn:Ed.
  - exists p, e. split; [reflexivity |]. split; [reflexivity |].
    cbn [Zdigits2]. fold e'. lia.
  - exists p, e. split; [reflexivity |]. split; [reflexivity |].
    cbn [Zdigits2]. fold e'. lia.
  - exists (Pos.iter xO p d), e'. split; [reflexivity |]. split.
    + rewrite iter_xO_value, mult_IZR, <- (bpow_IZR (Zpos d)) by lia.
      rewrite Rmult_assoc, <- bpow_add. f_equal. f_equal. lia.
    + cbn [Zdigits2]. rewrite iter_xO_digits.
      replace (Zpos (digits2_pos p) + Zpos d + e')
        with (Zpos (digits2_pos p) + e) by lia.
      fold e'. lia.
Qed.

Lemma round_le (s : bool) (p : positive) (e : Z)
  (sc : bool) (mc : positive) (ec : Z) :
  valid (S754_finite sc mc ec) = true ->
  (IZR (Zpos p) * bpow e <= IZR (Zpos mc) * bpow ec)%R ->
  let r := binary_round F64.prec F64.emax s p e in
  r = S754_zero s \/
  exists m2 e2,
    r = S754_finite s m2 e2 /\ valid r = true /\
    (IZR (Zpos m2) * bpow e2 <= IZR (Zpos mc) * bpow ec)%R.
Proof.
  intros Hv Hle.
  destruct (binary_round_aligned s p e) as (mz & ez & -> & Ev & Hn).
  rewrite <- Ev in Hle.
  exact (round_aux_le s (Zpos mz) ez sc mc ec ltac:(lia) Hn Hv Hle).
Qed.

Lemma round_ge (s : bool) (p : positive) (e : Z)
  (sc : bool) (mc : positive) (ec : Z) :
  valid (S754_finite sc mc ec) = true ->
  (IZR (Zpos mc) * bpow ec <= IZR (Zpos p) * bpow e)%R ->
  let r := binary_round F64.prec F64.emax s p e in
  r = S754_infinity s \/
  exists m2 e2,
    r = S754_finite s m2 e2 /\ valid r = true /\
    (IZR (Zpos mc) * bpow ec <= IZR (Zpos m2) * bpow e2)%R.
Proof.
  intros Hv Hle.
  destruct (binary_round_aligned s p e) as (mz & ez & -> & Ev & Hn).
  rewrite <- Ev in Hle.
  exact (round_aux_ge s (Zpos mz) ez sc mc ec ltac:(lia) Hn Hv Hle).
Qed.

Lemma round_class (s : bool) (p : positive) (e : Z) :
  signed s (binary_round F64.prec F64.emax s p e) = true.
Proof.
  destruct (binary_round_aligned s p e) as (mz & ez & -> & _ & _).
  apply round_aux_class. lia.
Qed.

Lemma round_valid (s : bool) (p : positive) (e : Z) :
  valid (binary_round F64.prec F64.emax s p e) = true.
Proof.
  destruct (binary_round_aligned s p e) as (mz & ez & -> & _ & Hn).
  destruct (round_aux_spec s (Zpos mz) ez loc_Exact ltac:(lia) Hn)
    as (mr & _ & _ & _ & Hres).
  destruct Hres as [[_ ->] | [_ [[-> _] | (m2 & e2 & -> & Hv2 & _)]]];
    [reflexivity | reflexivity | exact Hv2].
Qed.

(** ** Addition *)

Lemma add_finite (sx : bool) (mx : positive) (ex : Z)
  (sy : bool) (my : positive) (ey : Z) :
  exists k ez : Z,
    F64.add (S754_finite sx mx ex) (S754_finite sy my ey) =
      binary_normalize F64.prec F64.emax k ez false /\
    (IZR k * bpow ez =
     F2R (S754_finite sx mx ex) + F2R (S754_finite sy my ey))%R.
Proof.
  unfold F64.add, SFadd.
  set (ez := Z.min ex ey).
  eexists _, ez. split; [reflexivity |].
  rewrite plus_IZR.
  rewrite (shl_align_value mx ex ez), (shl_align_value my ey ez) by lia.
  assert (Hx : (IZR (Zpos mx * 2 ^ (ex - ez)) * bpow ez
                = IZR (Zpos mx) * bpow ex)%R).
  { rewrite mult_IZR, <- (bpow_IZR (ex - ez)) by lia.
    rewrite Rmult_assoc, <- bpow_add. f_equal. f_equal. lia. }
  assert (Hy : (IZR (Zpos my * 2 ^ (ey - ez)) * bpow ez
                = IZR (Zpos my) * bpow ey)%R).
  { rewrite mult_IZR, <- (bpow_IZR (ey - ez)) by lia.
    rewrite Rmult_assoc, <- bpow_add. f_equal. f_equal. lia. }
  cbn [F2R]. destruct sx, sy; cbn [cond_Zopp]; rewrite ?opp_IZR; lra.
Qed.

Lemma add_cases (x y : float) :
  F64.is_zero x = false -> F64.is_finite x = true ->
  F64.is_zero y = false -> F64.is_finite y = true ->
  let t := (F2R x + F2R y)%R in
  (t = 0%R /\ F64.add x y = S754_zero false) \/
  (exists p e, (IZR (Zpos p) * bpow e = t)%R /\
     F64.add x y = binary_round F64.prec F64.emax false p e) \/
  (exists p e, (IZR (Zpos p) * bpow e = - t)%R /\
     F64.add x y = binary_round F64.prec F64.emax true p e).
Proof.
  intros Hx0 Hx Hy0 Hy.
  destruct x as [| | | sx mx ex]; try discriminate.
  destruct y as [| | | sy my ey]; try discriminate.
  destruct (add_finite sx mx ex sy my ey) as (k & ez & -> & Ek).
  cbv zeta. rewrite <- Ek.
  destruct k as [| p | p]; cbn [binary_normalize].
  - left. split; [lra | reflexivity].
  - right. left. exists p, ez. split; reflexivity.
  - right. right. exists p, ez. split; [| reflexivity].
    change (Zneg p) with (- Zpos p). rewrite opp_IZR. lra.
Qed.

(** ** Multiplication *)

Lemma mul_finite (sx : bool) (mx : positive) (ex : Z)
  (sy : bool) (my : positive) (ey : Z) :
  F64.mul (S754_finite sx mx ex) (S754_finite sy my ey) =
  binary_round_aux F64.prec F64.emax (xorb sx sy) (Zpos (mx * my)) (ex + ey)
    loc_Exact.
Proof. reflexivity. Qed.

Lemma mul_value (mx my : positive) (ex ey : Z) :
  (IZR (Zpos (mx * my)) * bpow (ex + ey)
   = (IZR (Zpos mx) * bpow ex) * (IZR (Zpos my) * bpow ey))%R.
Proof. rewrite Pos2Z.inj_mul, mult_IZR, bpow_add. ring. Qed.

Lemma mul_le (sx : bool) (mx : positive) (ex : Z)
  (sy : bool) (my : positive) (ey : Z) (sc : bool) (mc : positive) (ec : Z) :
  valid (S754_finite sc mc ec) = true ->
  (IZR (Zpos mc) * bpow ec < bpow 972)%R ->
  ((IZR (Zpos mx) * bpow ex) * (IZR (Zpos my) * bpow ey)
   <= IZR (Zpos mc) * bpow ec)%R ->
  let r := F64.mul (S754_finite sx mx ex) (S754_finite sy my ey) in
  r = S754_zero (xorb sx sy) \/
  exists m2 e2,
    r = S754_finite (xorb sx sy) m2 e2 /\
    (IZR (Zpos m2) * bpow e2 <= IZR (Zpos mc) * bpow ec)%R.
Proof.
  intros Hv Hc Hle. cbv zeta. rewrite mul_finite.
  rewrite <- mul_value in Hle.
  destruct (Z_le_gt_dec 0
              (fexp F64.prec F64.emax (Zdigits2 (Zpos (mx * my)) + (ex + ey))
               - (ex + ey))) as [Hn | Hn].
  - destruct (round_aux_le (xorb sx sy) (Zpos (mx * my)) (ex + ey) sc mc ec
                ltac:(lia) Hn Hv Hle)
      as [E | (m2 & e2 & E & _ & H2)]; [left; exact E |].
    right. exists m2, e2. split; assumption.
  - rewrite round_aux_noshift by lia.
    assert (He : ex + ey <= 971).
    { assert (H1 : (bpow (ex + ey) < bpow 972)%R).
      { apply Rle_lt_trans with (IZR (Zpos (mx * my)) * bpow (ex + ey))%R;
          [| lra].
        pose proof (bpow_pos (ex + ey)).
        assert (1 <= IZR (Zpos (mx * my)))%R by (apply IZR_le; lia).
        nra. }
      apply bpow_lt_inv in H1. lia. }
    apply Z.leb_le in He. rewrite He.
    right. exists (mx * my)%positive, (ex + ey). split; [reflexivity | exact Hle].
Qed.

Lemma mul_ge (sx : bool) (mx : positive) (ex : Z)
  (sy : bool) (my : positive) (ey : Z) (sc : bool) (mc : positive) (ec : Z) :
  valid (S754_finite sc mc ec) = true ->
  (IZR (Zpos mc) * bpow ec
   <= (IZR (Zpos mx) * bpow ex) * (IZR (Zpos my) * bpow ey))%R ->
  let r := F64.mul (S754_finite sx mx ex) (S754_finite sy my ey) in
  r = S754_infinity (xorb sx sy) \/
  exists m2 e2,
    r = S754_finite (xorb sx sy) m2 e2 /\
    (IZR (Zpos mc) * bpow ec <= IZR (Zpos m2) * bpow e2)%R.
Proof.
  intros Hv Hle. cbv zeta. rewrite mul_finite.
  rewrite <- mul_value in Hle.
  destruct (Z_le_gt_dec 0
              (fexp F64.prec F64.emax (Zdigits2 (Zpos (mx * my)) + (ex + ey))
               - (ex + ey))) as [Hn | Hn].
  - destruct (round_aux_ge (xorb sx sy) (Zpos (mx * my)) (ex + ey) sc mc ec
                ltac:(lia) Hn Hv Hle)
      as [E | (m2 & e2 & E & _ & H2)]; [left; exact E |].
    right. exists m2, e2. split; assumption.
  - rewrite round_aux_noshift by lia.
    destruct (ex + ey <=? 971); [| left; reflexivity].
    right. exists (mx * my)%positive, (ex + ey). split; [reflexivity | exact Hle].
Qed.

Lemma mul_class (sx : bool) (x : float) (sy : bool) (my : positive) (ey : Z) :
  signed sx x = true ->
  signed (xorb sx sy) (F64.mul x (S754_finite sy my ey)) = true.
Proof.
  intros Hx. destruct (signed_cases sx x Hx) as [-> | [-> | (m & e & ->)]].
  - cbn. apply eqb_reflx.
  - cbn. apply eqb_reflx.
  - rewrite mul_finite. apply round_aux_class. lia.
Qed.

(** ** Division *)

Lemma div_core_spec (mx my : positive) (ex ey : Z) :
  exists (q e' : Z) (l : location),
    SFdiv_core_binary F64.prec F64.emax (Zpos mx) ex (Zpos my) ey = (q, e', l) /\
    0 <= q /\
    0 <= fexp F64.prec F64.emax (Zdigits2 q + e') - e'.
Proof.
  unfold SFdiv_core_binary.
  pose proof (digits_bounds mx) as [Hx1 Hx2].
  pose proof (digits_bounds my) as [Hy1 Hy2].
  cbn [Zdigits2].
  set (d1 := Zpos (digits2_pos mx)) in *.
  set (d2 := Zpos (digits2_pos my)) in *.
  assert (Hd1 : 0 < d1) by (subst d1; lia).
  assert (Hd2 : 0 < d2) by (subst d2; lia).
  set (e' := Z.min (fexp F64.prec F64.emax (d1 + ex - (d2 + ey))) (ex - ey)).
  set (s := ex - ey - e').
  assert (Hs : 0 <= s) by (subst s e'; lia).
  set (m' := match s with
             | 0 => Zpos mx
             | Zpos _ => Z.shiftl (Zpos mx) s
             | Zneg _ => 0
             end).
  assert (Em : m' = Zpos mx * 2 ^ s).
  { subst m'. destruct s as [| k | k] eqn:Es; [cbn; lia | | lia].
    rewrite Z.shiftl_mul_pow2 by lia. reflexivity. }
  pose proof (Z.div_eucl_eq m' (Zpos my) ltac:(lia)) as Hde.
  pose proof (Z.mod_pos_bound m' (Zpos my) ltac:(lia)) as Hmod.
  unfold Z.modulo in Hmod.
  destruct (Z.div_eucl m' (Zpos my)) as [q r] eqn:Eqr.
  exists q, e', (new_location (Zpos my) r).
  split; [reflexivity |].
  assert (Hp : 0 < 2 ^ s) by (apply Z.pow_pos_nonneg; lia).
  assert (Hq : 0 <= q) by nia.
  split; [exact Hq |].
  rewrite fexp_eq.
  destruct (Z_le_gt_dec e' (-1074)) as [Hle | Hgt]; [lia |].
  assert (HF : e' <= d1 + ex - (d2 + ey) - 53).
  { subst e'. rewrite fexp_eq in *. lia. }
  assert (Hs' : d2 - d1 + 53 <= s) by (subst s; lia).
  assert (Hq52 : 2 ^ 52 <= q).
  { assert (H1 : 2 ^ (d2 + 52) <= m').
    { rewrite Em.
      apply Z.le_trans with (2 ^ (d1 - 1) * 2 ^ s); [| nia].
      rewrite <- Z.pow_add_r by lia. apply Z.pow_le_mono_r; lia. }
    rewrite Z.pow_add_r in H1 by lia.
    assert (H2 : 0 < 2 ^ d2) by (apply Z.pow_pos_nonneg; lia).
    destruct (Z_lt_le_dec q (2 ^ 52)) as [Hlt | Hge]; [exfalso | exact Hge].
    assert (H3 : q + 1 <= 2 ^ 52) by lia.
    assert (H4 : m' < Zpos my * (q + 1)) by lia.
    assert (H5 : Zpos my * (q + 1) <= Zpos my * 2 ^ 52)
      by (apply Z.mul_le_mono_nonneg_l; lia).
    assert (H6 : Zpos my * 2 ^ 52 < 2 ^ d2 * 2 ^ 52)
      by (apply Z.mul_lt_mono_pos_r; lia).
    lia. }
  pose proof (Zdigits2_ge q 52 ltac:(lia) Hq52). lia.
Qed.

Lemma div_finite (sx : bool) (mx : positive) (ex : Z)
  (sy : bool) (my : positive) (ey : Z) :
  exists (q e' : Z) (l : location),
    F64.div (S754_finite sx mx ex) (S754_finite sy my ey) =
      binary_round_aux F64.prec F64.emax (xorb sx sy) q e' l /\
    0 <= q /\
    0 <= fexp F64.prec F64.emax (Zdigits2 q + e') - e'.
Proof.
  destruct (div_core_spec mx my ex ey) as (q & e' & l & E & Hq & Hn).
  exists q, e', l. split; [| split; assumption].
  unfold F64.div, SFdiv. rewrite E. reflexivity.
Qed.

(** The quotient of two doubles is canonical. *)
Lemma div_valid (x : float) (sy : bool) (my : positive) (ey : Z) :
  valid (F64.div x (S754_finite sy my ey)) = true.
Proof.
  destruct x as [sx | sx | | sx mx ex]; try reflexivity.
  destruct (div_finite sx mx ex sy my ey) as (q & e' & l & -> & Hq & Hn).
  destruct (round_aux_spec (xorb sx sy) q e' l Hq Hn)
    as (mr & _ & _ & _ & Hres).
  destruct Hres as [[_ ->] | [_ [[-> _] | (m2 & e2 & -> & Hv2 & _)]]];
    [reflexivity | reflexivity | exact Hv2].
Qed.

Lemma div_class (sx : bool) (x : float) (sy : bool) (my : positive) (ey : Z) :
  signed sx x = true ->
  signed (xorb sx sy) (F64.div x (S754_finite sy my ey)) = true.
Proof.
  intros Hx. destruct (signed_cases sx x Hx) as [-> | [-> | (m & e & ->)]].
  - cbn. apply eqb_reflx.
  - cbn. apply eqb_reflx.
  - destruct (div_finite sx m e sy my ey) as (q & e' & l & -> & Hq & _).
    apply round_aux_class. exact Hq.
Qed.

(** ** Comparison of canonical doubles *)

Lemma canonical_exponents (s1 : bool) (m1 : positive) (e1 : Z)
  (s2 : bool) (m2 : positive) (e2 : Z) :
  valid (S754_finite s1 m1 e1) = true -> valid (S754_finite s2 m2 e2) = true ->
  e1 < e2 ->
  (IZR (Zpos m1) * bpow e1 < IZR (Zpos m2) * bpow e2)%R.
Proof.
  intros H1 H2 Hlt.
  destruct (valid_elim s1 m1 e1 H1) as (He1 & Hm1 & _).
  destruct (valid_elim s2 m2 e2 H2) as (He2 & _ & [Hn2 | Hn2]); [| lia].
  apply Rlt_le_trans with (IZR (2 ^ 53) * bpow e1)%R.
  - apply Rmult_lt_compat_r; [apply bpow_pos | apply IZR_lt; exact Hm1].
  - apply Rle_trans with (IZR (2 ^ 52) * bpow e2)%R.
    + rewrite <- (bpow_IZR 53), <- (bpow_IZR 52) by lia.
      rewrite <- !bpow_add. apply bpow_le. lia.
    + apply Rmult_le_compat_r; [left; apply bpow_pos | apply IZR_le; exact Hn2].
Qed.

Lemma compare_lt (m1 : positive) (e1 : Z) (m2 : positive) (e2 : Z) :
  valid (S754_finite false m1 e1) = true ->
  valid (S754_finite false m2 e2) = true ->
  (IZR (Zpos m1) * bpow e1 < IZR (Zpos m2) * bpow e2)%R ->
  SFcompare (S754_finite false m1 e1) (S754_finite false m2 e2) = Some Lt.
Proof.
  intros H1 H2 Hlt. cbn [SFcompare].
  destruct (Z.compare_spec e1 e2) as [E | L | G].
  - subst e2. f_equal. change (Pos.compare_cont Eq m1 m2) with (Pos.compare m1 m2).
    apply Pos.compare_lt_iff.
    pose proof (bpow_pos e1).
    assert (Hm : (IZR (Zpos m1) < IZR (Zpos m2))%R) by nra.
    apply lt_IZR in Hm. lia.
  - reflexivity.
  - pose proof (canonical_exponents false m2 e2 false m1 e1 H2 H1 G). lra.
Qed.

Lemma compare_gt (m1 : positive) (e1 : Z) (m2 : positive) (e2 : Z) :
  valid (S754_finite false m1 e1) = true ->
  valid (S754_finite false m2 e2) = true ->
  (IZR (Zpos m2) * bpow e2 < IZR (Zpos m1) * bpow e1)%R ->
  SFcompare (S754_finite false m1 e1) (S754_finite false m2 e2) = Some Gt.
Proof.
  intros H1 H2 Hlt. cbn [SFcompare].
  destruct (Z.compare_spec e1 e2) as [E | L | G].
  - subst e2. f_equal. change (Pos.compare_cont Eq m1 m2) with (Pos.compare m1 m2).
    apply Pos.compare_gt_iff.
    pose proof (bpow_pos e1).
    assert (Hm : (IZR (Zpos m2) < IZR (Zpos m1))%R) by nra.
    apply lt_IZR in Hm. lia.
  - pose proof (canonical_exponents false m1 e1 false m2 e2 H1 H2 L). lra.
  - reflexivity.
Qed.

(** ** The double below a double of (0, 1] *)

Lemma below_exists (m : positive) (e : Z) :
  valid (S754_finite false m e) = true ->
  (bpow (-53) < IZR (Zpos m) * bpow e <= 1)%R ->
  exists (mc : positive) (ec : Z),
    valid (S754_finite false mc ec) = true /\
    (IZR (Zpos mc) * bpow ec < IZR (Zpos m) * bpow e)%R /\
    (IZR (Zpos m) * bpow e - bpow (-53) <= IZR (Zpos mc) * bpow ec)%R.
Proof.
  intros Hv [Hlo Hhi].
  destruct (valid_elim false m e Hv) as (He & Hm & Hn).
  pose proof (bpow_pos e) as Hpe.
  assert (Hm' : (IZR (Zpos m) < IZR (2 ^ 53))%R) by (apply IZR_lt; exact Hm).
  assert (He1 : -106 < e).
  { assert (H1 : (bpow (-53) < bpow (53 + e))%R).
    { rewrite bpow_add, (bpow_IZR 53) by lia. nra. }
    apply bpow_lt_inv in H1. lia. }
  destruct Hn as [Hn | Hn]; [| lia].
  assert (Hn' : (IZR (2 ^ 52) <= IZR (Zpos m))%R) by (apply IZR_le; exact Hn).
  assert (He2 : e <= -52).
  { assert (H1 : (bpow (52 + e) <= bpow 0)%R).
    { rewrite bpow_add, (bpow_IZR 52), bpow_0 by lia. nra. }
    apply bpow_le_inv in H1. lia. }
  destruct (Z.eq_dec (Zpos m) (2 ^ 52)) as [E52 | N52].
  - exists 9007199254740991%positive, (e - 1).
    split; [apply valid_intro; [lia | left; reflexivity] |].
    change (IZR (Zpos 9007199254740991)) with (IZR (2 ^ 53 - 1)).
    rewrite E52, minus_IZR.
    change (IZR (2 ^ 53)) with (IZR (2 * 2 ^ 52)). rewrite mult_IZR.
    assert (Ee : bpow e = (2 * bpow (e - 1))%R).
    { replace e with (1 + (e - 1)) at 1 by lia. rewrite bpow_add, bpow_1.
      reflexivity. }
    pose proof (bpow_pos (e - 1)) as Hp1.
    assert (H53 : (bpow (e - 1) <= bpow (-53))%R) by (apply bpow_le; lia).
    set (P := IZR (2 ^ 52)) in *.
    assert (HP : (0 < P)%R) by (subst P; apply IZR_lt; reflexivity).
    rewrite Ee. split; nra.
  - assert (He3 : e <= -53).
    { destruct (Z.eq_dec e (-52)) as [E | N]; [| lia]. exfalso.
      subst e. apply N52.
      assert (H1 : (IZR (Zpos m) <= IZR (2 ^ 52))%R).
      { rewrite <- (bpow_IZR 52) by lia.
        assert (H2 : (bpow 52 * bpow (-52) = 1)%R)
          by (rewrite <- bpow_add; apply bpow_0).
        pose proof (bpow_pos 52). pose proof (bpow_pos (-52)). nra. }
      apply le_IZR in H1. lia. }
    exists (Pos.pred m), e.
    assert (Hpred : Zpos (Pos.pred m) = Zpos m - 1)
      by (rewrite Pos2Z.inj_pred; lia).
    split.
    + apply valid_intro; [lia |]. left.
      pose proof (digits_ge (Pos.pred m) 52 ltac:(lia) ltac:(lia)).
      pose proof (digits_le (Pos.pred m) 53 ltac:(lia) ltac:(lia)). lia.
    + rewrite Hpred, minus_IZR.
      assert (H53 : (bpow e <= bpow (-53))%R) by (apply bpow_le; lia).
      split; nra.
Qed.

(** ** One step of the fall, on doubles *)

Lemma half_ulp_value : (IZR (Zpos 4503599627370496) * bpow (-105) = bpow (-53))%R.
Proof.
  change (IZR (Zpos 4503599627370496)) with (IZR (2 ^ 52)).
  rewrite <- (bpow_IZR 52), <- bpow_add by lia. reflexivity.
Qed.

Lemma ltb_zero_signed (r : float) :
  signed true r = true -> F64.ltb F64.zero r = false.
Proof.
  intros H. destruct (signed_cases true r H) as [-> | [-> | (m & e & ->)]];
    reflexivity.
Qed.

(** The displacement of a step. *)
Lemma shift_class (v : float) (md : positive) (ed : Z) :
  fast (S754_finite false md ed) v ->
  let d := F64.mul v (S754_finite false md ed) in
  d = S754_infinity true \/
  exists m e, d = S754_finite true m e /\
              (bpow (-53) <= IZR (Zpos m) * bpow e)%R.
Proof.
  intros [-> | (m & e & -> & Hv & Hb)]; [left; reflexivity |].
  cbn [F2R] in Hb.
  destruct (mul_ge true m e false md ed false 4503599627370496 (-105))
    as [E | (m2 & e2 & E & H2)].
  - reflexivity.
  - rewrite half_ulp_value. exact Hb.
  - left. exact E.
  - right. exists m2, e2. split; [exact E |].
    rewrite half_ulp_value in H2. exact H2.
Qed.

(** The new position: below the old one when it is still positive. *)
Lemma fall_step (m : positive) (e : Z) (d : float) :
  valid (S754_finite false m e) = true ->
  (IZR (Zpos m) * bpow e <= 1)%R ->
  (d = S754_infinity true \/
   exists md ed, d = S754_finite true md ed /\
                 (bpow (-53) <= IZR (Zpos md) * bpow ed)%R) ->
  F64.ltb F64.zero (F64.add (S754_finite false m e) d) = true ->
  exists m' e',
    F64.add (S754_finite false m e) d = S754_finite false m' e' /\
    valid (S754_finite false m' e') = true /\
    (IZR (Zpos m') * bpow e' < IZR (Zpos m) * bpow e)%R /\
    F64.ltb (S754_finite false m' e') (S754_finite false m e) = true.
Proof.
  intros Hv Hx [-> | (md & ed & -> & Hd)] Hpos; [discriminate |].
  assert (Hxp : (0 < IZR (Zpos m) * bpow e)%R).
  { apply Rmult_lt_0_compat; [apply IZR_lt; lia | apply bpow_pos]. }
  destruct (add_cases (S754_finite false m e) (S754_finite true md ed)
              eq_refl eq_refl eq_refl eq_refl)
    as [[_ E] | [(p & ep & Hp & E) | (p & ep & Hp & E)]]; cbn [F2R] in *.
  - rewrite E in Hpos. discriminate.
  - rewrite E in *.
    destruct (below_exists m e Hv) as (mc & ec & Hvc & Hc1 & Hc2).
    { assert (0 < IZR (Zpos p) * bpow ep)%R
        by (apply Rmult_lt_0_compat; [apply IZR_lt; lia | apply bpow_pos]).
      lra. }
    destruct (round_le false p ep false mc ec Hvc ltac:(lra))
      as [E0 | (m2 & e2 & E2 & Hv2 & H2)].
    + rewrite E0 in Hpos. discriminate.
    + rewrite E2 in *. exists m2, e2. split; [reflexivity |].
      split; [exact Hv2 |]. split; [lra |].
      unfold F64.ltb, SFltb. rewrite (compare_lt m2 e2 m e Hv2 Hv); [reflexivity |].
      lra.
  - rewrite E in Hpos.
    rewrite (ltb_zero_signed _ (round_class true p ep)) in Hpos. discriminate.
Qed.

(** The new velocity: at least as fast as the old one. *)
Lemma speed_step (dt v h : float) :
  is_pos dt = true -> fast dt v -> signed true h = true ->
  fast dt (F64.add v h).
Proof.
  intros Hdt Hv Hh.
  destruct dt as [| | | [] md ed]; try discriminate.
  destruct (signed_cases true h Hh) as [-> | [-> | (mh & eh & ->)]];
    destruct Hv as [-> | (m & e & -> & Hv & Hb)];
    try (left; reflexivity).
  - right. exists m, e. cbn [F64.add SFadd]. repeat split; assumption.
  - cbn [F2R] in Hb.
    destruct (add_cases (S754_finite true m e) (S754_finite true mh eh)
                eq_refl eq_refl eq_refl eq_refl)
      as [[H0 _] | [(p & ep & Hp & _) | (p & ep & Hp & E)]]; cbn [F2R] in *.
    + exfalso.
      assert (0 < IZR (Zpos m) * bpow e)%R
        by (apply Rmult_lt_0_compat; [apply IZR_lt; lia | apply bpow_pos]).
      assert (0 < IZR (Zpos mh) * bpow eh)%R
        by (apply Rmult_lt_0_compat; [apply IZR_lt; lia | apply bpow_pos]).
      lra.
    + exfalso.
      assert (0 < IZR (Zpos m) * bpow e)%R
        by (apply Rmult_lt_0_compat; [apply IZR_lt; lia | apply bpow_pos]).
      assert (0 < IZR (Zpos mh) * bpow eh)%R
        by (apply Rmult_lt_0_compat; [apply IZR_lt; lia | apply bpow_pos]).
      assert (0 < IZR (Zpos p) * bpow ep)%R
        by (apply Rmult_lt_0_compat; [apply IZR_lt; lia | apply bpow_pos]).
      lra.
    + rewrite E.
      assert (0 < IZR (Zpos mh) * bpow eh)%R
        by (apply Rmult_lt_0_compat; [apply IZR_lt; lia | apply bpow_pos]).
      destruct (round_ge true p ep true m e Hv ltac:(lra))
        as [E' | (m2 & e2 & E2 & Hv2 & H2)].
      * left. exact E'.
      * right. exists m2, e2. rewrite E2 in *. split; [reflexivity |].
        split; [exact Hv2 |]. cbn [F2R].
        assert (0 < IZR (Zpos md) * bpow ed)%R
          by (apply Rmult_lt_0_compat; [apply IZR_lt; lia | apply bpow_pos]).
        nra.
Qed.

(** ** The operations of a step on floats *)

Lemma py_add_inv (a b : float) (v : pyval) :
  py_add (PyFloat a) (PyFloat b) = Ok v -> v = PyFloat (F64.add a b).
Proof. intros E. inversion E. reflexivity. Qed.

Lemma py_mul_inv (a b : float) (v : pyval) :
  py_mul (PyFloat a) (PyFloat b) = Ok v -> v = PyFloat (F64.mul a b).
Proof. intros E. inversion E. reflexivity. Qed.

Lemma py_neg_inv (a : float) (v : pyval) :
  py_neg (PyFloat a) = Ok v -> v = PyFloat (F64.opp a).
Proof. intros E. inversion E. reflexivity. Qed.

Lemma py_truediv_inv (a b : float) (v : pyval) :
  py_truediv (PyFloat a) (PyFloat b) = Ok v ->
  F64.is_zero b = false /\ v = PyFloat (F64.div a b).
Proof.
  unfold py_truediv. cbn [as_double rbind].
  destruct (F64.is_zero b); intros E; inversion E. split; reflexivity.
Qed.

Lemma as_double_exponent (n : Z) :
  n = 2 \/ n = 3 -> as_double (PyInt n) = Ok (F64.of_Z n).
Proof. intros [-> | ->]; reflexivity. Qed.

Lemma py_pow_pos `{Libm} (a : float) (n : positive) (v : pyval) :
  pow_keeps_sign -> is_pos a = true -> Zpos n = 2 \/ Zpos n = 3 ->
  py_pow (PyFloat a) n = Ok v ->
  exists f, v = PyFloat f /\ (F64.is_zero f = true \/ is_pos f = true).
Proof.
  intros Hpow Ha Hn.
  pose proof (Hpow a (Zpos n) Ha Hn) as Hs.
  destruct a as [| | | sa ma ea]; try discriminate.
  destruct sa; [discriminate |].
  unfold py_pow, float_pow.
  rewrite (as_double_exponent (Zpos n) Hn).
  cbn [rbind F64.is_nan F64.is_inf F64.is_zero F64.is_neg andb F64.abs SFabs].
  destruct (F64.eqb (S754_finite false ma ea) F64.one).
  - intros E. inversion E. eexists. split; [reflexivity |]. right. reflexivity.
  - destruct (c_pow (S754_finite false ma ea) (F64.of_Z (Zpos n))) as [ix er].
    cbn [fst] in Hs.
    destruct (signed_cases false ix Hs) as [-> | [-> | (mi & ei & ->)]];
      destruct er; cbn; intros E; inversion E;
      eexists; (split; [reflexivity |]); auto.
Qed.

Lemma py_pow_zero `{Libm} (s : bool) (n : positive) (v : pyval) :
  Zpos n = 2 \/ Zpos n = 3 ->
  py_pow (PyFloat (S754_zero s)) n = Ok v ->
  exists s', v = PyFloat (S754_zero s').
Proof.
  intros Hn. unfold py_pow, float_pow.
  rewrite (as_double_exponent (Zpos n) Hn).
  cbn [rbind F64.is_nan F64.is_inf F64.is_zero].
  destruct (F64.is_odd_integer (F64.of_Z (Zpos n)));
    intros E; inversion E; eexists; reflexivity.
Qed.

Lemma py_pow_zero_2 `{Libm} (s : bool) (v : pyval) :
  py_pow (PyFloat (S754_zero s)) 2 = Ok v -> v = PyFloat F64.zero.
Proof. intros E. inversion E. reflexivity. Qed.

Lemma add_zero_class (f : float) :
  F64.is_zero f = true \/ is_pos f = true ->
  F64.is_zero (F64.add f F64.zero) = true \/ is_pos (F64.add f F64.zero) = true.
Proof.
  intros [Hf | Hf]; destruct f as [[] | | | [] mf ef]; try discriminate;
    cbn; auto.
Qed.

Lemma math_sqrt_class (a : float) (r : pyval) :
  F64.is_zero a = true \/ is_pos a = true ->
  math_sqrt (PyFloat a) = Ok r ->
  exists f, r = PyFloat f /\ (F64.is_zero f = true \/ is_pos f = true).
Proof.
  intros Ha. unfold math_sqrt. cbn [as_double rbind].
  destruct a as [s | s | | s ma ea];
    try (destruct Ha; discriminate).
  - cbn. intros E. inversion E. eexists. split; [reflexivity |]. auto.
  - destruct s; [destruct Ha; discriminate |].
    assert (Hs : F64.sqrt (S754_finite false ma ea) = S754_nan \/
                 signed false (F64.sqrt (S754_finite false ma ea)) = true).
    { unfold F64.sqrt, SFsqrt.
      destruct (SFsqrt_core_binary F64.prec F64.emax (Zpos ma) ea)
        as [[mz ez] lz].
      apply round_aux_sign. }
    cbn [F64.is_nan F64.is_finite negb].
    destruct Hs as [-> | Hs]; [cbn; discriminate |].
    destruct (signed_cases false _ Hs) as [-> | [-> | (mr & er & ->)]]; cbn;
      intros E; inversion E; eexists; (split; [reflexivity |]); auto.
Qed.

(** The components across the axis stay zero. *)
Lemma zero_position (s sv : bool) (md : positive) (ed : Z) :
  exists s',
    F64.add (S754_zero s) (F64.mul (S754_zero sv) (S754_finite false md ed))
    = S754_zero s'.
Proof. destruct s, sv; eexists; reflexivity. Qed.

Lemma zero_velocity (s sv : bool) (mr : positive) (er : Z)
  (md : positive) (ed : Z) (mm : positive) (em : Z) :
  exists s',
    F64.add (S754_zero sv)
      (F64.div (F64.mul (F64.div (F64.opp (S754_zero s))
                           (S754_finite false mr er))
                  (S754_finite false md ed))
         (S754_finite false mm em))
    = S754_zero s'.
Proof. destruct s, sv; eexists; reflexivity. Qed.

(** ** One step of the fall *)

Lemma step_in_fall `{Libm} (dt mass : float) (p p' : Planet) :
  pow_keeps_sign -> is_pos dt = true -> is_pos mass = true ->
  in_fall dt mass p ->
  single_step (PyFloat dt) p = (p', Ok tt) ->
  ahead p' = true ->
  in_fall dt mass p' /\ nearer p' p = true /\ on_axis p' = true.
Proof.
  intros Hpow Hdt Hmass Hin E Hah.
  destruct Hin as ((mx & ex & Ex & Hvx & Hx1) & (sy & Ey) & (sz & Ez) &
                   (v & Ev & Hfast) & (svy & Evy) & (svz & Evz) & Em).
  apply single_step_trace in E.
  destruct E as [xx yy zz s1 s2 r r3 nx ny nz Fx Fy Fz
                 dx dy dz x' y' z' gx gy gz hx hy hz vx' vy' vz'
                 Exx Eyy Es1 Ezz Es2 Er Er3 Enx EFx Eny EFy Enz EFz
                 Edx Ex' Edy Ey' Edz Ez' Egx Ehx Evx Egy Ehy Evy' Egz Ehz Evz'].
  unfold nearer, on_axis, ahead in *. cbn [x y z vx vy vz m] in *.
  rewrite Ex, Ey, Ez, Ev, Evy, Evz, Em in *.
  (* the force *)
  destruct (py_pow_pos (S754_finite false mx ex) 2 xx Hpow eq_refl
              (or_introl eq_refl) Exx)
    as (fxx & -> & Hxx).
  apply py_pow_zero_2 in Eyy, Ezz. subst yy zz.
  apply py_add_inv in Es1. subst s1. apply py_add_inv in Es2. subst s2.
  destruct (math_sqrt_class _ r (add_zero_class _ (add_zero_class _ Hxx)) Er)
    as (fr & -> & Hr).
  assert (Hr3 : exists f3, r3 = PyFloat f3 /\
                           (F64.is_zero f3 = true \/ is_pos f3 = true)).
  { destruct Hr as [Hr | Hr].
    - destruct fr as [sr | | |]; try discriminate.
      destruct (py_pow_zero sr 3 r3 (or_intror eq_refl) Er3) as (s' & ->).
      eexists. split; [reflexivity |]. left. reflexivity.
    - exact (py_pow_pos fr 3 r3 Hpow Hr (or_intror eq_refl) Er3). }
  destruct Hr3 as (f3 & -> & H3).
  apply py_neg_inv in Enx, Eny, Enz. subst nx ny nz.
  apply py_truediv_inv in EFx. destruct EFx as [Hz3 ->].
  apply py_truediv_inv in EFy. destruct EFy as [_ ->].
  apply py_truediv_inv in EFz. destruct EFz as [_ ->].
  destruct H3 as [H3 | H3]; [rewrite H3 in Hz3; discriminate |].
  destruct f3 as [| | | s3 m3 e3]; try discriminate.
  destruct s3; [discriminate |].
  destruct dt as [| | | sd md ed]; try discriminate.
  destruct sd; [discriminate |].
  destruct mass as [| | | sm mm em]; try discriminate.
  destruct sm; [discriminate |].
  (* the new position and velocity *)
  apply py_mul_inv in Edx, Edy, Edz, Egx, Egy, Egz. subst dx dy dz gx gy gz.
  apply py_add_inv in Ex', Ey', Ez'. subst x' y' z'.
  apply py_truediv_inv in Ehx. destruct Ehx as [_ ->].
  apply py_truediv_inv in Ehy. destruct Ehy as [_ ->].
  apply py_truediv_inv in Ehz. destruct Ehz as [_ ->].
  apply py_add_inv in Evx, Evy', Evz'. subst vx' vy' vz'.
  destruct (fall_step mx ex (F64.mul v (S754_finite false md ed)) Hvx Hx1
              (shift_class v md ed Hfast) Hah)
    as (m' & e' & Exn & Hv' & Hlt & Hltb).
  destruct (zero_position sy svy md ed) as (sy' & Ey').
  destruct (zero_position sz svz md ed) as (sz' & Ez').
  destruct (zero_velocity sy svy m3 e3 md ed mm em) as (svy' & Evy').
  destruct (zero_velocity sz svz m3 e3 md ed mm em) as (svz' & Evz').
  rewrite Exn, Ey', Ez'.
  split; [| split; [exact Hltb | reflexivity]].
  unfold in_fall. cbn [x y z vx vy vz m]. rewrite Evy', Evz'.
  split; [exists m', e'; repeat split; [exact Hv' | lra] |].
  split; [exists sy'; reflexivity |].
  split; [exists sz'; reflexivity |].
  split.
  { eexists. split; [reflexivity |].
    apply speed_step; [reflexivity | exact Hfast |].
    apply (div_class true _ false mm em).
    apply (mul_class true _ false md ed).
    apply (div_class true (S754_finite true mx ex) false m3 e3).
    reflexivity. }
  split; [exists svy'; reflexivity |].
  split; [exists svz'; reflexivity | reflexivity].
Qed.

Lemma run_falls `{Libm} (dt mass : float) :
  pow_keeps_sign -> is_pos dt = true -> is_pos mass = true ->
  forall (n : nat) (p : Planet),
    in_fall dt mass p ->
    forallb ahead (run n (PyFloat dt) p) = true ->
    falling (p :: run n (PyFloat dt) p) = true.
Proof.
  intros Hpow Hdt Hmass.
  induction n as [| n IH]; intros p Hin Hah; [reflexivity |].
  cbn [run] in *.
  destruct (single_step (PyFloat dt) p) as [p' [[] | e]] eqn:E; [| reflexivity].
  cbn [forallb] in Hah. apply andb_prop in Hah. destruct Hah as [Hp' Hrest].
  destruct (step_in_fall dt mass p p' Hpow Hdt Hmass Hin E Hp')
    as (Hin' & Hn & Ha).
  cbn [falling]. rewrite Hn, Ha. cbn [andb].
  apply IH; assumption.
Qed.

(** ** The first two steps from rest *)

Lemma one_value : F2R F64.one = 1%R.
Proof.
  unfold F64.one. cbn [F2R].
  change (IZR (Zpos 4503599627370496)) with (IZR (2 ^ 52)).
  rewrite <- (bpow_IZR 52), <- bpow_add by lia. apply bpow_0.
Qed.

Lemma below_one_value :
  (IZR (Zpos 9007199254740990) * bpow (-53) = 1 - bpow (-52))%R /\
  (IZR (Zpos 9007199254740991) * bpow (-53) = 1 - bpow (-53))%R /\
  (bpow (-53) < bpow (-52) < 1)%R.
Proof.
  assert (H1 : (IZR (2 ^ 53) * bpow (-53) = 1)%R).
  { rewrite <- (bpow_IZR 53), <- bpow_add by lia. apply bpow_0. }
  assert (H2 : bpow (-52) = (2 * bpow (-53))%R).
  { change (-52) with (1 + -53). rewrite bpow_add, bpow_1. reflexivity. }
  pose proof (bpow_pos (-53)) as Hp.
  assert (H3 : (bpow (-52) < 1)%R).
  { rewrite <- bpow_0. apply bpow_lt. lia. }
  change (Zpos 9007199254740990) with (2 ^ 53 - 2).
  change (Zpos 9007199254740991) with (2 ^ 53 - 1).
  rewrite !minus_IZR. repeat split; try lra.
Qed.

Lemma first_step_state `{Libm} (dt mass : float) :
  is_pos dt = true -> is_pos mass = true ->
  exists svy svz,
    single_step (PyFloat dt) (at_rest (PyFloat mass)) =
    ({| x := PyFloat F64.one; y := PyFloat F64.zero; z := PyFloat F64.zero;
        vx := PyFloat (F64.add F64.zero
                         (F64.div (F64.mul (F64.opp F64.one) dt) mass));
        vy := PyFloat (S754_zero svy); vz := PyFloat (S754_zero svz);
        m := PyFloat mass |}, Ok tt).
Proof.
  intros Hdt Hm.
  destruct dt as [| | | sd md ed]; try discriminate.
  destruct sd; [discriminate |].
  destruct mass as [| | | sm mm em]; try discriminate.
  destruct sm; [discriminate |].
  eexists _, _. reflexivity.
Qed.

Lemma second_step_returns `{Libm} (dt mass v : float) (svy svz : bool) :
  is_pos mass = true ->
  exists p2,
    single_step (PyFloat dt)
      {| x := PyFloat F64.one; y := PyFloat F64.zero; z := PyFloat F64.zero;
         vx := PyFloat v;
         vy := PyFloat (S754_zero svy); vz := PyFloat (S754_zero svz);
         m := PyFloat mass |} = (p2, Ok tt) /\
    x p2 = PyFloat (F64.add F64.one (F64.mul v dt)).
Proof.
  intros Hm.
  destruct mass as [| | | sm mm em]; try discriminate.
  eexists. split; reflexivity.
Qed.

(** The velocity after the first step is fast enough when the second
    step moves the body by [2 ** -52] or more. *)
Lemma first_speed (dt mass : float) :
  is_pos dt = true -> is_pos mass = true ->
  let v1 := F64.add F64.zero (F64.div (F64.mul (F64.opp F64.one) dt) mass) in
  SFleb (F64.add F64.one (F64.mul v1 dt)) below_one = true ->
  fast dt v1.
Proof.
  intros Hdt Hm.
  destruct dt as [| | | sd md ed]; try discriminate.
  destruct sd; [discriminate |].
  destruct mass as [| | | sm mm em]; try discriminate.
  destruct sm; [discriminate |].
  set (g := F64.mul (F64.opp F64.one) (S754_finite false md ed)).
  assert (Hh : signed true (F64.div g (S754_finite false mm em)) = true).
  { apply (div_class true g false mm em).
    apply (mul_class true (F64.opp F64.one) false md ed). reflexivity. }
  pose proof (div_valid g false mm em) as Hvh.
  destruct (signed_cases true _ Hh) as [Eh | [Eh | (mh & eh & Eh)]];
    rewrite Eh in *; cbv zeta; intros Hle.
  - discriminate.
  - left. reflexivity.
  - cbn [F64.add SFadd F64.zero] in *.
    right. exists mh, eh. split; [reflexivity |]. split; [exact Hvh |].
    cbn [F2R].
    destruct (Rle_or_lt (bpow (-53))
                (IZR (Zpos mh) * bpow eh * (IZR (Zpos md) * bpow ed)))
      as [Hok | Hsmall]; [exact Hok | exfalso].
    destruct below_one_value as (Hb1 & Hb2 & Hb3).
    destruct (mul_le true mh eh false md ed false 4503599627370496 (-105))
      as [E0 | (m2 & e2 & E2 & H2)].
    + reflexivity.
    + rewrite half_ulp_value. apply bpow_lt. lia.
    + rewrite half_ulp_value. lra.
    + rewrite E0 in Hle. discriminate.
    + rewrite E2 in Hle. rewrite half_ulp_value in H2. cbn [xorb] in Hle.
      assert (Hs : (0 < IZR (Zpos m2) * bpow e2)%R)
        by (apply Rmult_lt_0_compat; [apply IZR_lt; lia | apply bpow_pos]).
      destruct (add_cases F64.one (S754_finite true m2 e2)
                  eq_refl eq_refl eq_refl eq_refl)
        as [[H0 _] | [(p & ep & Hp & E) | (p & ep & Hp & _)]];
        rewrite one_value in *; cbn [F2R] in *.
      * lra.
      * rewrite E in Hle.
        destruct (round_ge false p ep false 9007199254740991 (-53))
          as [Ei | (m3 & e3 & E3 & Hv3 & H3)].
        -- reflexivity.
        -- lra.
        -- rewrite Ei in Hle. discriminate.
        -- rewrite E3 in Hle, Hv3. unfold SFleb, below_one in Hle.
           rewrite (compare_gt m3 e3 9007199254740990 (-53) Hv3 eq_refl) in Hle;
             [discriminate | lra].
      * assert (0 < IZR (Zpos p) * bpow ep)%R
          by (apply Rmult_lt_0_compat; [apply IZR_lt; lia | apply bpow_pos]).
        lra.
Qed.

(** The reference library: an exact power of a positive number, rounded,
    is not negative. *)
Lemma exact_pow_keeps_sign : @pow_keeps_sign exact_libm.
Proof.
  intros a n Ha Hn.
  destruct a as [| | | sa ma ea]; try discriminate.
  destruct sa; [discriminate |].
  cbn [c_pow exact_libm]. unfold exact_pow.
  destruct Hn as [-> | ->].
  - change (integral (F64.of_Z 2)) with (Some 2%positive).
    cbn [fst andb]. apply round_class.
  - change (integral (F64.of_Z 3)) with (Some 3%positive).
    cbn [fst andb]. apply round_class.
Qed.

Lemma rest_in_fall (dt mass : float) (svy svz : bool) :
  fast dt (F64.add F64.zero (F64.div (F64.mul (F64.opp F64.one) dt) mass)) ->
  in_fall dt mass
    {| x := PyFloat F64.one; y := PyFloat F64.zero; z := PyFloat F64.zero;
       vx := PyFloat (F64.add F64.zero
                        (F64.div (F64.mul (F64.opp F64.one) dt) mass));
       vy := PyFloat (S754_zero svy); vz := PyFloat (S754_zero svz);
       m := PyFloat mass |}.
Proof.
  intros Hfast. unfold in_fall. cbn [x y z vx vy vz m].
  split.
  { exists 4503599627370496%positive, (-52). split; [reflexivity |].
    split; [reflexivity |]. pose proof one_value as H1.
    unfold F64.one in H1. cbn [F2R] in H1. lra. }
  split; [exists false; reflexivity |].
  split; [exists false; reflexivity |].
  split; [eexists; split; [reflexivity | exact Hfast] |].
  split; [exists svy; reflexivity |].
  split; [exists svz; reflexivity | reflexivity].
Qed.


